(** * PapiAPI registry updater: a shallow embedding of
      [scripts/update_registry.py] and the properties of its catalog logic.

    The script scans [magic/upload/] for [*.magic] archives, reads the
    metadata document embedded in each, computes a SHA-256 checksum and
    merges one entry per archive into [magic/manifest.json].

    Conventions of the embedding:
    - a Python value that [json.loads] can return is a term of [json];
      objects keep their insertion order (an association list); a
      number is an [int] or a [float], and a float can be an infinity
      or NaN, which [json.loads] accepts ([Infinity], [-Infinity],
      [NaN]);
    - a [str] is a Rocq [string], read as the UTF-8 bytes of the text;
    - a raised exception is the [Raise] case of [result]; printed lines
      and the write of the registry file are events of a trace;
    - the functions of the Python standard library that the script calls
      on file contents ([json.loads], [json.dump], [str.strip],
      [bytes.decode], [zipfile.ZipFile]) are the fields of the class
      [PyLib]: every theorem holds for any such library; SHA-256 and
      the hash object of [hashlib] are embedded in full.

    The first part of the file is the embedding, the second part the
    properties. *)

From Stdlib Require Import ZArith NArith QArith List String Ascii Bool Lia Lqa.
From Stdlib Require Import Strings.Byte.
From stdpp Require Import base tactics option list strings countable.
From Equations Require Import Equations.

Import ListNotations.
Close Scope Q_scope.
Local Open Scope string_scope.
Local Open Scope Z_scope.

(** ** Exceptions and results *)

(** The exception classes the script can meet.  All of them derive from
    Python's [Exception], so [except Exception] catches every one. *)
Inductive exn : Type :=
  | KeyError
  | TypeError
  | AttributeError
  | FileNotFoundError
  | BadZipFile
  | JSONDecodeError
  | UnicodeDecodeError
  | OSError
  | OtherError (label : string).

Inductive result (A : Type) : Type :=
  | Ok (a : A)
  | Raise (e : exn).
Arguments Ok {A} a.
Arguments Raise {A} e.

(** [result] is a monad: [x ← m; k] runs [k] unless [m] raised. *)
#[global] Instance result_ret : MRet result := fun A a => Ok a.
#[global] Instance result_bind : MBind result := fun A B f m =>
  match m with
  | Ok a => f a
  | Raise e => Raise e
  end.

Definition is_ok {A} (r : result A) : bool :=
  match r with Ok _ => true | Raise _ => false end.

(** ** JSON values as Python objects *)

(** A Python [float]: NaN, an infinity, or the finite value
    [m * 2 ^ e], negated when [negative]; a zero has a sign.  Only the
    value of a float matters to the script, which compares floats and
    never computes with them. *)
Inductive pyfloat : Type :=
  | FNan
  | FInf (negative : bool)
  | FFin (negative : bool) (m : N) (e : Z).

Unset Elimination Schemes.
Inductive json : Type :=
  | JNull
  | JBool (b : bool)
  | JInt (n : Z)
  | JFloat (x : pyfloat)
  | JStr (s : string)
  | JArr (xs : list json)
  | JObj (kvs : list (string * json)).
Set Elimination Schemes.

(** Induction with the hypotheses for the values nested in arrays and
    objects. *)
Section json_induction.
Variable P : json -> Prop.
Hypothesis Hnull : P JNull.
Hypothesis Hbool : forall b, P (JBool b).
Hypothesis Hint : forall n, P (JInt n).
Hypothesis Hfloat : forall x, P (JFloat x).
Hypothesis Hstr : forall s, P (JStr s).
Hypothesis Harr : forall xs, Forall P xs -> P (JArr xs).
Hypothesis Hobj : forall kvs, Forall (fun kv => P (snd kv)) kvs -> P (JObj kvs).

Fixpoint json_ind (v : json) : P v :=
  match v with
  | JNull => Hnull
  | JBool b => Hbool b
  | JInt n => Hint n
  | JFloat x => Hfloat x
  | JStr s => Hstr s
  | JArr xs =>
      Harr xs ((fix go (l : list json) : Forall P l :=
                  match l with
                  | [] => Forall_nil _
                  | x :: l' => Forall_cons _ _ _ (json_ind x) (go l')
                  end) xs)
  | JObj kvs =>
      Hobj kvs ((fix go (l : list (string * json)) : Forall (fun kv => P (snd kv)) l :=
                   match l with
                   | [] => Forall_nil _
                   | kv :: l' => Forall_cons _ _ _ (json_ind (snd kv)) (go l')
                   end) kvs)
  end.
End json_induction.

(** [bool(v)]: Python truthiness. *)
Definition truthy (v : json) : bool :=
  match v with
  | JNull => false
  | JBool b => b
  | JInt n => negb (n =? 0)
  | JFloat (FFin _ m _) => negb (m =? 0)%N
  | JFloat _ => true
  | JStr s => negb (String.eqb s "")
  | JArr xs => match xs with [] => false | _ => true end
  | JObj kvs => match kvs with [] => false | _ => true end
  end.

(** [d[k]] on the association list of a dict: the entry of key [k]. *)
Fixpoint dict_get {A} (k : string) (kvs : list (string * A)) : option A :=
  match kvs with
  | [] => None
  | (k', v) :: rest => if String.eqb k k' then Some v else dict_get k rest
  end.

(** [d[k] = v] on a dict: the value is replaced where the key stands, a
    new key goes last. *)
Fixpoint dict_set {A} (k : string) (v : A) (kvs : list (string * A)) : list (string * A) :=
  match kvs with
  | [] => [(k, v)]
  | (k', v') :: rest =>
      if String.eqb k k' then (k', v) :: rest else (k', v') :: dict_set k v rest
  end.

(** The numbers that [==] and [<] compare: CPython compares a [bool],
    an [int] and a [float] by their exact values, without rounding the
    integer; NaN is a number that is equal to nothing and below
    nothing. *)
Inductive number : Type :=
  | Nan
  | Inf (negative : bool)
  | Fin (q : Q).

Definition float_value (negative : bool) (m : N) (e : Z) : Q :=
  (inject_Z (if negative then - Z.of_N m else Z.of_N m) * Qpower (inject_Z 2) e)%Q.

(** The number a [bool], an [int] or a [float] stands for in a
    comparison. *)
Definition as_number (v : json) : option number :=
  match v with
  | JBool b => Some (Fin (inject_Z (if b then 1 else 0)))
  | JInt n => Some (Fin (inject_Z n))
  | JFloat FNan => Some Nan
  | JFloat (FInf negative) => Some (Inf negative)
  | JFloat (FFin negative m e) => Some (Fin (float_value negative m e))
  | _ => None
  end.

Definition num_eqb (x y : number) : bool :=
  match x, y with
  | Fin p, Fin q => Qeq_bool p q
  | Inf s, Inf t => Bool.eqb s t
  | _, _ => false
  end.

Definition num_ltb (x y : number) : bool :=
  match x, y with
  | Fin p, Fin q => negb (Qle_bool q p)
  | Inf true, Inf false => true
  | Inf true, Fin _ => true
  | Fin _, Inf false => true
  | _, _ => false
  end.

(** [json.loads] returns one object, [json.decoder.NaN], for every
    [NaN] it reads: two NaN of the script are always the same object. *)
Definition is_nan (v : json) : bool :=
  match v with
  | JFloat FNan => true
  | _ => false
  end.

Definition list_eqb {A B} (f : A -> B -> bool) : list A -> list B -> bool :=
  fix go xs ys :=
    match xs, ys with
    | [], [] => true
    | x :: xs', y :: ys' => f x y && go xs' ys'
    | _, _ => false
    end.

(** [f] relates the entry of key [k] in [xs] with [w]; both may be
    missing. *)
Definition lookup_rel {A B} (f : A -> B -> bool) (k : string) (w : option B)
  : list (string * A) -> bool :=
  fix go xs :=
    match xs with
    | [] => match w with None => true | Some _ => false end
    | (k', v) :: xs' =>
        if String.eqb k k'
        then match w with Some w' => f v w' | None => false end
        else go xs'
    end.

(** [a == b] on Python objects: numbers by value ([True == 1],
    [1 == 1.0], and NaN equal to nothing, itself included), strings and
    lists element by element, dicts as unordered maps.  The items of two
    lists and the values of two dicts are compared as CPython does it
    ([PyObject_RichCompareBool]): two items that are the same object are
    taken as equal without [==] being asked, and this is where it
    matters, for NaN: [[nan] == [nan]] holds though [nan == nan] does
    not.  Of the other values of the script, two that are the same
    object are [==] anyway. *)
Fixpoint py_eq (a b : json) {struct a} : bool :=
  match a, b with
  | JNull, JNull => true
  | JStr s, JStr t => String.eqb s t
  | JArr xs, JArr ys => list_eqb (fun x y => is_nan x && is_nan y || py_eq x y) xs ys
  | JObj xs, JObj ys =>
      forallb (fun k => lookup_rel (fun x y => is_nan x && is_nan y || py_eq x y)
                                   k (dict_get k ys) xs)
              (map fst xs ++ map fst ys)
  | _, _ =>
      match as_number a, as_number b with
      | Some x, Some y => num_eqb x y
      | _, _ => false
      end
  end.

(** [a is b or a == b]: the equality of items inside lists, tuples and
    dicts. *)
Definition py_same (a b : json) : bool := is_nan a && is_nan b || py_eq a b.


Definition opt_rel {A B} (f : A -> B -> bool) (a : option A) (b : option B) : bool :=
  match a, b with
  | Some x, Some y => f x y
  | None, None => true
  | _, _ => false
  end.


(** ** Ordering: [a < b] on Python objects *)

(** Lexicographic order of two sequences, as CPython compares lists and
    tuples: the first position where the items are not equal decides. *)
Definition lex_lt {A} (eq : A -> A -> bool) (lt : A -> A -> result bool)
  : list A -> list A -> result bool :=
  fix go xs ys :=
    match xs, ys with
    | [], [] => Ok false
    | [], _ :: _ => Ok true
    | _ :: _, [] => Ok false
    | x :: xs', y :: ys' => if eq x y then go xs' ys' else lt x y
    end.

(** [a < b]: numbers by value (NaN is below nothing and nothing is
    below it), strings and lists lexicographically; [None], dicts and
    operands of different kinds raise [TypeError]. *)
Fixpoint py_lt (a b : json) {struct a} : result bool :=
  match a, b with
  | JStr s, JStr t => Ok (String.ltb s t)
  | JArr xs, JArr ys => lex_lt py_same py_lt xs ys
  | _, _ =>
      match as_number a, as_number b with
      | Some x, Some y => Ok (num_ltb x y)
      | _, _ => Raise TypeError
      end
  end.

(** [(a1, a2) < (b1, b2)] on the pairs that [save_registry] sorts by. *)
Definition tuple_lt (a b : json * json) : result bool :=
  if negb (py_same a.1 b.1) then py_lt a.1 b.1
  else if negb (py_same a.2 b.2) then py_lt a.2 b.2
  else Ok false.

(** ** Stable sorting *)

(** [list.sort(key=...)] is a stable sort that compares keys with [<]
    only.  When [<] orders the keys (of every two keys one is below the
    other, or they are equal) the stable order is unique, and the
    insertion sort below computes it. *)
Section stable_sort.
Context {K V : Type} (lt : K -> K -> bool).

Fixpoint insert_sorted (x : K * V) (l : list (K * V)) : list (K * V) :=
  match l with
  | [] => [x]
  | y :: l' => if lt y.1 x.1 then y :: insert_sorted x l' else x :: l
  end.

Definition stable_sort (l : list (K * V)) : list (K * V) :=
  foldr insert_sorted [] l.

(** No element is smaller than its left neighbour. *)
Fixpoint ordered (l : list (K * V)) : bool :=
  match l with
  | x :: (y :: _) as l' => negb (lt y.1 x.1) && ordered l'
  | _ => true
  end.
End stable_sort.

(** ** Programs: a trace of effects and an outcome *)

(** The lines the script prints, one constructor per [print] statement. *)
Inductive message : Type :=
  | MsgNoDir
  | MsgNoMagic
  | MsgIgnore (file_name : string)
  | MsgError (file_name : string) (e : exn)
  | MsgVersionMismatch (filename_version infos_version : json)
  | MsgUpsert (name version : json) (build_type : string)
  | MsgSaved
  | WarnRegistryEmpty
  | WarnRegistryInvalid (e : exn)
  | MsgNewRegistry
  | ErrRegistryUnreadable (e : exn).

Inductive event : Type :=
  | Print (m : message)
  | WriteRegistry (text : string).

Record prog (A : Type) : Type := Prog { trace : list event; outcome : result A }.
Arguments Prog {A} trace outcome.
Arguments trace {A} p.
Arguments outcome {A} p.

#[global] Instance prog_ret : MRet prog := fun A a => Prog [] (Ok a).
#[global] Instance prog_bind : MBind prog := fun A B f m =>
  match outcome m with
  | Ok a => Prog (trace m ++ trace (f a)) (outcome (f a))
  | Raise e => Prog (trace m) (Raise e)
  end.

Definition lift {A} (r : result A) : prog A := Prog [] r.
Definition print (m : message) : prog unit := Prog [Print m] (Ok tt).

(** Lines 71 and 72: the file is opened for writing and the document is
    dumped into it, as one event.  A [str] of the embedding is UTF-8
    text, which the file can always hold; a [str] with a lone surrogate,
    on which the write would fail, is outside the embedding. *)
Definition write_registry (text : string) : prog unit := Prog [WriteRegistry text] (Ok tt).

(** [try: body except Exception as e: handler e]. *)
Definition try_except {A} (body : prog A) (handler : exn -> prog A) : prog A :=
  match outcome body with
  | Ok a => body
  | Raise e => Prog (trace body ++ trace (handler e)) (outcome (handler e))
  end.

(** The texts written to the registry file, in order. *)
Definition writes (t : list event) : list string :=
  omap (fun ev => match ev with WriteRegistry s => Some s | Print _ => None end) t.

Definition prints (t : list event) : list message :=
  omap (fun ev => match ev with Print m => Some m | WriteRegistry _ => None end) t.

(** The registry file, as [REGISTRY_PATH.exists()] reports it: missing,
    or there with what reading it yields (its text, or the exception
    that [open] or [read] raises). *)
Inductive file_state : Type :=
  | Absent
  | Present (read : result string).

(** What the call [REGISTRY_PATH.exists()] meets: [stat] fails with an
    error that [exists] does not take for a missing file (permission
    denied on a directory of the path, an I/O error) and [exists] raises
    it, or the path can be examined and the file is in one of the states
    above. *)
Inductive path_state : Type :=
  | StatFails (e : exn)
  | Examined (fs : file_state).

(** The file after the writes of a trace: each write replaces the
    content, and reading the file then yields the text written. *)
Definition file_after (fs : file_state) (t : list event) : file_state :=
  match list.last (writes t) with
  | Some text => Present (Ok text)
  | None => fs
  end.

(** ** The Python library, as far as the script uses it *)

Class PyLib : Type := {
  (** [json.loads(text)] *)
  json_loads : string -> result json;
  (** [json.dumps(v, indent=2, ensure_ascii=False)] *)
  json_dumps : json -> string;
  (** [text.strip()] *)
  str_strip : string -> string;
  (** [data.decode("utf-8")] *)
  bytes_decode : list byte -> result string;
  (** [zipfile.ZipFile(path, "r")] on a file of the given bytes: the
      archive's members in directory order, each with its name and
      what reading it yields. *)
  zip_open : list byte -> result (list (string * result (list byte)));
}.

(** ** Strings *)

(** [c.upper()] and [c.lower()] on the ASCII letters; the other bytes
    stay as they are.  No character outside ASCII has one of the keys of
    [BUILD_MAP] as its upper case, or a lower case made of the
    characters of [metadata.json], so the two tests of the script that
    change case see nothing else. *)
Definition upper_ascii (c : ascii) : ascii :=
  let n := nat_of_ascii c in
  if ((97 <=? n) && (n <=? 122))%nat then ascii_of_nat (n - 32) else c.

Definition lower_ascii (c : ascii) : ascii :=
  let n := nat_of_ascii c in
  if ((65 <=? n) && (n <=? 90))%nat then ascii_of_nat (n + 32) else c.

Fixpoint str_map (f : ascii -> ascii) (s : string) : string :=
  match s with
  | EmptyString => EmptyString
  | String c s' => String (f c) (str_map f s')
  end.

(** [s.lower()] *)
Definition str_lower : string -> string := str_map lower_ascii.

(** [s[-1]] *)
Fixpoint str_last (s : string) : option ascii :=
  match s with
  | EmptyString => None
  | String c EmptyString => Some c
  | String _ s' => str_last s'
  end.

(** [s.endswith(suffix)] *)
Definition str_endswith (s suffix : string) : bool :=
  let n := String.length s in
  let k := String.length suffix in
  ((k <=? n)%nat && String.eqb (String.substring (n - k) k s) suffix)%bool.

(** The longest prefix of [s] whose characters satisfy [p], and the rest. *)
Fixpoint str_span (p : ascii -> bool) (s : string) : string * string :=
  match s with
  | EmptyString => (EmptyString, EmptyString)
  | String c s' =>
      if p c then let '(a, b) := str_span p s' in (String c a, b)
      else (EmptyString, s)
  end.

Definition is_alnum (c : ascii) : bool :=
  let n := nat_of_ascii c in
  (((48 <=? n) && (n <=? 57)) || ((65 <=? n) && (n <=? 90)) || ((97 <=? n) && (n <=? 122)))%nat.

Definition newline : string := String (ascii_of_nat 10) EmptyString.

(** ** SHA-256 and the hash object of [hashlib] *)

Module Sha256.

(** 32-bit words are integers in [0, 2^32); additions wrap around. *)
Definition add32 (x y : Z) : Z := (x + y) mod 2 ^ 32.
Definition rotr (n x : Z) : Z :=
  Z.lor (Z.shiftr x n) (Z.shiftl x (32 - n)) mod 2 ^ 32.
Definition not32 (x : Z) : Z := Z.lxor x 0xffffffff.

Definition Ch (x y z : Z) : Z := Z.lxor (Z.land x y) (Z.land (not32 x) z).
Definition Maj (x y z : Z) : Z :=
  Z.lxor (Z.lxor (Z.land x y) (Z.land x z)) (Z.land y z).
Definition Sigma0 (x : Z) : Z := Z.lxor (Z.lxor (rotr 2 x) (rotr 13 x)) (rotr 22 x).
Definition Sigma1 (x : Z) : Z := Z.lxor (Z.lxor (rotr 6 x) (rotr 11 x)) (rotr 25 x).
Definition sigma0 (x : Z) : Z := Z.lxor (Z.lxor (rotr 7 x) (rotr 18 x)) (Z.shiftr x 3).
Definition sigma1 (x : Z) : Z := Z.lxor (Z.lxor (rotr 17 x) (rotr 19 x)) (Z.shiftr x 10).

(** The first 64 primes. *)
Definition first_primes : list Z :=
  [2; 3; 5; 7; 11; 13; 17; 19; 23; 29; 31; 37; 41; 43; 47; 53;
   59; 61; 67; 71; 73; 79; 83; 89; 97; 101; 103; 107; 109; 113; 127; 131;
   137; 139; 149; 151; 157; 163; 167; 173; 179; 181; 191; 193; 197; 199; 211; 223;
   227; 229; 233; 239; 241; 251; 257; 263; 269; 271; 277; 281; 283; 293; 307; 311].

(** The integer cube root, found bit by bit from bit [n - 1] down. *)
Fixpoint cbrt_bits (n : nat) (x r : Z) : Z :=
  match n with
  | O => r
  | S n' =>
      let r' := r + 2 ^ Z.of_nat n' in
      if r' * r' * r' <=? x then cbrt_bits n' x r' else cbrt_bits n' x r
  end.

(** The round constants: the first 32 bits of the fractional parts of
    the cube roots of the first 64 primes. *)
Definition K : list Z :=
  Eval vm_compute in map (fun p => cbrt_bits 40 (p * 2 ^ 96) 0 mod 2 ^ 32) first_primes.

(** The eight working registers. *)
Definition regs : Type := (Z * Z * Z * Z * Z * Z * Z * Z)%type.

(** The first 32 bits of the fractional part of a square root. *)
Definition sqrt_frac (p : Z) : Z := Z.sqrt (p * 2 ^ 64) mod 2 ^ 32.

(** The initial hash value, from the square roots of the first 8 primes. *)
Definition H0 : regs :=
  Eval vm_compute in
    (sqrt_frac 2, sqrt_frac 3, sqrt_frac 5, sqrt_frac 7,
     sqrt_frac 11, sqrt_frac 13, sqrt_frac 17, sqrt_frac 19).

Definition byte_val (b : byte) : Z := Z.of_N (Byte.to_N b).

(** Big-endian words of a block. *)
Fixpoint be_words (bs : list byte) : list Z :=
  match bs with
  | b0 :: b1 :: b2 :: b3 :: rest =>
      (byte_val b0 * 2 ^ 24 + byte_val b1 * 2 ^ 16 + byte_val b2 * 2 ^ 8 + byte_val b3)
        :: be_words rest
  | _ => []
  end.

(** The message schedule, latest word first: [n] more words after [w]. *)
Fixpoint extend (n : nat) (w : list Z) : list Z :=
  match n with
  | O => w
  | S n' =>
      let x := add32 (add32 (sigma1 (nth 1 w 0)) (nth 6 w 0))
                     (add32 (sigma0 (nth 14 w 0)) (nth 15 w 0)) in
      extend n' (x :: w)
  end.

Definition schedule (block : list byte) : list Z :=
  rev (extend 48 (rev (be_words block))).

Definition round (s : regs) (kw : Z * Z) : regs :=
  let '(a, b, c, d, e, f, g, h) := s in
  let t1 := add32 (add32 (add32 h (Sigma1 e)) (add32 (Ch e f g) kw.1)) kw.2 in
  let t2 := add32 (Sigma0 a) (Maj a b c) in
  (add32 t1 t2, a, b, c, add32 d t1, e, f, g).

(** The compression function on one 64-byte block. *)
Definition compress (s : regs) (block : list byte) : regs :=
  let '(a, b, c, d, e, f, g, h) := s in
  let '(a', b', c', d', e', f', g', h') :=
    fold_left round (combine K (schedule block)) s in
  (add32 a a', add32 b b', add32 c c', add32 d d',
   add32 e e', add32 f f', add32 g g', add32 h h').

(** [n] as [k] big-endian bytes. *)
Fixpoint be_bytes (k : nat) (n : Z) : list byte :=
  match k with
  | O => []
  | S k' =>
      (be_bytes k' (n / 256) ++
       [match Byte.of_N (Z.to_N (n mod 256)) with Some b => b | None => x00 end])%list
  end.

(** The padding of a message of [len] bytes: [0x80], zeros up to 56
    modulo 64, and the bit length on 64 bits. *)
Definition padding (len : Z) : list byte :=
  (x80 :: repeat x00 (Z.to_nat ((119 - len mod 64) mod 64)) ++ be_bytes 8 (8 * len))%list.

(** *** The hash object: [h = hashlib.sha256()] *)

Record hasher : Type := Hasher {
  h_regs : regs;            (** the chaining value *)
  h_pending : list byte;    (** the bytes of the block being filled *)
  h_total : Z;              (** the number of bytes fed so far *)
}.

Definition init : hasher := Hasher H0 [] 0.

Definition feed (st : hasher) (b : byte) : hasher :=
  let buf := (h_pending st ++ [b])%list in
  if (length buf =? 64)%nat
  then Hasher (compress (h_regs st) buf) [] (h_total st + 1)
  else Hasher (h_regs st) buf (h_total st + 1).

(** [h.update(data)] *)
Definition update (st : hasher) (data : list byte) : hasher :=
  fold_left feed data st.

Definition hex_digit (n : Z) : ascii :=
  match String.get (Z.to_nat n) "0123456789abcdef" with
  | Some c => c
  | None => "0"%char
  end.

(** A word as eight lowercase hexadecimal digits. *)
Definition hex8 (w : Z) : string :=
  string_of_list_ascii
    (map (fun i => hex_digit (Z.land (Z.shiftr w i) 15)) [28; 24; 20; 16; 12; 8; 4; 0]).

Definition hex_regs (s : regs) : string :=
  let '(a, b, c, d, e, f, g, h) := s in
  hex8 a ++ hex8 b ++ hex8 c ++ hex8 d ++ hex8 e ++ hex8 f ++ hex8 g ++ hex8 h.

(** [h.hexdigest()]: the padding is fed to a copy of the object. *)
Definition hexdigest (st : hasher) : string :=
  hex_regs (h_regs (update st (padding (h_total st)))).

(** [hashlib.sha256(data).hexdigest()]: the digest of a byte string
    hashed in one call. *)
Definition sha256_hex (data : list byte) : string :=
  hexdigest (update init data).

(** *** The definition of FIPS 180-4: pad, cut into blocks, compress *)

Definition blocks_of (fuel : nat) : list byte -> list (list byte) :=
  (fix go (n : nat) (bs : list byte) : list (list byte) :=
     match n, bs with
     | S n', _ :: _ => take 64 bs :: go n' (drop 64 bs)
     | _, _ => []
     end) fuel.

Definition sha256_fips (msg : list byte) : string :=
  let padded := (msg ++ padding (Z.of_nat (length msg)))%list in
  hex_regs (fold_left compress (blocks_of (length padded) padded) H0).

End Sha256.

(** ** [sha256_file] *)

(** The chunk size of the read loop: [1024 * 1024]. *)
Definition CHUNK : N := 1024 * 1024.

(** [f.read(n)] on a file opened in binary mode, [rest] being the bytes
    from the current position on: the chunk read and the bytes left. *)
Fixpoint file_read (n : N) (rest : list byte) : list byte * list byte :=
  match rest with
  | [] => ([], [])
  | b :: rest' =>
      if (n =? 0)%N then ([], rest)
      else let '(chunk, rest'') := file_read (N.pred n) rest' in (b :: chunk, rest'')
  end.

Lemma file_read_shorter n rest b chunk rest' :
  file_read n rest = (b :: chunk, rest') -> (length rest' < length rest)%nat.
Proof.
  revert n b chunk rest'. induction rest as [|x rest IH]; intros n b chunk rest'; simpl.
  - intros [=].
  - destruct (n =? 0)%N; [intros [=]|].
    destruct (file_read (N.pred n) rest) as [c r] eqn:Hr. intros [= _ <- <-].
    destruct c as [|c0 c].
    + destruct rest; simpl in *; [injection Hr as <-; simpl; lia|].
      destruct (N.pred n =? 0)%N; [injection Hr as <-; simpl; lia|].
      by destruct (file_read _ _).
    + apply IH in Hr. lia.
Qed.

Definition inspect {A} (a : A) : {b : A | a = b} := exist _ a eq_refl.

(** The loop of [sha256_file]:
    [for chunk in iter(lambda: f.read(1024 * 1024), b""): h.update(chunk)].
    It stops at the first empty chunk. *)
Equations read_loop (h : Sha256.hasher) (rest : list byte) : Sha256.hasher
  by wf (length rest) lt :=
  read_loop h rest with inspect (file_read CHUNK rest) := {
    | exist _ ([], _) _ => h
    | exist _ (b :: chunk, rest') Hread =>
        read_loop (Sha256.update h (b :: chunk)) rest' }.
Next Obligation. intros. eapply file_read_shorter; eauto. Qed.

(** [sha256_file(path)] on a file of the given bytes. *)
Definition sha256_file (content : list byte) : string :=
  Sha256.hexdigest (read_loop Sha256.init content).

(** ** Operations of Python objects used by the script *)

(** [m.get(k, d)]: only a dict has the method. *)
Definition method_get (m : json) (k : string) (d : json) : result json :=
  match m with
  | JObj kvs => Ok (default d (dict_get k kvs))
  | _ => Raise AttributeError
  end.

(** [v[k]] for a string [k]. *)
Definition getitem (v : json) (k : string) : result json :=
  match v with
  | JObj kvs =>
      match dict_get k kvs with
      | Some x => Ok x
      | None => Raise KeyError
      end
  | _ => Raise TypeError
  end.

(** The items that [for ... in v] (here through [enumerate]) goes through:
    the elements of a list, the characters of a str, the keys of a dict. *)
Definition iterate (v : json) : result (list json) :=
  match v with
  | JArr xs => Ok xs
  | JStr s => Ok (map (fun c => JStr (String c EmptyString)) (list_ascii_of_string s))
  | JObj kvs => Ok (map (fun kv => JStr kv.1) kvs)
  | _ => Raise TypeError
  end.

(** [xs[i] = e].  The loop of [upsert_model] only reaches it with a
    list: the items of a str or of a dict are strs, on which [.get]
    raises before. *)
Definition setitem_index (xs : json) (i : nat) (e : json) : result json :=
  match xs with
  | JArr l => Ok (JArr (<[i := e]> l))
  | _ => Raise TypeError
  end.

(** [xs.append(e)]: only a list has the method. *)
Definition method_append (xs : json) (e : json) : result json :=
  match xs with
  | JArr l => Ok (JArr (l ++ [e])%list)
  | _ => Raise AttributeError
  end.

(** The dict [registry] after its ["models"] list was changed in place. *)
Definition with_models (registry models : json) : json :=
  match registry with
  | JObj kvs => JObj (dict_set "models" models kvs)
  | _ => registry
  end.

(** The sort key of [save_registry]:
    [lambda m: (m.get("name", ""), m.get("version", ""))]. *)
Definition sort_key (m : json) : result (json * json) :=
  n ← method_get m "name" (JStr "");
  v ← method_get m "version" (JStr "");
  mret (n, v).

Definition lt_total (a b : json * json) : bool :=
  match tuple_lt a b with
  | Ok r => r
  | Raise _ => false
  end.

Definition comparable (ks : list (json * json)) : bool :=
  forallb (fun a => forallb (fun b => is_ok (tuple_lt a b)) ks) ks.

(** [xs.sort(key=..., reverse=False)]: the keys are computed first, then
    the list is sorted by them.  A comparison that raises makes the sort
    raise.  CPython compares only the pairs its merge sort needs; the
    embedding asks that every two keys be comparable, so it can raise
    where CPython does not.  The list returned is the one CPython
    returns when the list is in order already (no element below the one
    before it: the sort finds one run and leaves it) and when [<] orders
    the keys.  On a list out of order whose keys [<] does not order,
    which takes a NaN among the names or versions, the merge sort leaves
    a permutation that depends on its merges: the embedding gives the
    permutation of the insertion sort there, and the properties that say
    more of the sorted list than that it is a permutation of the input
    assume keys without NaN. *)
Definition method_sort (xs : json) : result json :=
  match xs with
  | JArr l =>
      keys ← mapM sort_key l;
      if comparable keys
      then Ok (JArr (map snd (stable_sort lt_total (zip keys l))))
      else Raise TypeError
  | _ => Raise AttributeError
  end.

(** ** The script *)

Definition BUILD_MAP : list (string * string) :=
  [("A", "stable"); ("B", "rc"); ("C", "beta"); ("D", "alpha"); ("F", "debug")].

(** [FILENAME_RE.match(file_name)] for
    [^(?P<name>[^_]+)_(?P<buildid>[A-Za-z0-9]+)\.magic$]: the groups
    [name] and [buildid].  [name] runs to the first underscore, [buildid]
    is the run of letters and digits after it, and [$] also matches
    before a final newline. *)
Definition FILENAME_RE_match (file_name : string) : option (string * string) :=
  let '(name, rest) := str_span (fun c => negb (Ascii.eqb c "_")) file_name in
  match rest with
  | String "_" rest' =>
      let '(buildid, tail) := str_span is_alnum rest' in
      if negb (String.eqb name "") && negb (String.eqb buildid "")
         && (String.eqb tail ".magic" || String.eqb tail (".magic" ++ newline))
      then Some (name, buildid)
      else None
  | _ => None
  end.

Definition parse_build_type (build_id : string) : string :=
  match str_last build_id with
  | Some c =>
      let letter := String (upper_ascii c) EmptyString in
      default "unknown" (dict_get letter BUILD_MAP)
  | None => "unknown"
  end.

(** [z.open(name).read()]: [ZipFile] finds a member by its name, and of
    several members with one name it keeps the last. *)
Definition zip_read (members : list (string * result (list byte))) (name : string)
  : result (list byte) :=
  match list.last (filter (fun m => m.1 = name) members) with
  | Some m => m.2
  | None => Raise KeyError
  end.

Definition is_metadata_name (name : string) : bool :=
  str_endswith (str_lower name) "metadata.json".

Definition read_model_infos_from_magic `{PyLib} (content : list byte) : result json :=
  z ← zip_open content;
  let candidate := find is_metadata_name (map fst z) in
  match candidate with
  | None => Raise FileNotFoundError
  | Some name =>
      if String.eqb name "" then Raise FileNotFoundError
      else
        data ← zip_read z name;
        text ← bytes_decode data;
        json_loads text
  end.

Definition empty_catalog : json := JObj [("models", JArr [])].

(** [load_registry()] on a path that [exists()] can examine. *)
Definition load_registry `{PyLib} (fs : file_state) : prog json :=
  match fs with
  | Absent => mret empty_catalog
  | Present read =>
      try_except
        (text ← lift read;
         let content := str_strip text in
         if String.eqb content ""
         then print WarnRegistryEmpty;; mret empty_catalog
         else lift (json_loads content))
        (fun e =>
           match e with
           | JSONDecodeError =>
               print (WarnRegistryInvalid e);; print MsgNewRegistry;; mret empty_catalog
           | _ =>
               print (ErrRegistryUnreadable e);; mret empty_catalog
           end)
  end.

(** [load_registry()] from its first line: [REGISTRY_PATH.exists()] is
    called before the [try], so what it raises is not caught. *)
Definition load_registry_at `{PyLib} (ps : path_state) : prog json :=
  match ps with
  | StatFails e => lift (Raise e)
  | Examined fs => load_registry fs
  end.

Definition save_registry `{PyLib} (registry : json) : prog unit :=
  models ← lift (getitem registry "models");
  sorted ← lift (method_sort models);
  write_registry (json_dumps (with_models registry sorted)).

(** The condition of the loop of [upsert_model]. *)
Definition same_key (m model_entry : json) : result bool :=
  a ← method_get m "name" JNull;
  b ← method_get model_entry "name" JNull;
  if py_eq a b
  then c ← method_get m "version" JNull;
       d ← method_get model_entry "version" JNull;
       mret (py_eq c d)
  else mret false.

(** The loop of [upsert_model]: the index where it breaks, if it does. *)
Fixpoint upsert_scan (items : list json) (model_entry : json) (i : nat)
  : result (option nat) :=
  match items with
  | [] => mret None
  | m :: items' =>
      hit ← same_key m model_entry;
      if hit : bool then mret (Some i) else upsert_scan items' model_entry (S i)
  end.

Definition upsert_model (registry model_entry : json) : result json :=
  models ← getitem registry "models";
  items ← iterate models;
  found ← upsert_scan items model_entry 0;
  match found with
  | Some i =>
      models' ← setitem_index models i model_entry;
      mret (with_models registry models')
  | None =>
      models' ← method_append models model_entry;
      mret (with_models registry models')
  end.

(** The module constants computed from the environment at import, the
    two variables read in the loop, and the date that
    [datetime.utcnow().strftime("%Y-%m-%d")] returns. *)
Record config : Type := Config {
  REPO_OWNER : string;
  REPO_NAME : string;
  DEFAULT_BRANCH : string;
  DEV_SERVER_IP : option string;
  DEV_SERVER_PORT : option string;
  utc_today : string;
}.

(** An entry of [magic/upload/]. *)
Record dir_entry : Type := DirEntry {
  entry_name : string;
  entry_is_file : bool;
  entry_bytes : list byte;
}.

Definition download_url (cfg : config) (file_name : string) : string :=
  match DEV_SERVER_IP cfg with
  | Some dev_ip =>
      if negb (String.eqb dev_ip "")
      then "http://" ++ dev_ip ++ ":" ++ default "8000" (DEV_SERVER_PORT cfg)
           ++ "/magic/upload/" ++ file_name
      else "https://raw.githubusercontent.com/" ++ REPO_OWNER cfg ++ "/" ++ REPO_NAME cfg
           ++ "/" ++ DEFAULT_BRANCH cfg ++ "/magic/upload/" ++ file_name
  | None =>
      "https://raw.githubusercontent.com/" ++ REPO_OWNER cfg ++ "/" ++ REPO_NAME cfg
      ++ "/" ++ DEFAULT_BRANCH cfg ++ "/magic/upload/" ++ file_name
  end.

(** [a or b] on Python objects. *)
Definition py_or (a b : json) : json := if truthy a then a else b.

(** [if isinstance(compat, str): compat = [compat]] *)
Definition wrap_str (compat : json) : json :=
  match compat with
  | JStr _ => JArr [compat]
  | _ => compat
  end.

(** Lines 126 to 128 of the script:
    [compat = infos.get("compatible_versions") or infos.get("compat") or []]
    and the wrapping of a str. *)
Definition compatible_versions (infos : json) : result json :=
  a ← method_get infos "compatible_versions" JNull;
  b ← method_get infos "compat" JNull;
  let compat := py_or (py_or a b) (JArr []) in
  mret (wrap_str compat).

(** The version-mismatch check of lines 112 and 113. *)
Definition check_version (infos version : json) : prog unit :=
  v ← lift (method_get infos "version" JNull);
  if truthy v
  then iv ← lift (getitem infos "version");
       if negb (py_eq iv version)
       then print (MsgVersionMismatch version iv)
       else mret tt
  else mret tt.

(** The body of the loop of [main] for one file of the glob. *)
Definition process_file `{PyLib} (cfg : config) (registry : json) (magic_path : dir_entry)
  : prog json :=
  match FILENAME_RE_match (entry_name magic_path) with
  | None => print (MsgIgnore (entry_name magic_path));; mret registry
  | Some (name, build_id) =>
      match read_model_infos_from_magic (entry_bytes magic_path) with
      | Raise e => print (MsgError (entry_name magic_path) e);; mret registry
      | Ok infos =>
          version ← lift (method_get infos "version" (JStr "unknown"));
          let build_type := parse_build_type build_id in
          check_version infos version;;
          let size_bytes := Z.of_nat (length (entry_bytes magic_path)) in
          let sha := sha256_file (entry_bytes magic_path) in
          let url := download_url cfg (entry_name magic_path) in
          compat ← lift (compatible_versions infos);
          e_name ← lift (method_get infos "name" (JStr name));
          e_author ← lift (method_get infos "author" (JStr "unknown"));
          e_date ← lift (method_get infos "date_created" JNull);
          e_parameters ← lift (method_get infos "parameters" (JObj []));
          let entry := JObj [
            ("name", e_name);
            ("version", version);
            ("author", e_author);
            ("date_created", py_or e_date (JStr (utc_today cfg)));
            ("parameters", e_parameters);
            ("compatible_versions", compat);
            ("size_bytes", JInt size_bytes);
            ("sha256", JStr sha);
            ("download_url", JStr url);
            ("build_id", JStr build_id);
            ("build_type", JStr build_type)
          ] in
          registry' ← lift (upsert_model registry entry);
          print (MsgUpsert e_name version build_type);;
          mret registry'
      end
  end.

(** [for magic_path in magic_files: ...] *)
Fixpoint process_files `{PyLib} (cfg : config) (registry : json) (magic_files : list dir_entry)
  : prog json :=
  match magic_files with
  | [] => mret registry
  | magic_path :: rest =>
      registry' ← process_file cfg registry magic_path;
      process_files cfg registry' rest
  end.

(** [DIST_DIR.glob("*.magic")] filtered by [p.is_file()]. *)
Definition glob_magic (entries : list dir_entry) : list dir_entry :=
  List.filter (fun p => str_endswith (entry_name p) ".magic" && entry_is_file p) entries.

(** [main()]: [dist_dir] is the listing of [magic/upload/], or [None]
    when it does not exist; [fs] is the registry file before the run.
    The two paths are taken to be examinable: a run in which
    [DIST_DIR.exists()] or [REGISTRY_PATH.exists()] raises ends with
    that exception before anything else happens.  The result is the
    exit code. *)
Definition main `{PyLib} (cfg : config) (dist_dir : option (list dir_entry)) (fs : file_state)
  : prog Z :=
  match dist_dir with
  | None => print MsgNoDir;; mret 0
  | Some entries =>
      registry ← load_registry fs;
      match glob_magic entries with
      | [] => print MsgNoMagic;; mret 0
      | magic_files =>
          registry' ← process_files cfg registry magic_files;
          save_registry registry';;
          print MsgSaved;;
          mret 0
      end
  end.

(** ** The module body and the entry point *)

(** [os.environ]: the variables that are set, each with its value. *)
Definition environ : Type := list (string * string).

(** [os.environ.get(k, d)] *)
Definition environ_get (env : environ) (k d : string) : string :=
  default d (dict_get k env).

(** [s.split(sep)] for a separator of one character: the parts between
    the occurrences of [sep].  There is always at least one part. *)
Fixpoint str_split (sep : ascii) (s : string) : list string :=
  match s with
  | EmptyString => [EmptyString]
  | String c s' =>
      if Ascii.eqb c sep then EmptyString :: str_split sep s'
      else match str_split sep s' with
           | part :: parts => String c part :: parts
           | [] => [String c EmptyString]
           end
  end.

(** [l[i]] for an index that is not negative: out of range, it raises
    [IndexError]. *)
Definition list_index {A} (l : list A) (i : nat) : result A :=
  match l !! i with
  | Some x => Ok x
  | None => Raise (OtherError "IndexError")
  end.

(** Lines 5 to 7 of the script, run when the module is loaded:
    [REPO_OWNER] and [REPO_NAME] are the parts 0 and 1 of
    [GITHUB_REPOSITORY] split at [/], [DEFAULT_BRANCH] is read with its
    default.  The two variables of the development server are read
    later, in the loop, from the same environment. *)
Definition module_constants (env : environ) (today : string) : result config :=
  owner ← list_index (str_split "/" (environ_get env "GITHUB_REPOSITORY" "owner/repo")) 0;
  name ← list_index (str_split "/" (environ_get env "GITHUB_REPOSITORY" "owner/repo")) 1;
  mret (Config owner name (environ_get env "DEFAULT_BRANCH" "main")
               (dict_get "DEV_SERVER_IP" env) (dict_get "DEV_SERVER_PORT" env) today).

(** The script run as a program: the module body, then
    [sys.exit(main())].  The result is the exit code that [main]
    returned; an exception that nothing catches ends the run. *)
Definition script `{PyLib} (env : environ) (today : string)
    (dist_dir : option (list dir_entry)) (fs : file_state) : prog Z :=
  cfg ← lift (module_constants env today);
  main cfg dist_dir fs.

(** ** Notions used to state the properties *)

Definition is_dict (v : json) : Prop :=
  match v with
  | JObj _ => True
  | _ => False
  end.

(** [m.get(k)] on a dict. *)
Definition field (m : json) (k : string) : json :=
  match m with
  | JObj kvs => default JNull (dict_get k kvs)
  | _ => JNull
  end.

(** Two entries have the same identity key [(name, version)], as
    [upsert_model] compares them. *)
Definition key_eq (m e : json) : bool :=
  py_eq (field m "name") (field e "name") && py_eq (field m "version") (field e "version").

(** At most one entry per identity key. *)
Definition unique_keys (ms : list json) : Prop :=
  forall i j m m', ms !! i = Some m -> ms !! j = Some m' -> key_eq m m' = true -> i = j.

(** The value is a dict whose ["models"] is a list. *)
Definition has_models_list (v : json) : bool :=
  match v with
  | JObj kvs =>
      match dict_get "models" kvs with
      | Some (JArr _) => true
      | _ => false
      end
  | _ => false
  end.

(** A trace that prints at least one line and writes nothing. *)
Definition warns_only (t : list event) : Prop :=
  prints t <> [] /\ writes t = [].

(** [compatible_versions] as the specification words it: the value of
    ["compatible_versions"], or of ["compat"] when that key is absent;
    a string is wrapped, a sequence is kept, anything else gives the
    empty sequence. *)
Definition compatible_versions_spec (infos : json) : json :=
  match infos with
  | JObj kvs =>
      let provided :=
        match dict_get "compatible_versions" kvs with
        | Some v => Some v
        | None => dict_get "compat" kvs
        end in
      match provided with
      | Some (JStr s) => JArr [JStr s]
      | Some (JArr xs) => JArr xs
      | _ => JArr []
      end
  | _ => JArr []
  end.

(** The registry entry that the loop of [main] assembles for a file
    whose name matched and whose metadata is the dict [kvs]. *)
Definition entry_of (cfg : config) (magic_path : dir_entry) (name build_id : string)
    (kvs : list (string * json)) : json :=
  let infos := JObj kvs in
  JObj [
    ("name", default (JStr name) (dict_get "name" kvs));
    ("version", default (JStr "unknown") (dict_get "version" kvs));
    ("author", default (JStr "unknown") (dict_get "author" kvs));
    ("date_created", py_or (field infos "date_created") (JStr (utc_today cfg)));
    ("parameters", default (JObj []) (dict_get "parameters" kvs));
    ("compatible_versions",
       wrap_str (py_or (py_or (field infos "compatible_versions") (field infos "compat"))
                       (JArr [])));
    ("size_bytes", JInt (Z.of_nat (length (entry_bytes magic_path))));
    ("sha256", JStr (sha256_file (entry_bytes magic_path)));
    ("download_url", JStr (download_url cfg (entry_name magic_path)));
    ("build_id", JStr build_id);
    ("build_type", JStr (parse_build_type build_id))
  ].

(** What the loop of [main] does with a file, apart from the registry:
    it skips the file with a line, fails, or has an entry to upsert. *)
Inductive plan : Type :=
  | Skip (line : message)
  | Fails (e : exn)
  | Upsert (entry : json) (line : message).

Definition file_plan `{PyLib} (cfg : config) (magic_path : dir_entry) : plan :=
  match FILENAME_RE_match (entry_name magic_path) with
  | None => Skip (MsgIgnore (entry_name magic_path))
  | Some (name, build_id) =>
      match read_model_infos_from_magic (entry_bytes magic_path) with
      | Raise e => Skip (MsgError (entry_name magic_path) e)
      | Ok (JObj kvs) =>
          Upsert (entry_of cfg magic_path name build_id kvs)
                 (MsgUpsert (default (JStr name) (dict_get "name" kvs))
                            (default (JStr "unknown") (dict_get "version" kvs))
                            (parse_build_type build_id))
      | Ok _ => Fails AttributeError
      end
  end.

(** [magic/upload/] exists and holds a regular file whose name ends with
    [.magic]. *)
Definition has_candidate (dist_dir : option (list dir_entry)) : Prop :=
  exists entries p,
    dist_dir = Some entries /\ p ∈ entries /\
    str_endswith (entry_name p) ".magic" = true /\ entry_is_file p = true.

(** A lowercase hexadecimal digit. *)
Definition is_lower_hex (c : ascii) : Prop :=
  In c (list_ascii_of_string "0123456789abcdef").

(** [upsert_model] on the list of entries: the first entry with the key
    of [e] is replaced by [e]; without one, [e] goes last. *)
Fixpoint upsert_list (ms : list json) (e : json) : list json :=
  match ms with
  | [] => [e]
  | m :: ms' => if key_eq m e then e :: ms' else m :: upsert_list ms' e
  end.

(** The first entry of [ms] with the identity key of [k]. *)
Definition first_with_key (k : json) (ms : list json) : option json :=
  List.find (fun m => key_eq m k) ms.

(** The last entry of [es] with the identity key of [k]. *)
Definition latest (es : list json) (k : json) : option json :=
  list.last (List.filter (fun x => key_eq x k) es).

(** The sort key of a dict, [(m.get("name", ""), m.get("version", ""))]. *)
Definition sort_key_of (m : json) : json * json :=
  match m with
  | JObj kvs => (default (JStr "") (dict_get "name" kvs),
                 default (JStr "") (dict_get "version" kvs))
  | _ => (JStr "", JStr "")
  end.

(** The entries that a run upserts, in the order of the files. *)
Definition entries_of `{PyLib} (cfg : config) (magic_files : list dir_entry) : list json :=
  omap (fun p => match file_plan cfg p with
                 | Upsert entry _ => Some entry
                 | _ => None
                 end) magic_files.

(** What the theorems on two runs assume of the JSON library: a document
    written by [json.dump] is not blank, and [json.loads] reads it back
    as the value that was written. *)
Class JsonRoundTrip (L : PyLib) : Prop := {
  dumps_not_blank : forall v, String.eqb (str_strip (json_dumps v)) "" = false;
  loads_dumps : forall v, json_loads (str_strip (json_dumps v)) = Ok v;
}.

(** The list that [method_sort] returns for a list of dicts whose keys
    are comparable. *)
Definition sorted_models (ms : list json) : list json :=
  map snd (stable_sort lt_total (map (fun m => (sort_key_of m, m)) ms)).

(** Every character of [s] satisfies [p]. *)
Definition str_forall (p : ascii -> bool) (s : string) : bool :=
  forallb p (list_ascii_of_string s).

(** The number of occurrences of [c] in [s]. *)
Definition str_count (c : ascii) (s : string) : nat :=
  length (List.filter (Ascii.eqb c) (list_ascii_of_string s)).

(** [file_name] is [name], an underscore, [buildid] and [.magic],
    possibly followed by one newline; [name] is not empty and has no
    underscore, [buildid] is not empty and made of ASCII letters and
    digits. *)
Definition name_shape (file_name name buildid : string) : Prop :=
  (file_name = name ++ "_" ++ buildid ++ ".magic" \/
   file_name = name ++ "_" ++ buildid ++ ".magic" ++ newline) /\
  name <> "" /\ str_forall (fun c => negb (Ascii.eqb c "_")) name = true /\
  buildid <> "" /\ str_forall is_alnum buildid = true.

(** Two catalogs with the same top-level keys, in the same order, and
    the same value under every key but ["models"]. *)
Definition same_but_models (r r' : json) : Prop :=
  match r, r' with
  | JObj kvs, JObj kvs' =>
      map fst kvs' = map fst kvs /\
      forall k, k <> "models" -> dict_get k kvs' = dict_get k kvs
  | _, _ => False
  end.

(** No entry has the identity key of an entry after it: [unique_keys],
    by recursion on the list. *)
Fixpoint distinct_keys (ms : list json) : Prop :=
  match ms with
  | [] => True
  | m :: ms' => Forall (fun x => key_eq m x = false) ms' /\ distinct_keys ms'
  end.

(** The loop of [main] skips the file: its name does not match, or its
    metadata cannot be read. *)
Definition is_skipped `{PyLib} (cfg : config) (p : dir_entry) : bool :=
  match file_plan cfg p with
  | Skip _ => true
  | _ => false
  end.

(** What lines 112 and 113 print for metadata that is the dict [kvs]:
    the version of the metadata, when it is truthy, is held against
    [version], the value that line 109 read from the same metadata. *)
Definition version_warning (kvs : list (string * json)) : list event :=
  let version := default (JStr "unknown") (dict_get "version" kvs) in
  if truthy (field (JObj kvs) "version") && negb (py_eq (field (JObj kvs) "version") version)
  then [Print (MsgVersionMismatch version (field (JObj kvs) "version"))]
  else [].

(** The version warning of a file, when the loop gets as far as the
    check. *)
Definition file_warning `{PyLib} (cfg : config) (magic_path : dir_entry) : list event :=
  match FILENAME_RE_match (entry_name magic_path) with
  | None => []
  | Some _ =>
      match read_model_infos_from_magic (entry_bytes magic_path) with
      | Ok (JObj kvs) => version_warning kvs
      | _ => []
      end
  end.

(** [evs] are the lines that the loop of [main] prints for the file [p]:
    the line of a file that is skipped, or the version warning, if any,
    and the line of the upsert. *)
Definition lines_of_file `{PyLib} (cfg : config) (p : dir_entry) (evs : list event) : Prop :=
  (exists line, file_plan cfg p = Skip line /\ evs = [Print line]) \/
  (exists entry line, file_plan cfg p = Upsert entry line /\
                      evs = (file_warning cfg p ++ [Print line])%list).

(** No NaN in the value, at any depth. *)
Fixpoint nan_free (v : json) : bool :=
  match v with
  | JFloat FNan => false
  | JArr xs => forallb nan_free xs
  | JObj kvs => forallb (fun kv => nan_free kv.2) kvs
  | _ => true
  end.

(** Neither the name nor the version of the entry is a NaN or holds
    one. *)
Definition key_nan_free (m : json) : bool :=
  nan_free (field m "name") && nan_free (field m "version").

(** Two entries tie in the sort of [save_registry]: their sort keys are
    equal. *)
Definition same_sort_key (a b : json) : bool :=
  py_same (sort_key_of a).1 (sort_key_of b).1 && py_same (sort_key_of a).2 (sort_key_of b).2.

(** The entries of the catalog that a run loads, when it is a dict with
    a list under ["models"], and the entries that the run upserts. *)
Definition loaded_models `{PyLib} (fs : file_state) : list json :=
  match outcome (load_registry fs) with
  | Ok registry =>
      match getitem registry "models" with
      | Ok (JArr ms) => ms
      | _ => []
      end
  | Raise _ => []
  end.

Definition run_entries `{PyLib} (cfg : config) (dist_dir : option (list dir_entry)) : list json :=
  match dist_dir with
  | Some entries => entries_of cfg (glob_magic entries)
  | None => []
  end.

(** The entry has a name and a version, as every entry that [main]
    assembles has. *)
Definition has_key_fields (e : json) : Prop :=
  match e with
  | JObj kvs => is_Some (dict_get "name" kvs) /\ is_Some (dict_get "version" kvs)
  | _ => False
  end.

(** The upserts of entries [es] with distinct keys, on a list [ms] with
    distinct keys: the entries of [ms] with their replacements, and the
    entries of [es] that are appended. *)
Definition updated (ms es : list json) : list json :=
  map (fun m => default m (List.find (fun e => key_eq m e) es)) ms.

Definition appended (ms es : list json) : list json :=
  List.filter (fun e => negb (existsb (fun m => key_eq m e) ms)) es.

Section strict_order.
Context {K V : Type} (lt : K -> K -> bool).

(** Every element is below the elements after it. *)
Fixpoint increasing (l : list (K * V)) : Prop :=
  match l with
  | [] => True
  | x :: l' => Forall (fun y => lt x.1 y.1 = true) l' /\ increasing l'
  end.

(** Of every two elements, one is below the other: no two keys tie. *)
Fixpoint strictly_ordered (l : list (K * V)) : Prop :=
  match l with
  | [] => True
  | x :: l' =>
      Forall (fun y => lt x.1 y.1 = true \/ lt y.1 x.1 = true) l' /\ strictly_ordered l'
  end.
End strict_order.

(** Three facts on a value [a] and the order, proved by induction on
    [a]: the equality of items is a congruence for [<], [<] is
    transitive, and of two values without NaN that compare and are not
    equal one is below the other. *)
Definition lt_congr (a : json) : Prop :=
  forall b, py_same a b = true ->
  forall c, py_lt a c = py_lt b c /\ py_lt c a = py_lt c b.

Definition lt_trans_at (a : json) : Prop :=
  forall b c, py_lt a b = Ok true -> py_lt b c = Ok true -> py_lt a c = Ok true.

Definition lt_total_at (a : json) : Prop :=
  nan_free a = true ->
  forall b, nan_free b = true ->
    py_same a b = false -> py_lt a b = Ok false -> py_lt b a = Ok true.

(** ** A reference library

    An instance of [PyLib] on which the script can be run: it shows that
    what the theorems assume of the library can be met, and it is what
    the examples are evaluated with.  Documents are written in a binary
    notation of their own rather than in JSON syntax. *)

Definition json_to_tree : json -> gen_tree (bool + Z + string) :=
  fix go v :=
    match v with
    | JNull => GenNode 0 []
    | JBool b => GenLeaf (inl (inl b))
    | JInt n => GenLeaf (inl (inr n))
    | JFloat FNan => GenNode 4 []
    | JFloat (FInf negative) => GenNode 5 [GenLeaf (inl (inl negative))]
    | JFloat (FFin negative m e) =>
        GenNode 6 [GenLeaf (inl (inl negative)); GenLeaf (inl (inr (Z.of_N m)));
                   GenLeaf (inl (inr e))]
    | JStr s => GenLeaf (inr s)
    | JArr xs => GenNode 1 (map go xs)
    | JObj kvs => GenNode 2 (map (fun kv => GenNode 3 [GenLeaf (inr kv.1); go kv.2]) kvs)
    end.

Definition tree_to_json : gen_tree (bool + Z + string) -> option json :=
  fix go t :=
    match t with
    | GenNode 0 [] => Some JNull
    | GenLeaf (inl (inl b)) => Some (JBool b)
    | GenLeaf (inl (inr n)) => Some (JInt n)
    | GenNode 4 [] => Some (JFloat FNan)
    | GenNode 5 [GenLeaf (inl (inl negative))] => Some (JFloat (FInf negative))
    | GenNode 6 [GenLeaf (inl (inl negative)); GenLeaf (inl (inr m)); GenLeaf (inl (inr e))] =>
        Some (JFloat (FFin negative (Z.to_N m) e))
    | GenLeaf (inr s) => Some (JStr s)
    | GenNode 1 ts => JArr <$> mapM go ts
    | GenNode 2 ts =>
        JObj <$> mapM (fun t' =>
                         match t' with
                         | GenNode 3 [GenLeaf (inr k); tv] => pair k <$> go tv
                         | _ => None
                         end) ts
    | _ => None
    end.

Lemma tree_to_json_to_tree v : tree_to_json (json_to_tree v) = Some v.
Proof.
  induction v as [| b | n | x | s | xs IH | kvs IH] using json_ind; try done.
  - destruct x as [| negative | negative m e]; try done. simpl. by rewrite N2Z.id.
  - simpl. change (JArr <$> mapM tree_to_json (map json_to_tree xs) = Some (JArr xs)).
    assert (H : mapM tree_to_json (map json_to_tree xs) = Some xs).
    { induction IH as [|x xs Hx _ IHxs]; [done|].
      simpl. rewrite Hx. simpl. by rewrite IHxs. }
    by rewrite H.
  - simpl.
    match goal with |- JObj <$> ?m = _ => assert (H : m = Some kvs) end.
    { induction IH as [|[k v] kvs Hx _ IHkvs]; [done|].
      simpl in *. rewrite Hx. simpl. by rewrite IHkvs. }
    by rewrite H.
Qed.

#[global] Instance json_eq_dec : EqDecision json.
Proof.
  intros a b. destruct (decide (json_to_tree a = json_to_tree b)) as [H|H].
  - left. apply (f_equal tree_to_json) in H.
    rewrite !tree_to_json_to_tree in H. congruence.
  - right. congruence.
Defined.

#[global] Instance json_countable : Countable json :=
  inj_countable json_to_tree tree_to_json tree_to_json_to_tree.

(** A positive number as its binary digits, lowest first. *)
Fixpoint pos_digits (p : positive) : string :=
  match p with
  | xH => EmptyString
  | xO p' => String "0" (pos_digits p')
  | xI p' => String "1" (pos_digits p')
  end.

Fixpoint digits_pos (s : string) : option positive :=
  match s with
  | EmptyString => Some xH
  | String c s' =>
      p ← digits_pos s';
      if Ascii.eqb c "0" then Some (xO p)
      else if Ascii.eqb c "1" then Some (xI p)
      else None
  end.

Definition ref_dumps (v : json) : string := String "J" (pos_digits (encode v)).

Definition ref_loads (text : string) : result json :=
  match text with
  | String "J" digits =>
      match digits_pos digits ≫= decode with
      | Some v => Ok v
      | None => Raise JSONDecodeError
      end
  | _ => Raise JSONDecodeError
  end.

(** White space, as [str.strip] sees it among the ASCII characters. *)
Definition is_space (c : ascii) : bool :=
  let n := nat_of_ascii c in
  (((9 <=? n) && (n <=? 13)) || ((28 <=? n) && (n <=? 32)))%nat.

Fixpoint drop_spaces (s : string) : string :=
  match s with
  | String c s' => if is_space c then drop_spaces s' else s
  | EmptyString => EmptyString
  end.

Fixpoint drop_trailing_spaces (s : string) : string :=
  match s with
  | EmptyString => EmptyString
  | String c s' =>
      match drop_trailing_spaces s' with
      | EmptyString => if is_space c then EmptyString else String c EmptyString
      | rest => String c rest
      end
  end.

Definition ref_strip (s : string) : string := drop_trailing_spaces (drop_spaces s).

(** ASCII text decodes to itself; other bytes are refused. *)
Definition ref_decode (data : list byte) : result string :=
  if forallb (fun b => (Byte.to_N b <? 128)%N) data
  then Ok (string_of_list_byte data)
  else Raise UnicodeDecodeError.

(** The library, over a reading of archives. *)
Definition ref_lib (archive : list byte -> result (list (string * result (list byte))))
  : PyLib :=
  {| json_loads := ref_loads;
     json_dumps := ref_dumps;
     str_strip := ref_strip;
     bytes_decode := ref_decode;
     zip_open := archive |}.

(** An archive read as one member, [metadata.json], holding the bytes of
    the file. *)
Definition bare_archive (content : list byte) : result (list (string * result (list byte))) :=
  Ok [("metadata.json", Ok content)].

(** ** Example data

    A small catalog, a directory and archives on which the script is run
    with the reference library. *)

Definition demo_old_entry : json :=
  JObj [("name", JStr "mymodel"); ("version", JStr "2.1"); ("author", JStr "ana")].
Definition demo_other_entry : json :=
  JObj [("name", JStr "mymodel"); ("version", JStr "2.2")].
Definition demo_new_entry : json :=
  JObj [("name", JStr "mymodel"); ("version", JStr "2.1"); ("build_id", JStr "X7B")].
Definition demo_catalog : json :=
  JObj [("models", JArr [demo_other_entry; demo_old_entry])].

(** A document that parses and is not a catalog. *)
Definition demo_bad_catalog : json := JObj [("models", JObj [])].

(** A directory with one archive, [mymodel_X7B.magic], whose metadata
    is [{"version": "2.1"}], for the reference library. *)
Definition demo_infos : json := JObj [("version", JStr "2.1")].
Definition demo_file : dir_entry :=
  DirEntry "mymodel_X7B.magic" true (list_byte_of_string (ref_dumps demo_infos)).
Definition demo_cfg : config := Config "owner" "repo" "main" None None "2024-05-01".
Definition demo_lib : PyLib := ref_lib bare_archive.

(** An archive with two members of the same name, as appending a new
    [metadata.json] to an archive leaves it. *)
Definition demo_first_infos : json := JObj [("version", JStr "1")].
Definition demo_second_infos : json := JObj [("version", JStr "2")].
Definition demo_duplicates : list (string * result (list byte)) :=
  [("metadata.json", Ok (list_byte_of_string (ref_dumps demo_first_infos)));
   ("metadata.json", Ok (list_byte_of_string (ref_dumps demo_second_infos)))].

(** A directory with two archives of the same name and version and a
    file whose name does not match. *)
Definition demo_dir : list dir_entry :=
  [demo_file;
   DirEntry "weird.name.magic" true [];
   DirEntry "mymodel_Y1A.magic" true (list_byte_of_string (ref_dumps demo_infos))].

(** An archive whose metadata is a JSON list, a catalog with an entry
    that is not an object, a catalog with a key besides ["models"], and
    an environment as a workflow of the repository sets it. *)
Definition demo_list_file : dir_entry :=
  DirEntry "listed_1A.magic" true (list_byte_of_string (ref_dumps (JArr [JStr "2.1"]))).
Definition demo_corrupt_catalog : json := JObj [("models", JArr [JStr "mymodel"])].
Definition demo_tagged_catalog : json :=
  JObj [("schema", JInt 1); ("models", JArr [demo_other_entry; demo_old_entry])].
Definition demo_env : environ := [("GITHUB_REPOSITORY", "game2822/PapiAPI")].

(** An archive whose metadata gives NaN for the version, as
    [json.loads] reads the document [{"version": NaN}], and a catalog
    with an entry of that version. *)
Definition demo_nan_infos : json := JObj [("version", JFloat FNan)].
Definition demo_nan_file : dir_entry :=
  DirEntry "drift_3C.magic" true (list_byte_of_string (ref_dumps demo_nan_infos)).
Definition demo_nan_entry : json :=
  JObj [("name", JStr "drift"); ("version", JFloat FNan)].

(** A file named with a build identifier in lower case. *)
Definition demo_lower_file : dir_entry :=
  DirEntry "mymodel_x7b.magic" true (list_byte_of_string (ref_dumps demo_infos)).

(** Two archives with empty metadata, whose entries take their names
    from the file names. *)
Definition demo_alpha : dir_entry :=
  DirEntry "alpha_1A.magic" true (list_byte_of_string (ref_dumps (JObj []))).
Definition demo_beta : dir_entry :=
  DirEntry "beta_2B.magic" true (list_byte_of_string (ref_dumps (JObj []))).
(** * Properties *)

Local Open Scope list_scope.

(** Runs the binds of [result] and [prog] on the outcomes that are known. *)
Ltac prog_simpl :=
  cbv [mbind mret prog_bind prog_ret result_bind result_ret lift print
       write_registry try_except trace outcome];
  cbn [app].
Tactic Notation "prog_simpl" "in" hyp(H) :=
  cbv [mbind mret prog_bind prog_ret result_bind result_ret lift print
       write_registry try_except trace outcome] in H;
  cbn [app] in H.

(** The same, leaving the binds whose first outcome is not known. *)
Ltac prog_cbn :=
  repeat (progress (cbn [mbind mret prog_bind prog_ret result_bind result_ret lift print
                         write_registry try_except trace outcome app])).

(** *** Numbers *)

(** Turns the boolean comparisons of rationals into propositions and
    closes the goal by linear arithmetic when it can. *)
Ltac q_reflect :=
  repeat match goal with
  | H : Qeq_bool _ _ = true |- _ => apply Qeq_bool_iff in H
  | H : Qeq_bool _ _ = false |- _ => apply Qeq_bool_neq in H
  | H : Qle_bool _ _ = true |- _ => apply Qle_bool_iff in H
  | H : Qle_bool ?a ?b = false |- _ =>
      assert (~ (a <= b)%Q) by (rewrite <- Qle_bool_iff; congruence); clear H
  | |- context [Qeq_bool ?a ?b] => destruct (Qeq_bool a b) eqn:?
  | |- context [Qle_bool ?a ?b] => destruct (Qle_bool a b) eqn:?
  end;
  simpl in *; try done; try (exfalso; lra).

Ltac destruct_floats :=
  repeat match goal with x : pyfloat |- _ => destruct x end.

Lemma num_eqb_refl x : x <> Nan -> num_eqb x x = true.
Proof.
  destruct x as [|s|q]; simpl; [done | by destruct s | intros _; apply Qeq_bool_refl].
Qed.

Lemma num_eqb_sym x y : num_eqb x y = num_eqb y x.
Proof.
  destruct x as [|s|p], y as [|t|q]; simpl; try done;
    [by destruct s, t | apply Qeq_bool_comm].
Qed.

Lemma num_eqb_trans x y z :
  num_eqb x y = true -> num_eqb y z = true -> num_eqb x z = true.
Proof.
  destruct x as [|s|p], y as [|t|q], z as [|u|r]; simpl; try done.
  - by destruct s, t, u.
  - apply Qeq_bool_trans.
Qed.

Lemma num_ltb_asym x y : num_ltb x y = true -> num_ltb y x = false.
Proof.
  destruct x as [|[]|p], y as [|[]|q]; simpl; try done.
  intros H. apply negb_true_iff in H. q_reflect.
Qed.

Lemma num_ltb_trans x y z :
  num_ltb x y = true -> num_ltb y z = true -> num_ltb x z = true.
Proof.
  destruct x as [|[]|p], y as [|[]|q], z as [|[]|r]; simpl; try done.
  intros H1 H2. apply negb_true_iff in H1, H2. q_reflect.
Qed.

(** Equal numbers compare alike with every number. *)
Lemma num_ltb_congr x y z :
  num_eqb x y = true -> num_ltb x z = num_ltb y z /\ num_ltb z x = num_ltb z y.
Proof.
  destruct x as [|[]|p], y as [|[]|q], z as [|[]|r]; simpl; try done.
  intros H. split; q_reflect.
Qed.

Lemma num_ltb_total x y :
  x <> Nan -> y <> Nan ->
  num_eqb x y = false -> num_ltb x y = false -> num_ltb y x = true.
Proof.
  destruct x as [|[]|p], y as [|[]|q]; simpl; try done.
  intros _ _ H1 H2. apply negb_false_iff in H2. q_reflect.
Qed.

Lemma num_eqb_not_ltb x y : num_eqb x y = true -> num_ltb x y = false.
Proof.
  destruct x as [|[]|p], y as [|[]|q]; simpl; try done. intros H. q_reflect.
Qed.

(** *** [==] on the embedded values

    [==] is symmetric and transitive; it is reflexive on every value
    but NaN.  The equality of items, which also takes two NaN as equal,
    is an equivalence. *)

Lemma lookup_rel_spec {A B} (f : A -> B -> bool) k w xs :
  lookup_rel f k w xs = opt_rel f (dict_get k xs) w.
Proof.
  induction xs as [|[k' v] xs IH]; simpl.
  - by destruct w.
  - destruct (String.eqb k k'); [by destruct w | exact IH].
Qed.

Lemma dict_get_in {A} k (kvs : list (string * A)) v :
  dict_get k kvs = Some v -> In (k, v) kvs.
Proof.
  induction kvs as [|[k' v'] kvs IH]; simpl; [done|].
  destruct (String.eqb_spec k k') as [->|Hne].
  - intros [= ->]. by left.
  - intros H. right. auto.
Qed.

Lemma dict_get_none {A} k (kvs : list (string * A)) :
  dict_get k kvs = None <-> ~ In k (map fst kvs).
Proof.
  induction kvs as [|[k' v'] kvs IH]; simpl; [tauto|].
  destruct (String.eqb_spec k k') as [->|Hne]; [split; [done | tauto] |].
  rewrite IH. split; [intros H [?|?]; congruence | tauto].
Qed.

Lemma py_eq_arr xs ys : py_eq (JArr xs) (JArr ys) = list_eqb py_same xs ys.
Proof. reflexivity. Qed.

(** The dict case of [py_eq], as a statement about every key. *)
Lemma py_eq_obj xs ys :
  py_eq (JObj xs) (JObj ys) = true <->
  forall k, opt_rel py_same (dict_get k xs) (dict_get k ys) = true.
Proof.
  change (py_eq (JObj xs) (JObj ys))
    with (forallb (fun k => lookup_rel py_same k (dict_get k ys) xs)
                  (map fst xs ++ map fst ys)).
  rewrite forallb_forall. split.
  - intros H k.
    destruct (dict_get k xs) as [v|] eqn:Hx.
    + specialize (H k). rewrite lookup_rel_spec, Hx in H. apply H.
      apply in_or_app. left. apply dict_get_in in Hx.
      change k with (fst (k, v)). by apply in_map.
    + destruct (dict_get k ys) as [w|] eqn:Hy; [|done].
      specialize (H k). rewrite lookup_rel_spec, Hx, Hy in H. apply H.
      apply in_or_app. right. apply dict_get_in in Hy.
      change k with (fst (k, w)). by apply in_map.
  - intros H k _. rewrite lookup_rel_spec. apply H.
Qed.

Lemma is_nan_spec v : is_nan v = true <-> v = JFloat FNan.
Proof. destruct v as [| | | [] | | |]; simpl; split; try done. Qed.

Lemma py_eq_nan_l v : py_eq (JFloat FNan) v = false.
Proof. by destruct v as [| | | [] | | |]. Qed.

Lemma py_eq_nan_r v : py_eq v (JFloat FNan) = false.
Proof. by destruct v as [| [] | | [] | | |]. Qed.

(** The equality of items is [==], but for two NaN. *)
Lemma py_same_spec a b :
  py_same a b = true <-> (a = JFloat FNan /\ b = JFloat FNan) \/ py_eq a b = true.
Proof.
  unfold py_same. rewrite orb_true_iff, andb_true_iff, !is_nan_spec. done.
Qed.

Lemma py_eq_same a b : py_eq a b = true -> py_same a b = true.
Proof. intros H. apply py_same_spec. by right. Qed.

Lemma list_eqb_refl {A} (f : A -> A -> bool) xs :
  Forall (fun x => f x x = true) xs -> list_eqb f xs xs = true.
Proof. induction 1 as [|x xs Hx _ IH]; simpl; [done | by rewrite Hx]. Qed.

Lemma py_same_refl v : py_same v v = true.
Proof.
  induction v as [| b | n | x | s | xs IH | kvs IH] using json_ind.
  - done.
  - unfold py_same. simpl. apply Qeq_bool_refl.
  - unfold py_same. simpl. apply Qeq_bool_refl.
  - destruct x as [|negative|negative m e]; unfold py_same; simpl;
      [done | by destruct negative | apply Qeq_bool_refl].
  - unfold py_same. simpl. apply String.eqb_refl.
  - apply py_eq_same. rewrite py_eq_arr. by apply list_eqb_refl.
  - apply py_eq_same. apply py_eq_obj. intros k.
    destruct (dict_get k kvs) as [v|] eqn:Hk; simpl; [|done].
    apply dict_get_in in Hk. rewrite Forall_forall in IH.
    apply (IH (k, v) Hk).
Qed.

(** A value is [==] to itself unless it is NaN. *)
Lemma py_eq_self v : py_eq v v = negb (is_nan v).
Proof.
  destruct (is_nan v) eqn:Hnan.
  - apply is_nan_spec in Hnan as ->. done.
  - pose proof (py_same_refl v) as H. unfold py_same in H. by rewrite Hnan in H.
Qed.

Lemma py_eq_refl v : is_nan v = false -> py_eq v v = true.
Proof. intros H. by rewrite py_eq_self, H. Qed.

Lemma list_eqb_sym {A} (f : A -> A -> bool) xs :
  Forall (fun x => forall y, f x y = f y x) xs ->
  forall ys, list_eqb f xs ys = list_eqb f ys xs.
Proof.
  induction 1 as [|x xs Hx _ IH]; intros [|y ys]; simpl; try done.
  by rewrite Hx, IH.
Qed.

Lemma py_same_sym_of a :
  (forall b, py_eq a b = py_eq b a) -> forall b, py_same a b = py_same b a.
Proof. intros H b. unfold py_same. by rewrite H, (andb_comm (is_nan a)). Qed.

Lemma py_eq_sym a : forall b, py_eq a b = py_eq b a.
Proof.
  induction a as [| b | n | x | s | xs IH | kvs IH] using json_ind;
    intros [| b' | n' | x' | s' | ys | kvs']; destruct_floats; simpl; try done;
    try apply Qeq_bool_comm.
  - by destruct negative, negative0.
  - apply String.eqb_sym.
  - apply list_eqb_sym. eapply Forall_impl; [|exact IH]. intros x. apply py_same_sym_of.
  - apply eq_true_iff_eq.
    change (py_eq (JObj kvs) (JObj kvs') = true <-> py_eq (JObj kvs') (JObj kvs) = true).
    rewrite !py_eq_obj. rewrite Forall_forall in IH.
    assert (Hk : forall k, opt_rel py_same (dict_get k kvs) (dict_get k kvs')
                           = opt_rel py_same (dict_get k kvs') (dict_get k kvs)).
    { intros k. destruct (dict_get k kvs) as [v|] eqn:Hv;
        destruct (dict_get k kvs') as [w|]; simpl; try done.
      apply dict_get_in in Hv. apply py_same_sym_of. apply (IH (k, v) Hv). }
    split; intros H k; [rewrite <- Hk | rewrite Hk]; apply H.
Qed.

Lemma py_same_sym a b : py_same a b = py_same b a.
Proof. apply py_same_sym_of, py_eq_sym. Qed.

Lemma list_eqb_trans {A} (f : A -> A -> bool) xs :
  Forall (fun x => forall y z, f x y = true -> f y z = true -> f x z = true) xs ->
  forall ys zs, list_eqb f xs ys = true -> list_eqb f ys zs = true ->
                list_eqb f xs zs = true.
Proof.
  induction 1 as [|x xs Hx _ IH]; intros [|y ys] [|z zs]; simpl; try done.
  rewrite !andb_true_iff. intros [? ?] [? ?]. split; eauto.
Qed.

Lemma py_same_trans_of a :
  (forall b c, py_eq a b = true -> py_eq b c = true -> py_eq a c = true) ->
  forall b c, py_same a b = true -> py_same b c = true -> py_same a c = true.
Proof.
  intros H b c. rewrite !py_same_spec.
  intros [[-> ->]|Hab] [[Hb ->]|Hbc]; try (by left).
  - by rewrite py_eq_nan_l in Hbc.
  - subst b. by rewrite py_eq_nan_r in Hab.
  - right. by apply (H b c).
Qed.

Lemma py_eq_number_trans a b c x y z :
  as_number a = Some x -> as_number b = Some y -> as_number c = Some z ->
  py_eq a b = num_eqb x y /\ py_eq b c = num_eqb y z /\ py_eq a c = num_eqb x z.
Proof.
  intros Ha Hb Hc.
  destruct a as [| | | [] | | |]; try done; destruct b as [| | | [] | | |]; try done;
    destruct c as [| | | [] | | |]; try done; by simplify_eq/=.
Qed.

Lemma py_eq_trans a : forall b c,
  py_eq a b = true -> py_eq b c = true -> py_eq a c = true.
Proof.
  induction a as [| x | n | f | s | xs IH | kvs IH] using json_ind; intros b c.
  1: by destruct b, c.
  4: { destruct b as [| | | | t | |]; try done. destruct c as [| | | | u | |]; try done.
       simpl. rewrite !String.eqb_eq. congruence. }
  4: { destruct b as [| | | | | ys |]; try done. destruct c as [| | | | | zs |]; try done.
       rewrite !py_eq_arr. apply list_eqb_trans.
       eapply Forall_impl; [|exact IH]. intros x. apply py_same_trans_of. }
  4: { destruct b as [| | | | | | kvs']; try done. destruct c as [| | | | | | kvs'']; try done.
       rewrite !py_eq_obj. intros H1 H2 k. specialize (H1 k). specialize (H2 k).
       rewrite Forall_forall in IH.
       destruct (dict_get k kvs) as [v|] eqn:Hv;
         destruct (dict_get k kvs') as [w|]; destruct (dict_get k kvs'') as [u|];
         simpl in *; try done.
       apply dict_get_in in Hv. by apply (py_same_trans_of v (IH (k, v) Hv) w u). }
  all: destruct_floats.
  all: destruct (as_number b) as [y|] eqn:Hb;
    [|by destruct b as [| | | [] | | |]];
    destruct (as_number c) as [z|] eqn:Hc;
    [|destruct b as [| | | [] | | |]; try done; by destruct c as [| | | [] | | |]].
  all: match goal with
       | |- py_eq ?a _ = _ -> _ =>
           destruct (py_eq_number_trans a b c _ y z eq_refl Hb Hc) as (-> & -> & ->)
       end.
  all: apply num_eqb_trans.
Qed.

Lemma py_same_trans a b c :
  py_same a b = true -> py_same b c = true -> py_same a c = true.
Proof. apply py_same_trans_of, py_eq_trans. Qed.

(** *** Ordering *)

Lemma string_ltb_asym s t : String.ltb s t = true -> String.ltb t s = false.
Proof.
  unfold String.ltb. rewrite (String.compare_antisym t s).
  by destruct (String.compare s t).
Qed.

Lemma lex_lt_asym {A} (eq : A -> A -> bool) lt xs :
  (forall x y, eq x y = eq y x) ->
  Forall (fun x => forall y, lt x y = Ok true -> lt y x = Ok false) xs ->
  forall ys, lex_lt eq lt xs ys = Ok true -> lex_lt eq lt ys xs = Ok false.
Proof.
  intros Hsym. induction 1 as [|x xs Hx _ IH]; intros [|y ys]; simpl; try done.
  rewrite (Hsym y x). destruct (eq x y); [apply IH | apply Hx].
Qed.

Lemma py_lt_numbers a b x y :
  as_number a = Some x -> as_number b = Some y -> py_lt a b = Ok (num_ltb x y).
Proof.
  intros Ha Hb.
  destruct a as [| | | [] | | |]; try done; destruct b as [| | | [] | | |]; try done;
    by simplify_eq/=.
Qed.

Lemma py_lt_asym a : forall b, py_lt a b = Ok true -> py_lt b a = Ok false.
Proof.
  induction a as [| x | n | f | s | xs IH | kvs IH] using json_ind; intros b.
  1: by destruct b.
  4: { destruct b as [| | | | t | |]; try done. simpl.
       intros [= H]. f_equal. by apply string_ltb_asym. }
  4: { destruct b as [| | | | | ys |]; try done. simpl.
       apply lex_lt_asym; [apply py_same_sym | done]. }
  4: by destruct b.
  all: destruct_floats.
  all: destruct (as_number b) as [y|] eqn:Hb; [|by destruct b as [| | | [] | | |]].
  all: match goal with
       | |- py_lt ?a _ = _ -> _ =>
           rewrite (py_lt_numbers a b _ y eq_refl Hb), (py_lt_numbers b a y _ Hb eq_refl)
       end.
  all: intros [= H]; f_equal; by apply num_ltb_asym.
Qed.

Lemma tuple_lt_asym a b : tuple_lt a b = Ok true -> tuple_lt b a = Ok false.
Proof.
  unfold tuple_lt. rewrite (py_same_sym b.1 a.1), (py_same_sym b.2 a.2).
  destruct (py_same a.1 b.1); simpl; [|apply py_lt_asym].
  destruct (py_same a.2 b.2); simpl; [done | apply py_lt_asym].
Qed.

(** *** Stable sorting *)

Section stable_sort_facts.
Context {K V : Type} (lt : K -> K -> bool).
Implicit Types (x : K * V) (l : list (K * V)).

Hypothesis lt_asym : forall a b, lt a b = true -> lt b a = false.

Lemma insert_sorted_ordered x l :
  ordered lt l = true -> ordered lt (insert_sorted lt x l) = true.
Proof.
  induction l as [|y l IH]; [done|]. intros Hl. simpl insert_sorted.
  destruct (lt y.1 x.1) eqn:Hyx.
  - assert (Hl' : ordered lt l = true).
    { destruct l; [done|]. simpl in Hl. by apply andb_true_iff in Hl as [_ ?]. }
    specialize (IH Hl'). destruct l as [|z l]; simpl.
    + by rewrite (lt_asym _ _ Hyx).
    + simpl in IH, Hl. destruct (lt z.1 x.1) eqn:Hzx.
      * apply andb_true_iff in Hl as [-> _]. done.
      * rewrite (lt_asym _ _ Hyx). done.
  - change (negb (lt y.1 x.1) && ordered lt (y :: l) = true). by rewrite Hyx.
Qed.

Lemma stable_sort_ordered l : ordered lt (stable_sort lt l) = true.
Proof. induction l; [done|]. by apply insert_sorted_ordered. Qed.

(** Sorting a list that is in order leaves it as it is. *)
Lemma stable_sort_fixed l : ordered lt l = true -> stable_sort lt l = l.
Proof.
  induction l as [|x l IH]; [done|]. intros Hl. simpl.
  destruct l as [|y l]; [done|].
  simpl in Hl. apply andb_true_iff in Hl as [Hyx Hl].
  rewrite (IH Hl). simpl. apply negb_true_iff in Hyx. by rewrite Hyx.
Qed.

Lemma insert_sorted_perm x l : insert_sorted lt x l ≡ₚ x :: l.
Proof.
  induction l as [|y l IH]; [done|]. simpl.
  destruct (lt y.1 x.1); [|done]. rewrite IH. apply Permutation_swap.
Qed.

Lemma stable_sort_perm l : stable_sort lt l ≡ₚ l.
Proof.
  induction l as [|x l IH]; [done|]. simpl.
  by rewrite insert_sorted_perm, IH.
Qed.
End stable_sort_facts.


(** ** [upsert_model] *)

(** An entry has its own key unless its name or its version is NaN. *)
Lemma key_eq_self m :
  key_eq m m = negb (is_nan (field m "name")) && negb (is_nan (field m "version")).
Proof. unfold key_eq. by rewrite !py_eq_self. Qed.

Lemma nan_free_not_nan v : nan_free v = true -> is_nan v = false.
Proof. by destruct v as [| | | [] | | |]. Qed.

Lemma key_eq_refl m : key_nan_free m = true -> key_eq m m = true.
Proof.
  unfold key_nan_free. intros [Hn Hv]%andb_true_iff.
  by rewrite key_eq_self, !nan_free_not_nan.
Qed.

(** An entry whose name or version is NaN has the key of no entry. *)
Lemma key_eq_nan m e : key_eq e e = false -> key_eq m e = false.
Proof.
  rewrite key_eq_self. unfold key_eq.
  intros [Hn|Hv]%andb_false_iff.
  - apply negb_false_iff, is_nan_spec in Hn. by rewrite Hn, py_eq_nan_r.
  - apply negb_false_iff, is_nan_spec in Hv. by rewrite Hv, py_eq_nan_r, andb_false_r.
Qed.

Lemma key_eq_sym m e : key_eq m e = key_eq e m.
Proof. unfold key_eq. by rewrite (py_eq_sym (field m _)), (py_eq_sym (field m _)). Qed.

Lemma key_eq_trans a b c : key_eq a b = true -> key_eq b c = true -> key_eq a c = true.
Proof.
  unfold key_eq. rewrite !andb_true_iff. intros [? ?] [? ?].
  split; eapply py_eq_trans; eauto.
Qed.

(** Entries with the same key match the same entries. *)
Lemma key_eq_congr a b m : key_eq a b = true -> key_eq m a = key_eq m b.
Proof.
  intros Hab. apply eq_true_iff_eq. split; intros H.
  - eapply key_eq_trans; eauto.
  - eapply key_eq_trans; eauto. by rewrite key_eq_sym.
Qed.

Lemma dict_get_set {A} k (v : A) kvs : dict_get k (dict_set k v kvs) = Some v.
Proof.
  induction kvs as [|[k' v'] kvs IH]; simpl.
  - by rewrite String.eqb_refl.
  - destruct (String.eqb k k') eqn:Hk; simpl; by rewrite Hk.
Qed.

Lemma dict_set_set {A} k (v w : A) kvs : dict_set k w (dict_set k v kvs) = dict_set k w kvs.
Proof.
  induction kvs as [|[k' v'] kvs IH]; simpl.
  - by rewrite String.eqb_refl.
  - destruct (String.eqb k k') eqn:Hk; simpl; rewrite Hk; [done | by rewrite IH].
Qed.

Lemma dict_set_get {A} k (v : A) kvs : dict_get k kvs = Some v -> dict_set k v kvs = kvs.
Proof.
  induction kvs as [|[k' v'] kvs IH]; simpl; [done|].
  destruct (String.eqb k k'); [by intros [= ->] | intros H; by rewrite IH].
Qed.

Lemma dict_set_keys {A} k (v x : A) kvs :
  dict_get k kvs = Some x -> map fst (dict_set k v kvs) = map fst kvs.
Proof.
  induction kvs as [|[k' v'] kvs IH]; simpl; [done|].
  destruct (String.eqb k k'); simpl; [done|]. intros Hk. by rewrite IH.
Qed.

Lemma dict_get_set_ne {A} k k' (v : A) kvs :
  k' <> k -> dict_get k' (dict_set k v kvs) = dict_get k' kvs.
Proof.
  intros Hk. induction kvs as [|[k0 v0] kvs IH]; simpl.
  - by apply String.eqb_neq in Hk as ->.
  - destruct (String.eqb_spec k k0) as [->|]; simpl.
    + by apply String.eqb_neq in Hk as ->.
    + by rewrite IH.
Qed.

Lemma getitem_with_models registry models x :
  getitem registry "models" = Ok x ->
  getitem (with_models registry models) "models" = Ok models.
Proof.
  destruct registry as [| | | | | |kvs]; try done. simpl. intros _.
  by rewrite dict_get_set.
Qed.

Lemma with_models_twice registry a b :
  with_models (with_models registry a) b = with_models registry b.
Proof. destruct registry as [| | | | | |kvs]; try done. simpl. by rewrite dict_set_set. Qed.

Lemma with_models_same registry models :
  getitem registry "models" = Ok models -> with_models registry models = registry.
Proof.
  destruct registry as [| | | | | |kvs]; try done. simpl.
  destruct (dict_get "models" kvs) as [x|] eqn:Hx; [|done].
  intros [= ->]. by rewrite dict_set_get.
Qed.

(** Setting the list of models leaves the rest of the catalog alone. *)
Lemma with_models_frame r models x :
  getitem r "models" = Ok x -> same_but_models r (with_models r models).
Proof.
  destruct r as [| | | | | |kvs]; try done. simpl.
  destruct (dict_get "models" kvs) as [y|] eqn:Hget; [|done]. intros _. split.
  - by eapply dict_set_keys.
  - intros k Hk. by apply dict_get_set_ne.
Qed.

Lemma same_key_dict m e : is_dict m -> is_dict e -> same_key m e = Ok (key_eq m e).
Proof.
  destruct m; try done. destruct e; try done. intros _ _.
  unfold same_key, key_eq. simpl.
  by destruct (py_eq _ _).
Qed.

Lemma upsert_scan_dicts ms e i :
  Forall is_dict ms -> is_dict e ->
  upsert_scan ms e i =
    Ok (match list_find (fun m => key_eq m e = true) ms with
        | Some (j, _) => Some (i + j)%nat
        | None => None
        end).
Proof.
  intros Hms He. revert i. induction Hms as [|m ms Hm _ IH]; intros i; [done|].
  simpl. rewrite same_key_dict by done. simpl.
  case_decide as Hk.
  - rewrite Hk. simpl. do 2 f_equal. lia.
  - apply not_true_is_false in Hk. rewrite Hk. rewrite IH.
    destruct (list_find _ ms) as [[j x]|]; simpl; [|done].
    do 2 f_equal. lia.
Qed.

(** What [upsert_model] does to a list of entries. *)
Lemma upsert_model_dicts registry ms e :
  getitem registry "models" = Ok (JArr ms) ->
  Forall is_dict ms -> is_dict e ->
  upsert_model registry e =
    Ok (with_models registry
          (JArr (match list_find (fun m => key_eq m e = true) ms with
                 | Some (i, _) => <[i := e]> ms
                 | None => ms ++ [e]
                 end))).
Proof.
  intros Hget Hms He. unfold upsert_model. rewrite Hget. simpl.
  rewrite upsert_scan_dicts by done. simpl.
  by destruct (list_find _ ms) as [[j x]|].
Qed.

Lemma unique_keys_insert ms i m e :
  unique_keys ms -> ms !! i = Some m -> key_eq m e = true ->
  unique_keys (<[i := e]> ms).
Proof.
  intros Hu Hi Hme a b x y Ha Hb Hxy.
  assert (Hlen : (i < length ms)%nat) by (by eapply lookup_lt_Some).
  destruct (decide (a = i)) as [->|Hai]; destruct (decide (b = i)) as [->|Hbi]; [done|..].
  - rewrite list_lookup_insert_eq in Ha by done. injection Ha as <-.
    rewrite list_lookup_insert_ne in Hb by done.
    apply (Hu i b m y); [done..|]. eapply key_eq_trans; eauto.
  - rewrite list_lookup_insert_eq in Hb by done. injection Hb as <-.
    rewrite list_lookup_insert_ne in Ha by done.
    apply (Hu a i x m); [done..|]. eapply key_eq_trans; [eauto|]. by rewrite key_eq_sym.
  - rewrite list_lookup_insert_ne in Ha, Hb by done. by apply (Hu a b x y).
Qed.

Lemma unique_keys_snoc ms e :
  unique_keys ms -> (forall m, m ∈ ms -> key_eq m e = false) ->
  unique_keys (ms ++ [e]).
Proof.
  intros Hu Hnone a b x y Ha Hb Hxy.
  destruct (decide (a < length ms)%nat) as [Hal|Hal];
    destruct (decide (b < length ms)%nat) as [Hbl|Hbl].
  - rewrite lookup_app_l in Ha, Hb by done. by apply (Hu a b x y).
  - rewrite lookup_app_l in Ha by done. rewrite lookup_app_r in Hb by lia.
    apply list_lookup_singleton_Some in Hb as [_ <-].
    rewrite (Hnone x) in Hxy; [done|]. by eapply list_elem_of_lookup_2.
  - rewrite lookup_app_l in Hb by done. rewrite lookup_app_r in Ha by lia.
    apply list_lookup_singleton_Some in Ha as [_ <-].
    rewrite key_eq_sym, (Hnone y) in Hxy; [done|]. by eapply list_elem_of_lookup_2.
  - rewrite lookup_app_r in Ha, Hb by lia.
    apply list_lookup_singleton_Some in Ha as [Ha _].
    apply list_lookup_singleton_Some in Hb as [Hb _]. lia.
Qed.



(** ** [load_registry] *)

(** C3: [load_registry] does not always return.  Once
    [REGISTRY_PATH.exists()] has returned it never raises: a missing
    file gives the empty catalog silently; a file that is blank, that
    cannot be read, or whose text [json.loads] refuses gives the empty
    catalog after a warning; a file that parses gives the parsed value.
    But [exists()] stands before the [try]: when it raises, for a path
    that [stat] cannot examine, [load_registry] raises that exception
    and prints no warning. *)
Theorem load_registry_recovers_after_stat `{PyLib} :
  (forall e, load_registry_at (StatFails e) = Prog [] (Raise e)) /\
  (forall fs,
     load_registry_at (Examined fs) = load_registry fs /\
     is_ok (outcome (load_registry fs)) = true /\
     match fs with
     | Absent => load_registry fs = Prog [] (Ok empty_catalog)
     | Present (Raise e) =>
         outcome (load_registry fs) = Ok empty_catalog /\ warns_only (trace (load_registry fs))
     | Present (Ok text) =>
         if String.eqb (str_strip text) ""
         then outcome (load_registry fs) = Ok empty_catalog /\
              warns_only (trace (load_registry fs))
         else match json_loads (str_strip text) with
              | Ok v => load_registry fs = Prog [] (Ok v)
              | Raise e =>
                  outcome (load_registry fs) = Ok empty_catalog /\
                  warns_only (trace (load_registry fs))
              end
     end).
Proof.
  split; [done|]. intros fs. split; [done|].
  destruct fs as [|[text|e]].
  - done.
  - unfold load_registry. prog_simpl.
    destruct (String.eqb (str_strip text) "") eqn:Hblank.
    + by repeat split.
    + destruct (json_loads (str_strip text)) as [v|e] eqn:Hloads; [done|].
      destruct e; by repeat split.
  - unfold load_registry. prog_simpl. destruct e; by repeat split.
Qed.

Lemma upsert_scan_str_items (items : list json) e i :
  Forall (fun m => ~ is_dict m) items ->
  upsert_scan items e i = match items with [] => Ok None | _ => Raise AttributeError end.
Proof.
  destruct 1 as [|m items Hm _]; [done|].
  simpl. unfold same_key. by destruct m.
Qed.

(** C10 (as amended): [load_registry] returns any value that parses, of
    whatever shape; when that value is not a dict with a list under
    ["models"], [upsert_model] and [save_registry] raise: [TypeError]
    when it is not a dict, [KeyError] when it has no ["models"],
    [TypeError] or [AttributeError] when ["models"] is not a list, and
    nothing is written. *)
Theorem wrong_shape_catalog_raises `{PyLib} (text : string) (v e : json) :
  String.eqb (str_strip text) "" = false ->
  json_loads (str_strip text) = Ok v ->
  has_models_list v = false ->
  load_registry (Present (Ok text)) = Prog [] (Ok v) /\
  exists x y,
    upsert_model v e = Raise x /\
    save_registry v = Prog [] (Raise y) /\
    match v with
    | JObj kvs =>
        match dict_get "models" kvs with
        | None => x = KeyError /\ y = KeyError
        | Some _ => (x = TypeError \/ x = AttributeError) /\ y = AttributeError
        end
    | _ => x = TypeError /\ y = TypeError
    end.
Proof.
  intros Hblank Hloads Hshape. split.
  { unfold load_registry. prog_simpl. by rewrite Hblank, Hloads. }
  destruct v as [| b | n | x | s | xs | kvs];
    try (by exists TypeError, TypeError).
  simpl in Hshape. unfold upsert_model, save_registry, getitem.
  destruct (dict_get "models" kvs) as [models|] eqn:Hm; prog_simpl;
    [|by exists KeyError, KeyError].
  destruct models as [| b | n | x | s | xs | kvs']; try done;
    try (exists TypeError, AttributeError; by repeat split; try left).
  - exists AttributeError, AttributeError. simpl iterate. cbv beta iota.
    rewrite upsert_scan_str_items.
    + split; [|by repeat split; try right].
      by destruct (map _ (list_ascii_of_string s)).
    + apply Forall_forall. intros m [c [<- _]]%in_map_iff. by intros [].
  - exists AttributeError, AttributeError. simpl iterate. cbv beta iota.
    rewrite upsert_scan_str_items.
    + split; [|by repeat split; try right].
      by destruct (map _ kvs').
    + apply Forall_forall. intros m [c [<- _]]%in_map_iff. by intros [].
Qed.

Lemma wrong_shape_catalog_raises_witness :
  load_registry (H := ref_lib bare_archive) (Present (Ok (ref_dumps demo_bad_catalog)))
  = Prog [] (Ok demo_bad_catalog) /\
  exists x y,
    upsert_model demo_bad_catalog demo_new_entry = Raise x /\
    save_registry (H := ref_lib bare_archive) demo_bad_catalog = Prog [] (Raise y) /\
    (x = TypeError \/ x = AttributeError) /\ y = AttributeError.
Proof.
  apply (wrong_shape_catalog_raises (H := ref_lib bare_archive)
           (ref_dumps demo_bad_catalog) demo_bad_catalog demo_new_entry);
    vm_compute; reflexivity.
Defined.

(** C10, the claim as written fails: for the valid document
    [{"models": {}}] both [upsert_model] and [save_registry] raise
    [AttributeError], which is neither [KeyError] nor [TypeError]. *)
Lemma wrong_shape_not_key_or_type_error :
  load_registry (H := ref_lib bare_archive) (Present (Ok (ref_dumps demo_bad_catalog)))
  = Prog [] (Ok demo_bad_catalog) /\
  has_models_list demo_bad_catalog = false /\
  upsert_model demo_bad_catalog demo_new_entry = Raise AttributeError /\
  save_registry (H := ref_lib bare_archive) demo_bad_catalog = Prog [] (Raise AttributeError) /\
  AttributeError <> KeyError /\ AttributeError <> TypeError.
Proof. vm_compute. by repeat split. Qed.

(** ** The loop body of [main] *)

(** The check of lines 112 and 113 compares the version of the metadata
    with [version], which line 109 took from the metadata: it prints its
    warning when that version is not [==] to itself, that is for NaN and
    for nothing else. *)
Lemma check_version_warning kvs :
  check_version (JObj kvs) (default (JStr "unknown") (dict_get "version" kvs))
  = Prog (version_warning kvs) (Ok tt).
Proof.
  unfold check_version, version_warning, method_get, getitem, field. prog_simpl.
  destruct (dict_get "version" kvs) as [v|]; simpl; [|done].
  destruct (truthy v); [|done]. simpl. by destruct (py_eq v v).
Qed.

Lemma version_warning_nan kvs :
  version_warning kvs =
    match dict_get "version" kvs with
    | Some v => if is_nan v then [Print (MsgVersionMismatch v v)] else []
    | None => []
    end.
Proof.
  unfold version_warning, field.
  destruct (dict_get "version" kvs) as [v|]; simpl; [|done].
  rewrite py_eq_self, negb_involutive.
  destruct (is_nan v) eqn:Hnan; [|by rewrite andb_false_r].
  apply is_nan_spec in Hnan as ->. done.
Qed.

Lemma version_warning_prints kvs : writes (version_warning kvs) = [].
Proof.
  rewrite version_warning_nan. destruct (dict_get "version" kvs) as [v|]; [|done].
  by destruct (is_nan v).
Qed.

Lemma file_warning_prints `{PyLib} cfg p : writes (file_warning cfg p) = [].
Proof.
  unfold file_warning. destruct (FILENAME_RE_match _); [|done].
  destruct (read_model_infos_from_magic _) as [[| | | | | |kvs]|]; try done.
  apply version_warning_prints.
Qed.

Lemma process_file_plan `{PyLib} cfg registry magic_path :
  process_file cfg registry magic_path =
    match file_plan cfg magic_path with
    | Skip line => Prog [Print line] (Ok registry)
    | Fails e => Prog [] (Raise e)
    | Upsert entry line =>
        match upsert_model registry entry with
        | Ok registry' => Prog (file_warning cfg magic_path ++ [Print line]) (Ok registry')
        | Raise e => Prog (file_warning cfg magic_path) (Raise e)
        end
    end.
Proof.
  unfold process_file, file_plan, file_warning.
  destruct (FILENAME_RE_match (entry_name magic_path)) as [[name build_id]|]; [|done].
  destruct (read_model_infos_from_magic (entry_bytes magic_path)) as [infos|e]; [|done].
  destruct infos as [| b | n | x | s | xs | kvs]; try done.
  pose proof (check_version_warning kvs) as Hcheck.
  unfold compatible_versions, method_get.
  prog_cbn. unfold prog_bind at 1. rewrite Hcheck. prog_cbn.
  change (JObj _) with (entry_of cfg magic_path name build_id kvs).
  destruct (upsert_model registry _); prog_cbn; by rewrite ?app_nil_r.
Qed.

(** ** [compatible_versions] *)

(** C4 (as amended): the value taken is that of ["compatible_versions"]
    when it is truthy, else that of ["compat"] when it is truthy; a
    string is wrapped in a one-element list, no value gives the empty
    list, and any other value is kept as it is.  The three cases of the
    specification hold: ["1.0"] gives [["1.0"]], [["1.0", "1.1"]] stays,
    an absent key gives [[]]. *)
Theorem compatible_versions_first_truthy (kvs : list (string * json)) :
  compatible_versions (JObj kvs) =
    Ok (match List.find truthy [field (JObj kvs) "compatible_versions";
                                field (JObj kvs) "compat"] with
        | Some (JStr s) => JArr [JStr s]
        | Some v => v
        | None => JArr []
        end)
  /\ compatible_versions (JObj [("compatible_versions", JStr "1.0")])
     = Ok (JArr [JStr "1.0"])
  /\ compatible_versions (JObj [("compatible_versions", JArr [JStr "1.0"; JStr "1.1"])])
     = Ok (JArr [JStr "1.0"; JStr "1.1"])
  /\ compatible_versions (JObj []) = Ok (JArr []).
Proof.
  split; [|done].
  unfold compatible_versions, method_get, py_or, field. prog_simpl. simpl List.find.
  set (a := default JNull (dict_get "compatible_versions" kvs)).
  set (b := default JNull (dict_get "compat" kvs)).
  destruct (truthy a) eqn:Ha.
  - rewrite Ha. by destruct a.
  - destruct (truthy b) eqn:Hb; [by destruct b | done].
Qed.

(** C4, the claim as written fails: an empty list under
    ["compatible_versions"] gives way to ["compat"], and a number is
    kept as it is. *)
Lemma compatible_versions_spec_fails :
  compatible_versions (JObj [("compatible_versions", JArr []); ("compat", JStr "1.0")])
  = Ok (JArr [JStr "1.0"]) /\
  compatible_versions_spec (JObj [("compatible_versions", JArr []); ("compat", JStr "1.0")])
  = JArr [] /\
  compatible_versions (JObj [("compatible_versions", JInt 5)]) = Ok (JInt 5) /\
  compatible_versions_spec (JObj [("compatible_versions", JInt 5)]) = JArr [].
Proof. by repeat split. Qed.

(** ** The version-mismatch warning *)



(** ** Writes of the registry file *)

Lemma writes_app t1 t2 : writes (t1 ++ t2) = writes t1 ++ writes t2.
Proof. apply omap_app. Qed.

Lemma load_registry_outcome `{PyLib} fs :
  exists t v, load_registry fs = Prog t (Ok v) /\ writes t = [].
Proof.
  destruct fs as [|[text|e]]; unfold load_registry; prog_simpl.
  - by eexists _, _.
  - destruct (String.eqb (str_strip text) ""); [by eexists _, _|].
    destruct (json_loads (str_strip text)) as [v|e]; [by eexists _, _|].
    destruct e; by eexists _, _.
  - destruct e; by eexists _, _.
Qed.

Lemma process_file_no_writes `{PyLib} cfg registry magic_path :
  writes (trace (process_file cfg registry magic_path)) = [].
Proof.
  rewrite process_file_plan. destruct (file_plan cfg magic_path); try done.
  destruct (upsert_model registry entry); cbn [trace];
    by rewrite ?writes_app, file_warning_prints.
Qed.

Lemma process_files_no_writes `{PyLib} cfg magic_files registry :
  writes (trace (process_files cfg registry magic_files)) = [].
Proof.
  revert registry. induction magic_files as [|p rest IH]; intros registry; [done|].
  simpl. unfold mbind, prog_bind.
  destruct (outcome (process_file cfg registry p)) as [registry'|e]; simpl.
  - by rewrite writes_app, process_file_no_writes, IH.
  - apply process_file_no_writes.
Qed.

Lemma save_registry_outcome `{PyLib} registry :
  (exists text, save_registry registry = Prog [WriteRegistry text] (Ok tt)) \/
  (exists e, save_registry registry = Prog [] (Raise e)).
Proof.
  unfold save_registry. prog_simpl.
  destruct (getitem registry "models") as [models|e]; [|right; by eexists].
  destruct (method_sort models) as [sorted|e]; [left|right]; by eexists.
Qed.

Lemma has_candidate_glob entries :
  has_candidate (Some entries) <-> glob_magic entries <> [].
Proof.
  unfold has_candidate, glob_magic. split.
  - intros (entries' & p & [= <-] & Hp & Hname & Hfile) Hnil.
    assert (Hin : In p (List.filter
      (fun p => str_endswith (entry_name p) ".magic" && entry_is_file p) entries)).
    { apply filter_In. split; [by apply list_elem_of_In|]. by rewrite Hname, Hfile. }
    by rewrite Hnil in Hin.
  - intros Hne. destruct (List.filter _ entries) as [|p l] eqn:Hf; [done|].
    assert (Hin : In p (p :: l)) by (by left). rewrite <- Hf in Hin.
    apply filter_In in Hin as [Hin [Hname Hfile]%andb_true_iff].
    exists entries, p. split_and!; try done. by apply list_elem_of_In.
Qed.

(** C6: a run that completes exits with code 0, and it writes the
    registry file exactly once if [magic/upload/] exists and holds a
    regular file named [*.magic], and not at all otherwise; without such
    a file the run always completes, with code 0 and the registry file
    as it was. *)
Theorem main_writes_once `{PyLib} cfg dist_dir fs :
  (forall code, outcome (main cfg dist_dir fs) = Ok code ->
     code = 0 /\
     (has_candidate dist_dir ->
        exists text, writes (trace (main cfg dist_dir fs)) = [text] /\
                     file_after fs (trace (main cfg dist_dir fs)) = Present (Ok text)) /\
     (length (writes (trace (main cfg dist_dir fs))) = 1%nat <-> has_candidate dist_dir)) /\
  (~ has_candidate dist_dir ->
     outcome (main cfg dist_dir fs) = Ok 0 /\
     writes (trace (main cfg dist_dir fs)) = [] /\
     file_after fs (trace (main cfg dist_dir fs)) = fs).
Proof.
  destruct dist_dir as [entries|].
  2:{ unfold main. prog_simpl. split; [intros code [= <-]|intros _; by repeat split].
      split; [done|]. split; [by intros (? & ? & [=] & _)|].
      split; [done|]. by intros (? & ? & [=] & _). }
  pose proof (has_candidate_glob entries) as Hc. unfold main.
  destruct (load_registry_outcome fs) as (t0 & registry & -> & Ht0).
  prog_cbn. destruct (glob_magic entries) as [|p rest] eqn:Hglob.
  { prog_cbn. unfold file_after. rewrite writes_app, Ht0. simpl.
    split; [intros code [= <-]|done]. split; [done|].
    split; [by intros ?%Hc|]. split; [done|by intros ?%Hc]. }
  split; [|intros Hn; exfalso; by apply Hn, Hc]. intros code.
  pose proof (process_files_no_writes cfg (p :: rest) registry) as Hw.
  unfold mbind at 1. unfold prog_bind at 1. cbn [outcome trace].
  destruct (process_files cfg registry (p :: rest)) as [t1 [registry'|e]];
    cbn [outcome trace] in *; [|done].
  prog_cbn. unfold mbind, prog_bind.
  destruct (save_registry_outcome registry') as [[text ->]|[e ->]]; prog_cbn; [|done].
  intros [= <-]. unfold file_after. rewrite !writes_app, Ht0, Hw. simpl.
  split; [done|]. split; [by eexists|]. split; [intros _; by apply Hc|done].
Qed.

Lemma has_candidate_demo : has_candidate (Some [demo_file]).
Proof. exists [demo_file], demo_file. split_and!; try done. by left. Qed.

Lemma main_writes_once_witness :
  (outcome (main (H := demo_lib) demo_cfg (Some [demo_file]) Absent) = Ok 0 /\
   0 = 0 /\
   (exists text,
      writes (trace (main (H := demo_lib) demo_cfg (Some [demo_file]) Absent)) = [text] /\
      file_after Absent (trace (main (H := demo_lib) demo_cfg (Some [demo_file]) Absent))
      = Present (Ok text))) /\
  (outcome (main (H := demo_lib) demo_cfg None (Present (Ok "kept"))) = Ok 0 /\
   writes (trace (main (H := demo_lib) demo_cfg None (Present (Ok "kept")))) = [] /\
   file_after (Present (Ok "kept"))
     (trace (main (H := demo_lib) demo_cfg None (Present (Ok "kept"))))
   = Present (Ok "kept")).
Proof.
  split.
  - assert (Hrun : outcome (main (H := demo_lib) demo_cfg (Some [demo_file]) Absent) = Ok 0)
      by (vm_compute; reflexivity).
    split; [exact Hrun|].
    destruct (proj1 (main_writes_once (H := demo_lib) demo_cfg (Some [demo_file]) Absent)
                0 Hrun) as (H0 & Hw & _).
    split; [exact H0|]. exact (Hw has_candidate_demo).
  - apply (proj2 (main_writes_once (H := demo_lib) demo_cfg None (Present (Ok "kept")))).
    intros (? & ? & Hnone & _). discriminate Hnone.
Defined.

(** ** [read_model_infos_from_magic] *)

(** C7, on an archive with two members named [metadata.json]: the loop
    stops at the first member, and [z.open] reads the second one. *)
Theorem duplicate_member_name_reads_last :
  List.find is_metadata_name (map fst demo_duplicates) = Some "metadata.json" /\
  read_model_infos_from_magic (H := ref_lib (fun _ => Ok demo_duplicates)) []
  = Ok demo_second_infos.
Proof. vm_compute. by split. Qed.

(** The member that is read is the first one whose name matches when no
    later member has the same name; the three failures are raised as
    stated. *)
Lemma read_model_infos_first_match `{PyLib} content members before name data after :
  zip_open content = Ok members ->
  members = before ++ (name, data) :: after ->
  Forall (fun m => is_metadata_name m.1 = false) before ->
  is_metadata_name name = true ->
  Forall (fun m => m.1 <> name) after ->
  read_model_infos_from_magic content =
    (bytes ← data; text ← bytes_decode bytes; json_loads text).
Proof.
  intros Hopen -> Hbefore Hname Hafter.
  unfold read_model_infos_from_magic. rewrite Hopen. prog_simpl.
  assert (Hfind : List.find is_metadata_name (map fst (before ++ (name, data) :: after))
                  = Some name).
  { clear Hopen. induction Hbefore as [|m before Hm _ IH]; simpl.
    - by rewrite Hname.
    - by rewrite Hm. }
  rewrite Hfind.
  assert (Hne : String.eqb name "" = false) by (by destruct name).
  rewrite Hne. unfold zip_read.
  rewrite list.filter_app, filter_cons_True by done.
  assert (Hnil : filter (fun m : string * result (list byte) => m.1 = name) after = []).
  { clear -Hafter. induction Hafter as [|m after Hm _ IH]; [done|].
    by rewrite filter_cons_False. }
  rewrite Hnil, last_snoc. done.
Qed.

Lemma read_model_infos_failures `{PyLib} content :
  (forall e, zip_open content = Raise e -> read_model_infos_from_magic content = Raise e) /\
  (forall members, zip_open content = Ok members ->
     Forall (fun m => is_metadata_name m.1 = false) members ->
     read_model_infos_from_magic content = Raise FileNotFoundError).
Proof.
  unfold read_model_infos_from_magic. split.
  - by intros e ->.
  - intros members -> Hnone. prog_simpl.
    assert (Hfind : List.find is_metadata_name (map fst members) = None).
    { induction Hnone as [|m members Hm _ IH]; [done|]. simpl. by rewrite Hm. }
    by rewrite Hfind.
Qed.

(** ** [parse_build_type] *)

(** C8: [parse_build_type] maps the last character of the build id,
    upper-cased, through the table A, B, C, D, F: a final [A] or [a]
    gives ["stable"], [B] or [b] gives ["rc"], [C] or [c] gives
    ["beta"], [D] or [d] gives ["alpha"], [F] or [f] gives ["debug"],
    and any other final character, as well as the empty string, gives
    ["unknown"]; a file named [mymodel_X7B.magic] whose metadata is
    [{"version": "2.1"}] gives an entry with build id ["X7B"], build
    type ["rc"] and version ["2.1"], and named [mymodel_x7b.magic] it
    gives the build id ["x7b"] and the same build type. *)
Theorem build_type_classified :
  (forall build_id,
     parse_build_type build_id =
       match str_last build_id with
       | Some "A"%char | Some "a"%char => "stable"
       | Some "B"%char | Some "b"%char => "rc"
       | Some "C"%char | Some "c"%char => "beta"
       | Some "D"%char | Some "d"%char => "alpha"
       | Some "F"%char | Some "f"%char => "debug"
       | _ => "unknown"
       end) /\
  (forall (L : PyLib) cfg registry magic_path,
     entry_name magic_path = "mymodel_X7B.magic" ->
     read_model_infos_from_magic (entry_bytes magic_path) = Ok (JObj [("version", JStr "2.1")]) ->
     exists entry line,
       field entry "build_id" = JStr "X7B" /\
       field entry "build_type" = JStr "rc" /\
       field entry "version" = JStr "2.1" /\
       process_file cfg registry magic_path =
         match upsert_model registry entry with
         | Ok registry' => Prog [Print line] (Ok registry')
         | Raise e => Prog [] (Raise e)
         end) /\
  (forall (L : PyLib) cfg registry magic_path,
     entry_name magic_path = "mymodel_x7b.magic" ->
     read_model_infos_from_magic (entry_bytes magic_path) = Ok (JObj [("version", JStr "2.1")]) ->
     exists entry line,
       field entry "build_id" = JStr "x7b" /\
       field entry "build_type" = JStr "rc" /\
       field entry "version" = JStr "2.1" /\
       process_file cfg registry magic_path =
         match upsert_model registry entry with
         | Ok registry' => Prog [Print line] (Ok registry')
         | Raise e => Prog [] (Raise e)
         end).
Proof.
  split; [|split].
  - intros build_id. unfold parse_build_type.
    destruct (str_last build_id) as [c|]; [|done]. simpl.
    destruct c as [[] [] [] [] [] [] [] []]; reflexivity.
  - intros L cfg registry magic_path Hname Hread.
    rewrite process_file_plan. unfold file_plan, file_warning. rewrite Hname, Hread.
    change (FILENAME_RE_match "mymodel_X7B.magic") with (Some ("mymodel", "X7B")).
    cbv beta iota. eexists _, _. split_and!; [..|reflexivity]; reflexivity.
  - intros L cfg registry magic_path Hname Hread.
    rewrite process_file_plan. unfold file_plan, file_warning. rewrite Hname, Hread.
    change (FILENAME_RE_match "mymodel_x7b.magic") with (Some ("mymodel", "x7b")).
    cbv beta iota. eexists _, _. split_and!; [..|reflexivity]; reflexivity.
Qed.

Lemma build_type_classified_witness :
  exists entry line,
    field entry "build_id" = JStr "x7b" /\
    field entry "build_type" = JStr "rc" /\
    field entry "version" = JStr "2.1" /\
    process_file (H := demo_lib) demo_cfg empty_catalog demo_lower_file =
      match upsert_model empty_catalog entry with
      | Ok registry' => Prog [Print line] (Ok registry')
      | Raise e => Prog [] (Raise e)
      end.
Proof.
  apply (proj2 (proj2 build_type_classified) demo_lib demo_cfg empty_catalog demo_lower_file).
  - reflexivity.
  - vm_compute. reflexivity.
Defined.

(** ** [sha256_file] *)

Lemma file_read_app n rest chunk rest' :
  file_read n rest = (chunk, rest') -> chunk ++ rest' = rest.
Proof.
  revert n chunk rest'. induction rest as [|b rest IH]; intros n chunk rest'; simpl.
  - by intros [= <- <-].
  - destruct (n =? 0)%N; [by intros [= <- <-]|].
    destruct (file_read (N.pred n) rest) as [c r] eqn:Hr.
    intros [= <- <-]. simpl. f_equal. by eapply IH.
Qed.

Lemma file_read_eof n rest rest' :
  n <> 0%N -> file_read n rest = ([], rest') -> rest = [].
Proof.
  intros Hn. destruct rest as [|b rest]; [done|]. simpl.
  destruct (N.eqb_spec n 0) as [?|_]; [done|].
  by destruct (file_read (N.pred n) rest).
Qed.

Lemma update_app h a b : Sha256.update h (a ++ b) = Sha256.update (Sha256.update h a) b.
Proof. apply fold_left_app. Qed.

Lemma CHUNK_nonzero : CHUNK <> 0%N.
Proof. vm_compute. discriminate. Qed.

(** The read loop feeds every byte of the file, in order, exactly once. *)
Lemma read_loop_update h rest : read_loop h rest = Sha256.update h rest.
Proof.
  funelim (read_loop h rest).
  - match goal with
    | Hr : file_read _ _ = _ |- _ =>
        pose proof (file_read_eof _ _ _ CHUNK_nonzero Hr) as Heof
    end.
    by rewrite Heof.
  - match goal with
    | IH : read_loop _ _ = Sha256.update _ _, Hr : file_read _ _ = _ |- _ =>
        rewrite IH; rewrite <- (file_read_app _ _ _ _ Hr)
    end.
    by rewrite update_app.
Qed.

Lemma string_length_app (s t : string) :
  String.length (s ++ t)%string = (String.length s + String.length t)%nat.
Proof. induction s as [|c s IH]; simpl; [done | by rewrite IH]. Qed.

Lemma hex8_length w : String.length (Sha256.hex8 w) = 8%nat.
Proof. reflexivity. Qed.

Lemma hex_regs_length s : String.length (Sha256.hex_regs s) = 64%nat.
Proof.
  destruct s as [[[[[[[a b] c] d] e] f] g] h]. unfold Sha256.hex_regs.
  by rewrite !string_length_app, !hex8_length.
Qed.

Lemma hex_digit_lower n : is_lower_hex (Sha256.hex_digit n).
Proof.
  unfold Sha256.hex_digit, is_lower_hex. generalize (Z.to_nat n). intros k.
  do 16 (destruct k as [|k]; [simpl; tauto|]). simpl. tauto.
Qed.

Lemma list_ascii_app (s t : string) :
  list_ascii_of_string (s ++ t)%string = list_ascii_of_string s ++ list_ascii_of_string t.
Proof. induction s as [|c s IH]; simpl; [done | by rewrite IH]. Qed.

Lemma hex8_lower w : Forall is_lower_hex (list_ascii_of_string (Sha256.hex8 w)).
Proof.
  unfold Sha256.hex8. rewrite list_ascii_of_string_of_list_ascii.
  apply Forall_forall. intros c [i [<- _]]%in_map_iff. apply hex_digit_lower.
Qed.

Lemma hex_regs_lower s : Forall is_lower_hex (list_ascii_of_string (Sha256.hex_regs s)).
Proof.
  destruct s as [[[[[[[a b] c] d] e] f] g] h]. unfold Sha256.hex_regs.
  rewrite !list_ascii_app. repeat apply Forall_app_2; apply hex8_lower.
Qed.

(** ** The hash object against the definition of FIPS 180-4 *)

Section sha256_refinement.
Import Sha256.

Lemma feed_fill r pre t bytes :
  (length pre + length bytes < 64)%nat ->
  fold_left feed bytes (Hasher r pre t) =
    Hasher r (pre ++ bytes) (t + Z.of_nat (length bytes)).
Proof.
  revert pre t. induction bytes as [|b bytes IH]; intros pre t Hlen.
  - simpl. by rewrite app_nil_r, Z.add_0_r.
  - simpl in Hlen. cbn [fold_left]. unfold feed at 2. cbn [h_pending h_regs h_total].
    destruct (Nat.eqb_spec (length (pre ++ [b])) 64) as [Heq|_].
    { rewrite length_app in Heq. simpl in Heq. lia. }
    rewrite IH by (rewrite length_app; simpl; lia).
    rewrite <- app_assoc. simpl. f_equal. lia.
Qed.

Lemma feed_block r t block :
  length block = 64%nat ->
  fold_left feed block (Hasher r [] t) = Hasher (compress r block) [] (t + 64).
Proof.
  intros Hlen. rewrite <- (take_drop 63 block) at 1.
  assert (Hd : exists b, drop 63 block = [b]).
  { destruct (drop 63 block) as [|b [|c l]] eqn:Hdrop.
    - apply (f_equal length) in Hdrop. rewrite length_drop in Hdrop. simpl in Hdrop. lia.
    - by exists b.
    - apply (f_equal length) in Hdrop. rewrite length_drop in Hdrop. simpl in Hdrop. lia. }
  destruct Hd as [b Hb]. rewrite fold_left_app, Hb.
  rewrite feed_fill by (rewrite length_take, Hlen; simpl; lia).
  simpl. unfold feed. cbn [h_pending h_regs h_total].
  rewrite <- Hb, take_drop, Hlen. simpl. f_equal.
  rewrite length_take, Hlen. simpl. lia.
Qed.

Lemma feed_blocks n : forall fuel msg r t,
  length msg = (64 * n)%nat -> (n <= fuel)%nat ->
  fold_left feed msg (Hasher r [] t) =
    Hasher (fold_left compress (blocks_of fuel msg) r) [] (t + 64 * Z.of_nat n).
Proof.
  induction n as [|n IH]; intros fuel msg r t Hlen Hfuel.
  - destruct msg; [|done]. simpl. destruct fuel; simpl; f_equal; lia.
  - destruct fuel as [|fuel]; [lia|].
    destruct msg as [|b msg]; [simpl in Hlen; lia|].
    change (blocks_of (S fuel) (b :: msg))
      with (take 64 (b :: msg) :: blocks_of fuel (drop 64 (b :: msg))).
    rewrite <- (take_drop 64 (b :: msg)) at 1.
    rewrite fold_left_app, feed_block by (rewrite length_take; lia).
    rewrite (IH fuel) by (rewrite ?length_drop; lia).
    simpl fold_left. f_equal. lia.
Qed.

Lemma total_update data st :
  h_total (update st data) = h_total st + Z.of_nat (length data).
Proof.
  unfold update. revert st. induction data as [|b data IH]; intros st; simpl; [lia|].
  rewrite IH. unfold feed. destruct (_ =? _)%nat; simpl; lia.
Qed.

Lemma be_bytes_length k n : length (be_bytes k n) = k.
Proof.
  revert n. induction k as [|k IH]; intros n; [done|].
  simpl. rewrite length_app, IH. simpl. lia.
Qed.

Lemma padded_length (len : nat) :
  exists n, (len + length (padding (Z.of_nat len)) = 64 * n)%nat.
Proof.
  unfold padding. cbn [length]. rewrite length_app, repeat_length, be_bytes_length.
  set (z := (119 - Z.of_nat len mod 64) mod 64).
  exists (Z.to_nat ((Z.of_nat len + 9 + z) / 64)).
  assert (Hz : 0 <= z < 64) by (apply Z.mod_pos_bound; lia).
  assert (Hdiv : (Z.of_nat len + 9 + z) mod 64 = 0).
  { unfold z. pose proof (Z.mod_pos_bound (Z.of_nat len) 64 ltac:(lia)) as Hq.
    pose proof (Z.div_mod (Z.of_nat len) 64 ltac:(lia)) as Hlen.
    set (q := Z.of_nat len mod 64) in *.
    destruct (Z_le_gt_dec q 55) as [Hle|Hgt].
    - replace ((119 - q) mod 64) with (55 - q).
      + replace (Z.of_nat len + 9 + (55 - q)) with ((Z.of_nat len / 64 + 1) * 64) by lia.
        apply Z.mod_mul. lia.
      + apply (Z.mod_unique _ _ 1); [left|]; lia.
    - replace ((119 - q) mod 64) with (119 - q).
      + replace (Z.of_nat len + 9 + (119 - q)) with ((Z.of_nat len / 64 + 2) * 64) by lia.
        apply Z.mod_mul. lia.
      + apply (Z.mod_unique _ _ 0); [left|]; lia. }
  pose proof (Z.div_mod (Z.of_nat len + 9 + z) 64 ltac:(lia)) as Hdm.
  rewrite Hdiv in Hdm. lia.
Qed.

(** The digest of the hash object is the digest of FIPS 180-4: the
    message is padded, cut into blocks of 64 bytes, and the blocks are
    compressed in order from the initial hash value. *)
Lemma sha256_hex_fips data : sha256_hex data = sha256_fips data.
Proof.
  unfold sha256_hex, sha256_fips, hexdigest.
  rewrite total_update. simpl h_total. rewrite Z.add_0_l.
  unfold update. rewrite <- fold_left_app. unfold init.
  destruct (padded_length (length data)) as [n Hn].
  rewrite (feed_blocks n (length (data ++ padding (Z.of_nat (length data))))).
  - done.
  - by rewrite length_app.
  - rewrite length_app. lia.
Qed.
End sha256_refinement.

(** C9: the checksum that [sha256_file] computes by reading chunks of
    1 MiB is the SHA-256 digest of the whole content, be it hashed in
    one call of the hash object or by the definition of FIPS 180-4; it
    is a string of 64 lowercase hexadecimal digits, and the entry of a
    processed file carries it under ["sha256"]. *)
Theorem sha256_file_is_digest :
  (forall content,
     sha256_file content = Sha256.sha256_hex content /\
     sha256_file content = Sha256.sha256_fips content /\
     String.length (sha256_file content) = 64%nat /\
     Forall is_lower_hex (list_ascii_of_string (sha256_file content))) /\
  (forall (L : PyLib) cfg registry magic_path entry line,
     file_plan cfg magic_path = Upsert entry line ->
     field entry "sha256" = JStr (Sha256.sha256_hex (entry_bytes magic_path)) /\
     process_file cfg registry magic_path =
       match upsert_model registry entry with
       | Ok registry' => Prog (file_warning cfg magic_path ++ [Print line]) (Ok registry')
       | Raise e => Prog (file_warning cfg magic_path) (Raise e)
       end).
Proof.
  split.
  - intros content.
    assert (Hone : sha256_file content = Sha256.sha256_hex content).
    { unfold sha256_file, Sha256.sha256_hex. by rewrite read_loop_update. }
    split; [done|]. split; [by rewrite Hone, sha256_hex_fips|].
    unfold sha256_file, Sha256.hexdigest.
    split; [apply hex_regs_length | apply hex_regs_lower].
  - intros L cfg registry magic_path entry line Hplan.
    split; [|by rewrite process_file_plan, Hplan].
    revert Hplan. unfold file_plan.
    destruct (FILENAME_RE_match _) as [[name build_id]|]; [|done].
    destruct (read_model_infos_from_magic _) as [[| ? | ? | ? | ? | ? | kvs]|e]; try done.
    intros [= <- _]. simpl. unfold sha256_file, Sha256.sha256_hex.
    by rewrite read_loop_update.
Qed.

Lemma sha256_file_is_digest_witness :
  field (entry_of demo_cfg demo_file "mymodel" "X7B" [("version", JStr "2.1")]) "sha256"
  = JStr (Sha256.sha256_hex (entry_bytes demo_file)) /\
  process_file (H := demo_lib) demo_cfg empty_catalog demo_file =
    match upsert_model empty_catalog
            (entry_of demo_cfg demo_file "mymodel" "X7B" [("version", JStr "2.1")]) with
    | Ok registry' =>
        Prog (file_warning (H := demo_lib) demo_cfg demo_file
              ++ [Print (MsgUpsert (JStr "mymodel") (JStr "2.1") "rc")]) (Ok registry')
    | Raise e => Prog (file_warning (H := demo_lib) demo_cfg demo_file) (Raise e)
    end.
Proof.
  apply (proj2 sha256_file_is_digest demo_lib demo_cfg empty_catalog demo_file _
           (MsgUpsert (JStr "mymodel") (JStr "2.1") "rc")).
  vm_compute. reflexivity.
Defined.

Example sha256_abc :
  sha256_file (list_byte_of_string "abc")
  = "ba7816bf8f01cfea414140de5dae2223b00361a396177a9cb410ff61f20015ad".
Proof. vm_compute. reflexivity. Qed.

(** ** Upserts on lists of entries *)

Lemma key_eq_false_congr a b m :
  key_eq a b = true -> key_eq m a = false -> key_eq m b = false.
Proof. intros Hab Hma. by rewrite <- (key_eq_congr a b m Hab). Qed.

Lemma upsert_list_find ms e :
  upsert_list ms e =
    match list_find (fun m => key_eq m e = true) ms with
    | Some (i, _) => <[i := e]> ms
    | None => ms ++ [e]
    end.
Proof.
  induction ms as [|m ms IH]; [done|]. simpl.
  case_decide as Hk.
  - by rewrite Hk.
  - apply not_true_is_false in Hk. rewrite Hk, IH.
    by destruct (list_find _ ms) as [[i x]|].
Qed.

Lemma upsert_list_dicts ms e :
  Forall is_dict ms -> is_dict e -> Forall is_dict (upsert_list ms e).
Proof.
  intros Hms He. induction Hms as [|m ms Hm Hms IH]; simpl; [by constructor|].
  destruct (key_eq m e); by constructor.
Qed.

(** After an upsert of [e], the first entry with the key of [e] is [e]. *)
Lemma first_with_key_upsert_same ms e k :
  key_eq e k = true -> first_with_key k (upsert_list ms e) = Some e.
Proof.
  intros Hek. unfold first_with_key. induction ms as [|m ms IH]; simpl.
  - by rewrite Hek.
  - destruct (key_eq m e) eqn:Hme; simpl.
    + by rewrite Hek.
    + rewrite (key_eq_false_congr e k m Hek Hme). exact IH.
Qed.

(** An upsert leaves the first entry of every other key as it is. *)
Lemma first_with_key_upsert_other ms e k :
  key_eq e k = false -> first_with_key k (upsert_list ms e) = first_with_key k ms.
Proof.
  intros Hek. unfold first_with_key. induction ms as [|m ms IH]; simpl.
  - by rewrite Hek.
  - destruct (key_eq m e) eqn:Hme; simpl.
    + rewrite Hek. destruct (key_eq m k) eqn:Hmk; [|done].
      rewrite key_eq_sym in Hme. rewrite (key_eq_trans e m k Hme Hmk) in Hek. done.
    + destruct (key_eq m k); [done | exact IH].
Qed.

(** Upserting the entry that already stands first for its key changes
    nothing. *)
Lemma upsert_list_fixed ms e :
  first_with_key e ms = Some e -> upsert_list ms e = ms.
Proof.
  unfold first_with_key. induction ms as [|m ms IH]; simpl; [done|].
  destruct (key_eq m e); [by intros [= ->] | intros H; by rewrite IH].
Qed.

(** A later upsert with the same key overwrites an earlier one. *)
Lemma upsert_list_overwrite ms e x :
  key_eq x e = true -> upsert_list (upsert_list ms e) x = upsert_list ms x.
Proof.
  intros Hxe. assert (Hex : key_eq e x = true) by (by rewrite key_eq_sym).
  induction ms as [|m ms IH]; simpl.
  - by rewrite Hex.
  - destruct (key_eq m e) eqn:Hme; simpl.
    + by rewrite Hex, (key_eq_trans m e x Hme Hex).
    + rewrite (key_eq_false_congr e x m Hex Hme). by rewrite IH.
Qed.

(** Upserts with different keys commute when both keys are there. *)
Lemma upsert_list_commute ms e x :
  key_eq x e = false ->
  is_Some (first_with_key e ms) -> is_Some (first_with_key x ms) ->
  upsert_list (upsert_list ms e) x = upsert_list (upsert_list ms x) e.
Proof.
  intros Hxe. assert (Hex : key_eq e x = false) by (by rewrite key_eq_sym).
  unfold first_with_key. induction ms as [|m ms IH]; simpl.
  - by intros [? [=]].
  - destruct (key_eq m e) eqn:Hme; destruct (key_eq m x) eqn:Hmx; simpl; intros He Hx.
    + rewrite key_eq_sym in Hmx. by rewrite (key_eq_trans x m e Hmx Hme) in Hxe.
    + by rewrite Hex, Hme.
    + by rewrite Hxe, Hmx.
    + by rewrite Hmx, Hme, IH.
Qed.

Lemma first_with_key_upsert_some ms e k :
  is_Some (first_with_key k ms) -> is_Some (first_with_key k (upsert_list ms e)).
Proof.
  intros Hk. destruct (key_eq e k) eqn:Hek.
  - by rewrite first_with_key_upsert_same.
  - by rewrite first_with_key_upsert_other.
Qed.

Lemma latest_snoc es e k :
  latest (es ++ [e]) k = if key_eq e k then Some e else latest es k.
Proof.
  unfold latest. rewrite List.filter_app. simpl.
  destruct (key_eq e k); [apply last_snoc | by rewrite app_nil_r].
Qed.

Lemma latest_cons e es k :
  latest (e :: es) k =
    match latest es k with
    | Some x => Some x
    | None => if key_eq e k then Some e else None
    end.
Proof.
  unfold latest. simpl. destruct (key_eq e k); [|by destruct (list.last _)].
  destruct (List.filter _ es) as [|y l] eqn:Hf; [done|].
  rewrite last_cons. by destruct (list.last (y :: l)) eqn:Hl; [|destruct l].
Qed.

Lemma latest_none es k : latest es k = None <-> Forall (fun x => key_eq x k = false) es.
Proof.
  unfold latest. rewrite last_None. induction es as [|e es IH]; simpl.
  - split; [by constructor | done].
  - destruct (key_eq e k) eqn:Hek.
    + split; [done|]. intros H. inversion H; congruence.
    + rewrite IH. split; [by constructor | by inversion 1].
Qed.

(** After the upserts of [es], in order, the first entry of each key of
    [es] is the last entry of [es] with that key. *)
Lemma first_with_key_after_upserts es ms k x :
  latest es k = Some x ->
  first_with_key k (fold_left upsert_list es ms) = Some x.
Proof.
  revert k x. induction es as [|e es IH] using rev_ind; intros k x; [done|].
  rewrite latest_snoc, fold_left_app. simpl.
  destruct (key_eq e k) eqn:Hek.
  - intros [= <-]. by apply first_with_key_upsert_same.
  - intros Hl. rewrite first_with_key_upsert_other by done. by apply IH.
Qed.

(** An upsert whose key comes again later in [es] makes no difference to
    the result of the upserts of [es], when the keys are all there. *)
Lemma upserts_absorb es ms e :
  Exists (fun x => key_eq x e = true) es ->
  is_Some (first_with_key e ms) ->
  Forall (fun y => is_Some (first_with_key y ms)) es ->
  fold_left upsert_list es (upsert_list ms e) = fold_left upsert_list es ms.
Proof.
  revert ms. induction es as [|x es IH]; intros ms Hex He Hes; [by inversion Hex|].
  simpl. inversion_clear Hes as [|? ? Hx Hes'].
  destruct (key_eq x e) eqn:Hxe.
  - by rewrite upsert_list_overwrite.
  - rewrite upsert_list_commute by done. apply IH.
    + inversion_clear Hex; [congruence | done].
    + by apply first_with_key_upsert_some.
    + eapply Forall_impl; [|exact Hes']. intros y. apply first_with_key_upsert_some.
Qed.

Lemma latest_is_some es k : In k es -> key_eq k k = true -> is_Some (latest es k).
Proof.
  intros Hin Hk. destruct (latest es k) eqn:Hl; [by eexists|].
  apply latest_none in Hl. rewrite Forall_forall in Hl.
  specialize (Hl k Hin). congruence.
Qed.

(** A list in which the first entry of each key of [es] is the last
    entry of [es] with that key is left as it is by the upserts of [es],
    when every entry of [es] has its own key (no name or version that is
    NaN). *)
Lemma upserts_fixed es ms :
  Forall (fun e => key_eq e e = true) es ->
  (forall k x, latest es k = Some x -> first_with_key k ms = Some x) ->
  fold_left upsert_list es ms = ms.
Proof.
  induction es as [|e es IH]; intros Hself Hlatest; [done|]. simpl.
  inversion_clear Hself as [|? ? He Hself'].
  assert (Hes : forall k x, latest es k = Some x -> first_with_key k ms = Some x).
  { intros k x Hl. apply Hlatest. by rewrite latest_cons, Hl. }
  destruct (latest es e) as [x|] eqn:Hle.
  - rewrite upserts_absorb; [by apply IH|..].
    + apply Exists_exists. destruct (Forall_Exists_dec (fun y => key_eq y e = false)
        (fun y => bool_dec (key_eq y e) false) es) as [Hall|Hex].
      * apply latest_none in Hall. congruence.
      * apply Exists_exists in Hex as (y & Hy & Hne). exists y. split; [done|].
        by destruct (key_eq y e).
    + rewrite (Hes e x Hle). by eexists.
    + apply Forall_forall. intros y Hy.
      destruct (latest_is_some es y Hy) as [z Hz].
      { rewrite Forall_forall in Hself'. by apply Hself'. }
      rewrite (Hes y z Hz). by eexists.
  - rewrite upsert_list_fixed; [by apply IH|].
    apply Hlatest. by rewrite latest_cons, Hle, He.
Qed.

(** *** Stable sorting keeps the first entry of each key *)

Section sort_first.
Context {K V : Type} (lt : K -> K -> bool) (P : V -> bool).
Implicit Types (x : K * V) (l : list (K * V)).

Lemma find_insert_sorted x l :
  (P x.2 = true -> forall y, In y l -> P y.2 = true -> lt y.1 x.1 = false) ->
  List.find (fun z => P z.2) (insert_sorted lt x l) = if P x.2 then Some x else List.find (fun z => P z.2) l.
Proof.
  induction l as [|y l IH]; intros Hlt; simpl; [done|].
  destruct (lt y.1 x.1) eqn:Hyx; simpl; [|done].
  destruct (P y.2) eqn:Hy.
  - destruct (P x.2) eqn:Hx; [|done].
    rewrite (Hlt eq_refl y) in Hyx; [done | by left | done].
  - rewrite IH; [done|]. intros Hx z Hz. apply Hlt; [done | by right].
Qed.

Lemma find_stable_sort l :
  (forall x y, In x l -> In y l -> P x.2 = true -> P y.2 = true -> lt y.1 x.1 = false) ->
  List.find (fun z => P z.2) (stable_sort lt l) = List.find (fun z => P z.2) l.
Proof.
  induction l as [|x l IH]; intros Hlt; [done|].
  simpl. rewrite find_insert_sorted.
  - rewrite IH; [done|].
    intros a b Ha Hb. apply Hlt; by right.
  - intros Hx y Hy HPy. apply Hlt; [by left | | done..].
    right. apply list_elem_of_In. rewrite <- (stable_sort_perm lt l).
    by apply list_elem_of_In.
Qed.
End sort_first.

(** ** [save_registry]: the sort *)

Lemma sort_key_dict m : is_dict m -> sort_key m = Ok (sort_key_of m).
Proof. by destruct m. Qed.

Lemma sort_key_ok m k : sort_key m = Ok k -> is_dict m.
Proof. by destruct m. Qed.

Lemma mapM_sort_key_dicts ms :
  Forall is_dict ms -> mapM sort_key ms = Ok (map sort_key_of ms).
Proof.
  induction 1 as [|m ms Hm _ IH]; [done|].
  simpl. rewrite (sort_key_dict m Hm). simpl. by rewrite IH.
Qed.

Lemma mapM_sort_key_ok ms keys :
  mapM sort_key ms = Ok keys -> Forall is_dict ms.
Proof.
  revert keys. induction ms as [|m ms IH]; intros keys; [by constructor|].
  simpl. destruct (sort_key m) as [k|] eqn:Hk; [|done]. simpl.
  destruct (mapM sort_key ms) as [ks|] eqn:Hks; [|done].
  intros _. constructor; [by eapply sort_key_ok | by eapply IH].
Qed.

Lemma zip_keys (ms : list json) :
  zip (map sort_key_of ms) ms = map (fun m => (sort_key_of m, m)) ms.
Proof. induction ms as [|m ms IH]; simpl; [done | by rewrite IH]. Qed.

Lemma method_sort_dicts ms :
  Forall is_dict ms -> comparable (map sort_key_of ms) = true ->
  method_sort (JArr ms) = Ok (JArr (sorted_models ms)).
Proof.
  intros Hms Hcmp. unfold method_sort. rewrite (mapM_sort_key_dicts ms Hms). simpl.
  by rewrite Hcmp, zip_keys.
Qed.

Lemma method_sort_ok models sorted :
  method_sort models = Ok sorted ->
  exists ms, models = JArr ms /\ Forall is_dict ms /\
             comparable (map sort_key_of ms) = true /\
             sorted = JArr (sorted_models ms).
Proof.
  destruct models as [| | | | | ms |]; try done. unfold method_sort.
  destruct (mapM sort_key ms) as [keys|] eqn:Hkeys; [|done].
  pose proof (mapM_sort_key_ok ms keys Hkeys) as Hms.
  rewrite (mapM_sort_key_dicts ms Hms) in Hkeys. injection Hkeys as <-. simpl.
  destruct (comparable _) eqn:Hcmp; [|done]. intros [= <-].
  exists ms. by rewrite zip_keys.
Qed.

Lemma lt_total_asym a b : lt_total a b = true -> lt_total b a = false.
Proof.
  unfold lt_total. destruct (tuple_lt a b) as [[]|] eqn:Hab; try done.
  intros _. by rewrite (tuple_lt_asym a b Hab).
Qed.

(** The sorted list is the decorated list, sorted, without its keys. *)
Lemma decorate_sorted ms :
  map (fun m => (sort_key_of m, m)) (sorted_models ms)
  = stable_sort lt_total (map (fun m => (sort_key_of m, m)) ms).
Proof.
  unfold sorted_models.
  set (S := stable_sort lt_total _).
  assert (HS : Forall (fun x : json * json * json => x.1 = sort_key_of x.2) S).
  { apply Forall_forall. intros x Hx. apply list_elem_of_In in Hx.
    unfold S in Hx. rewrite stable_sort_perm in Hx.
    apply list_elem_of_fmap in Hx as (m & -> & _). done. }
  induction HS as [|[k m] S Hk _ IH]; [done|].
  simpl in *. by rewrite IH, Hk.
Qed.

Lemma sorted_models_perm ms : sorted_models ms ≡ₚ ms.
Proof.
  unfold sorted_models. rewrite stable_sort_perm.
  rewrite map_map. simpl. by rewrite map_id.
Qed.

(** Sorting a sorted list changes nothing. *)
Lemma sorted_models_fixed ms : sorted_models (sorted_models ms) = sorted_models ms.
Proof.
  unfold sorted_models at 1. rewrite decorate_sorted.
  rewrite stable_sort_fixed; [done|].
  apply stable_sort_ordered, lt_total_asym.
Qed.

Lemma sorted_models_dicts ms : Forall is_dict ms -> Forall is_dict (sorted_models ms).
Proof. intros H. by rewrite sorted_models_perm. Qed.

Lemma comparable_spec ks :
  comparable ks = true <-> forall a b, In a ks -> In b ks -> is_ok (tuple_lt a b) = true.
Proof.
  unfold comparable. rewrite forallb_forall. split.
  - intros H a b Ha Hb. specialize (H a Ha). rewrite forallb_forall in H. by apply H.
  - intros H a Ha. apply forallb_forall. intros b Hb. by apply H.
Qed.

Lemma sorted_models_comparable ms :
  comparable (map sort_key_of ms) = true ->
  comparable (map sort_key_of (sorted_models ms)) = true.
Proof.
  rewrite !comparable_spec. intros H a b Ha Hb.
  apply H; apply list_elem_of_In; rewrite <- (sorted_models_perm ms);
    by apply list_elem_of_In.
Qed.

Lemma py_eq_null v : py_eq JNull v = true -> v = JNull.
Proof. by destruct v. Qed.

Lemma py_eq_null_r v : py_eq v JNull = true -> v = JNull.
Proof. rewrite py_eq_sym. apply py_eq_null. Qed.

(** Entries with the same identity key are not ordered by the sort. *)
Lemma same_key_not_lt a b :
  is_dict a -> is_dict b -> key_eq a b = true ->
  lt_total (sort_key_of a) (sort_key_of b) = false.
Proof.
  destruct a as [| | | | | |kvs]; try done. destruct b as [| | | | | |kvs']; try done.
  intros _ _. unfold key_eq, field, lt_total, tuple_lt, sort_key_of. simpl.
  intros [Hn Hv]%andb_true_iff.
  assert (forall x y : option json,
            py_eq (default JNull x) (default JNull y) = true ->
            py_same (default (JStr "") x) (default (JStr "") y) = true \/
            py_lt (default (JStr "") x) (default (JStr "") y) = Raise TypeError) as Hcase.
  { intros [x|] [y|] H; simpl in *.
    - left. by apply py_eq_same.
    - apply py_eq_null_r in H as ->. by right.
    - apply py_eq_null in H as ->. by right.
    - by left. }
  destruct (Hcase _ _ Hn) as [Hn'|Hn'].
  - rewrite Hn'. clear Hn'. simpl. destruct (Hcase _ _ Hv) as [Hv'|Hv'].
    + by rewrite Hv'.
    + destruct (py_same _ _); simpl; [done | by rewrite Hv'].
  - destruct (py_same _ _); simpl; [|by rewrite Hn'].
    destruct (Hcase _ _ Hv) as [Hv'|Hv'].
    + by rewrite Hv'.
    + destruct (py_same _ _); simpl; [done | by rewrite Hv'].
Qed.

Lemma find_map_snd {K V} (P : V -> bool) (l : list (K * V)) :
  List.find P (map snd l) = snd <$> List.find (fun x => P x.2) l.
Proof.
  induction l as [|x l IH]; [done|]. simpl. by destruct (P x.2).
Qed.

(** The sort keeps the first entry of every identity key. *)
Lemma first_with_key_sorted ms k :
  Forall is_dict ms -> first_with_key k (sorted_models ms) = first_with_key k ms.
Proof.
  intros Hms. unfold first_with_key, sorted_models.
  rewrite (find_map_snd (fun m => key_eq m k)).
  rewrite (find_stable_sort lt_total (fun m => key_eq m k)).
  - rewrite <- (find_map_snd (fun m => key_eq m k)), map_map. simpl. by rewrite map_id.
  - intros x y [m [<- Hm]]%in_map_iff [m' [<- Hm']]%in_map_iff. simpl.
    intros Hx Hy. rewrite Forall_forall in Hms.
    apply same_key_not_lt; [by apply Hms | by apply Hms |].
    eapply key_eq_trans; [exact Hy|]. by rewrite key_eq_sym.
Qed.

(** The upserts of a run, done again on the list that the run sorted,
    leave that list as it is. *)
Lemma upserts_on_sorted_fixed es ms :
  Forall (fun e => key_eq e e = true) es ->
  Forall is_dict (fold_left upsert_list es ms) ->
  fold_left upsert_list es (sorted_models (fold_left upsert_list es ms))
  = sorted_models (fold_left upsert_list es ms).
Proof.
  intros Hself Hd. apply upserts_fixed; [done|]. intros k x Hl.
  rewrite first_with_key_sorted by done.
  by apply first_with_key_after_upserts.
Qed.

Lemma upserts_on_sorted_run es ms1 models0 :
  Forall (fun e => key_eq e e = true) es ->
  (forall ms, models0 = JArr ms -> JArr ms1 = JArr (fold_left upsert_list es ms)) ->
  (es <> [] -> exists ms, models0 = JArr ms) ->
  Forall is_dict ms1 ->
  fold_left upsert_list es (sorted_models ms1) = sorted_models ms1.
Proof.
  intros Hself Hfold Hsome Hd. destruct es as [|e es]; [done|].
  destruct Hsome as [ms0 ->]; [done|].
  specialize (Hfold ms0 eq_refl). injection Hfold as ->.
  exact (upserts_on_sorted_fixed (e :: es) ms0 Hself Hd).
Qed.

(** ** The registry across the loop of [main] *)

Lemma upsert_model_list registry ms e :
  getitem registry "models" = Ok (JArr ms) ->
  Forall is_dict ms -> is_dict e ->
  upsert_model registry e = Ok (with_models registry (JArr (upsert_list ms e))).
Proof.
  intros. rewrite upsert_list_find. by apply upsert_model_dicts.
Qed.

Lemma upsert_scan_ok ms e i found :
  is_dict e ->
  upsert_scan ms e i = Ok found ->
  match found with
  | Some j => exists j', j = (i + j')%nat /\ <[j' := e]> ms = upsert_list ms e
  | None => ms ++ [e] = upsert_list ms e
  end.
Proof.
  intros He. revert i found. induction ms as [|m ms IH]; intros i found; simpl.
  - by intros [= <-].
  - destruct (same_key m e) as [hit|] eqn:Hhit; [|done]. simpl.
    assert (Hm : is_dict m).
    { destruct m; try done. }
    rewrite same_key_dict in Hhit by done. injection Hhit as <-.
    destruct (key_eq m e).
    + intros [= <-]. exists 0%nat. split; [lia | done].
    + intros Hscan. specialize (IH _ _ Hscan). destruct found as [j|].
      * destruct IH as (j' & -> & Hj). exists (S j'). split; [lia|]. simpl. by rewrite Hj.
      * simpl. by rewrite IH.
Qed.

(** When [upsert_model] returns, the catalog held a list under
    ["models"], and that list has become its [upsert_list]. *)
Lemma upsert_model_ok registry e registry' :
  is_dict e ->
  upsert_model registry e = Ok registry' ->
  exists ms, getitem registry "models" = Ok (JArr ms) /\
             registry' = with_models registry (JArr (upsert_list ms e)).
Proof.
  intros He. unfold upsert_model.
  destruct (getitem registry "models") as [models|] eqn:Hget; [|done]. simpl.
  destruct models as [| | | | s | ms | kvs]; try done; simpl.
  - rewrite upsert_scan_str_items.
    + by destruct (map _ (list_ascii_of_string s)).
    + apply Forall_forall. intros m [c [<- _]]%in_map_iff. by intros [].
  - destruct (upsert_scan ms e 0) as [found|] eqn:Hscan; [|done]. simpl.
    pose proof (upsert_scan_ok ms e 0 found He Hscan) as Hfound.
    destruct found as [j|]; simpl; intros [= <-]; exists ms; split; try done.
    + destruct Hfound as (j' & -> & <-). done.
    + by rewrite <- Hfound.
  - rewrite upsert_scan_str_items.
    + by destruct (map _ kvs).
    + apply Forall_forall. intros m [c [<- _]]%in_map_iff. by intros [].
Qed.

Lemma file_plan_entry_dict `{PyLib} cfg p entry line :
  file_plan cfg p = Upsert entry line -> is_dict entry.
Proof.
  unfold file_plan. destruct (FILENAME_RE_match _) as [[name build_id]|]; [|done].
  destruct (read_model_infos_from_magic _) as [[| ? | ? | ? | ? | ? | kvs]|e]; try done.
  by intros [= <- _].
Qed.

Lemma entries_of_dicts `{PyLib} cfg files : Forall is_dict (entries_of cfg files).
Proof.
  unfold entries_of. induction files as [|p files IH]; simpl; [by constructor|].
  destruct (file_plan cfg p) eqn:Hp; try done.
  constructor; [by eapply file_plan_entry_dict | done].
Qed.

Lemma upserts_dicts es ms :
  Forall is_dict es -> Forall is_dict ms -> Forall is_dict (fold_left upsert_list es ms).
Proof.
  intros Hes. revert ms. induction Hes as [|e es He _ IH]; intros ms Hms; [done|].
  simpl. apply IH. by apply upsert_list_dicts.
Qed.

(** A loop that completes leaves, under ["models"], the upserts of the
    entries of its files; no file failed. *)
Lemma process_files_ok `{PyLib} cfg files registry t registry' models' :
  process_files cfg registry files = Prog t (Ok registry') ->
  getitem registry' "models" = Ok models' ->
  Forall (fun p => forall e, file_plan cfg p <> Fails e) files /\
  exists models, getitem registry "models" = Ok models /\
    registry' = with_models registry models' /\
    (forall ms, models = JArr ms ->
                models' = JArr (fold_left upsert_list (entries_of cfg files) ms)) /\
    (entries_of cfg files <> [] -> exists ms, models = JArr ms).
Proof.
  revert registry t. induction files as [|p files IH]; intros registry t.
  - simpl. intros [= _ <-] Hget. split; [by constructor|].
    exists models'. split_and!; try done. by rewrite with_models_same.
  - simpl. unfold mbind at 1, prog_bind at 1.
    destruct (process_file cfg registry p) as [t1 [registry1|e]] eqn:Hp;
      cbn [outcome trace]; [|done].
    destruct (process_files cfg registry1 files) as [t2 r2] eqn:Hrest.
    cbn [outcome trace]. intros [= _ ->] Hget.
    destruct (IH registry1 t2 Hrest Hget) as (Hfiles & models1 & Hget1 & -> & Hms1 & Hne1).
    rewrite process_file_plan in Hp. unfold entries_of. simpl.
    destruct (file_plan cfg p) as [line|e|entry line] eqn:Hplan.
    + injection Hp as _ <-.
      split; [constructor; [intros e; by rewrite Hplan | done]|].
      exists models1. by split_and!.
    + done.
    + destruct (upsert_model registry entry) as [r1|] eqn:Hup; [|done].
      injection Hp as _ <-.
      pose proof (file_plan_entry_dict cfg p entry line Hplan) as He.
      destruct (upsert_model_ok registry entry r1 He Hup) as (ms & Hgetr & ->).
      rewrite (getitem_with_models registry _ _ Hgetr) in Hget1. injection Hget1 as <-.
      split; [constructor; [intros e'; by rewrite Hplan | done]|].
      exists (JArr ms). split_and!; try done.
      * by rewrite with_models_twice.
      * intros ms0 [= <-]. by apply Hms1.
      * intros _. by exists ms.
Qed.

(** On a catalog of dicts, the loop completes as soon as no file fails. *)
Lemma process_files_dicts `{PyLib} cfg files registry ms :
  getitem registry "models" = Ok (JArr ms) ->
  Forall is_dict ms ->
  Forall (fun p => forall e, file_plan cfg p <> Fails e) files ->
  exists t,
    process_files cfg registry files =
      Prog t (Ok (with_models registry
                    (JArr (fold_left upsert_list (entries_of cfg files) ms)))) /\
    writes t = [].
Proof.
  revert registry ms. induction files as [|p files IH]; intros registry ms Hget Hms Hfiles.
  - exists []. simpl. by rewrite with_models_same.
  - inversion_clear Hfiles as [|? ? Hp Hfiles'].
    simpl. rewrite process_file_plan. unfold entries_of. simpl.
    destruct (file_plan cfg p) as [line|e|entry line] eqn:Hplan.
    + destruct (IH registry ms Hget Hms Hfiles') as (t & Ht & Hw).
      exists (Print line :: t). prog_cbn. fold (entries_of cfg files).
      rewrite Ht. by prog_cbn.
    + by destruct (Hp e).
    + pose proof (file_plan_entry_dict cfg p entry line Hplan) as He.
      rewrite (upsert_model_list registry ms entry Hget Hms He).
      destruct (IH (with_models registry (JArr (upsert_list ms entry))) (upsert_list ms entry))
        as (t & Ht & Hw); [by eapply getitem_with_models | by apply upsert_list_dicts | done |].
      exists ((file_warning cfg p ++ [Print line]) ++ t). prog_cbn.
      fold (entries_of cfg files).
      rewrite Ht. prog_cbn. rewrite with_models_twice. split; [done|].
      by rewrite !writes_app, file_warning_prints, Hw.
Qed.

Lemma save_registry_ok `{PyLib} registry t :
  save_registry registry = Prog t (Ok tt) ->
  exists ms, getitem registry "models" = Ok (JArr ms) /\ Forall is_dict ms /\
             comparable (map sort_key_of ms) = true /\
             t = [WriteRegistry (json_dumps (with_models registry (JArr (sorted_models ms))))].
Proof.
  unfold save_registry. prog_simpl.
  destruct (getitem registry "models") as [models|] eqn:Hget; [|done].
  destruct (method_sort models) as [sorted|] eqn:Hsort; [|done].
  destruct (method_sort_ok models sorted Hsort) as (ms & -> & Hms & Hcmp & ->).
  intros [= <-]. by exists ms.
Qed.

Lemma save_registry_dicts `{PyLib} registry ms :
  getitem registry "models" = Ok (JArr ms) -> Forall is_dict ms ->
  comparable (map sort_key_of ms) = true ->
  save_registry registry =
    Prog [WriteRegistry (json_dumps (with_models registry (JArr (sorted_models ms))))] (Ok tt).
Proof.
  intros Hget Hms Hcmp. unfold save_registry. prog_simpl.
  by rewrite Hget, (method_sort_dicts ms Hms Hcmp).
Qed.

Lemma load_registry_written `{L : PyLib} `{!JsonRoundTrip L} v :
  load_registry (Present (Ok (json_dumps v))) = Prog [] (Ok v).
Proof.
  unfold load_registry. prog_simpl. by rewrite dumps_not_blank, loads_dumps.
Qed.

(** ** Two runs in a row *)

Lemma main_candidates `{PyLib} cfg entries fs p rest :
  glob_magic entries = p :: rest ->
  main cfg (Some entries) fs =
    (registry ← load_registry fs;
     registry' ← process_files cfg registry (p :: rest);
     save_registry registry';; print MsgSaved;; mret 0).
Proof. intros Hglob. unfold main. by rewrite Hglob. Qed.

(** C2 (as amended): when no entry of the catalog that is loaded and no
    entry that the run upserts has a name or a version that is NaN or
    holds one, then after a run that completes, a second run over the
    same directory, with the same configuration and date, and over the
    registry file that the first run left, completes as well and leaves
    the registry file as it found it: what it writes is the text that the
    first run wrote. *)
Theorem main_idempotent `{L : PyLib} `{!JsonRoundTrip L} cfg dist_dir fs :
  outcome (main cfg dist_dir fs) = Ok 0 ->
  forallb key_nan_free (loaded_models fs ++ run_entries cfg dist_dir) = true ->
  outcome (main cfg dist_dir (file_after fs (trace (main cfg dist_dir fs)))) = Ok 0 /\
  writes (trace (main cfg dist_dir (file_after fs (trace (main cfg dist_dir fs)))))
  = writes (trace (main cfg dist_dir fs)) /\
  file_after (file_after fs (trace (main cfg dist_dir fs)))
    (trace (main cfg dist_dir (file_after fs (trace (main cfg dist_dir fs)))))
  = file_after fs (trace (main cfg dist_dir fs)).
Proof.
  destruct dist_dir as [entries|]; [|done].
  intros Hrun Hkeys. revert Hrun.
  assert (Forall (fun e => key_eq e e = true) (entries_of cfg (glob_magic entries))) as Hself.
  { rewrite forallb_app in Hkeys. apply andb_true_iff in Hkeys as [_ Hes].
    rewrite forallb_forall in Hes. apply Forall_forall. intros e He.
    by apply key_eq_refl, Hes. }
  clear Hkeys. revert Hself.
  destruct (glob_magic entries) as [|p rest] eqn:Hglob; intros Hself.
  { (* no candidate: neither run writes *)
    assert (Hmain : forall fs', exists t, main cfg (Some entries) fs' = Prog t (Ok 0) /\
                                          writes t = []).
    { intros fs'. unfold main. rewrite Hglob.
      destruct (load_registry_outcome fs') as (t0 & registry & -> & Ht0).
      exists (t0 ++ [Print MsgNoMagic]). prog_cbn. by rewrite writes_app, Ht0. }
    intros _. destruct (Hmain fs) as (t & Hm & Ht). rewrite Hm. cbn [trace outcome].
    assert (Hsame : file_after fs t = fs) by (unfold file_after; by rewrite Ht).
    rewrite Hsame, Hm. cbn [trace outcome]. by rewrite Hsame. }
  (* the first run *)
  rewrite !(main_candidates cfg entries fs p rest Hglob).
  destruct (load_registry_outcome fs) as (t0 & registry0 & -> & Ht0). prog_cbn.
  destruct (process_files cfg registry0 (p :: rest)) as [t1 [registry1|e]] eqn:Hloop;
    [|done].
  pose proof (process_files_no_writes cfg (p :: rest) registry0) as Ht1.
  rewrite Hloop in Ht1. prog_cbn. cbn [trace] in Ht1.
  destruct (save_registry registry1) as [t2 [[]|e]] eqn:Hsave; [|done]. prog_cbn.
  intros _.
  destruct (save_registry_ok registry1 t2 Hsave) as (ms1 & Hget1 & Hms1 & Hcmp1 & ->).
  destruct (process_files_ok cfg (p :: rest) registry0 t1 registry1 (JArr ms1) Hloop Hget1)
    as (Hfiles & models0 & Hget0 & -> & Hfold & Hsome).
  rewrite with_models_twice.
  set (sorted := sorted_models ms1).
  set (written := with_models registry0 (JArr sorted)).
  match goal with
  | |- context [file_after fs ?t] =>
      assert (Hafter : file_after fs t = Present (Ok (json_dumps written)))
        by (unfold file_after; by rewrite !writes_app, Ht0, Ht1)
  end.
  rewrite !Hafter.
  (* the second run *)
  assert (Hgetw : getitem written "models" = Ok (JArr sorted))
    by (by eapply getitem_with_models).
  assert (Hsorted : Forall is_dict sorted) by (by apply sorted_models_dicts).
  assert (Hfixed : fold_left upsert_list (entries_of cfg (p :: rest)) sorted = sorted).
  { by apply (upserts_on_sorted_run _ ms1 models0). }
  destruct (process_files_dicts cfg (p :: rest) written sorted Hgetw Hsorted Hfiles)
    as (t1' & Hloop' & Ht1').
  rewrite Hfixed, (with_models_same written _ Hgetw) in Hloop'.
  rewrite !(main_candidates cfg entries _ p rest Hglob).
  rewrite load_registry_written. prog_cbn.
  rewrite Hloop'. prog_cbn.
  rewrite (save_registry_dicts written sorted Hgetw Hsorted)
    by (by apply sorted_models_comparable).
  prog_cbn.
  assert (Hagain : with_models written (JArr (sorted_models sorted)) = written).
  { unfold sorted at 1. rewrite sorted_models_fixed. by apply with_models_same. }
  rewrite Hagain. unfold file_after. by rewrite !writes_app, Ht0, Ht1, Ht1'.
Qed.

(** *** The reference library reads back what it writes *)

Lemma digits_pos_digits p : digits_pos (pos_digits p) = Some p.
Proof. induction p as [p IH|p IH|]; simpl; [by rewrite IH..|done]. Qed.

Lemma drop_trailing_spaces_none s :
  Forall (fun c => is_space c = false) (list_ascii_of_string s) ->
  drop_trailing_spaces s = s.
Proof.
  induction s as [|c s IH]; [done|]. simpl. intros H. inversion_clear H as [|? ? Hc Hs].
  rewrite (IH Hs). destruct s; [by rewrite Hc | done].
Qed.

Lemma pos_digits_no_space p :
  Forall (fun c => is_space c = false) (list_ascii_of_string (pos_digits p)).
Proof. induction p as [p IH|p IH|]; simpl; by constructor. Qed.

Lemma ref_strip_dumps v : ref_strip (ref_dumps v) = ref_dumps v.
Proof.
  unfold ref_strip, ref_dumps. simpl drop_spaces.
  apply drop_trailing_spaces_none. simpl. constructor; [done|]. apply pos_digits_no_space.
Qed.

#[global] Instance ref_lib_round_trip archive : JsonRoundTrip (ref_lib archive).
Proof.
  split; intros v; simpl; rewrite ref_strip_dumps; [done|].
  unfold ref_loads, ref_dumps. rewrite digits_pos_digits. simpl.
  by rewrite decode_encode.
Qed.

Lemma main_idempotent_witness :
  outcome (main (H := demo_lib) demo_cfg (Some demo_dir)
             (file_after Absent (trace (main (H := demo_lib) demo_cfg (Some demo_dir) Absent))))
  = Ok 0 /\
  writes (trace (main (H := demo_lib) demo_cfg (Some demo_dir)
                   (file_after Absent
                      (trace (main (H := demo_lib) demo_cfg (Some demo_dir) Absent)))))
  = writes (trace (main (H := demo_lib) demo_cfg (Some demo_dir) Absent)) /\
  file_after (file_after Absent (trace (main (H := demo_lib) demo_cfg (Some demo_dir) Absent)))
    (trace (main (H := demo_lib) demo_cfg (Some demo_dir)
              (file_after Absent
                 (trace (main (H := demo_lib) demo_cfg (Some demo_dir) Absent)))))
  = file_after Absent (trace (main (H := demo_lib) demo_cfg (Some demo_dir) Absent)).
Proof.
  apply (main_idempotent (L := demo_lib) (JsonRoundTrip0 := ref_lib_round_trip bare_archive)
           demo_cfg (Some demo_dir) Absent).
  - reflexivity.
  - reflexivity.
Defined.

(** C2, the claim as written fails: [json.loads] accepts [NaN], and NaN
    is not [==] to itself.  For an archive whose metadata is
    [{"version": NaN}], the second run finds no entry with the name and
    version of the entry it upserts and appends it again: both runs
    complete, and the second writes another text than the first. *)
Lemma main_not_idempotent_on_nan :
  outcome (main (H := demo_lib) demo_cfg (Some [demo_nan_file]) Absent) = Ok 0 /\
  outcome (main (H := demo_lib) demo_cfg (Some [demo_nan_file])
             (file_after Absent
                (trace (main (H := demo_lib) demo_cfg (Some [demo_nan_file]) Absent))))
  = Ok 0 /\
  writes (trace (main (H := demo_lib) demo_cfg (Some [demo_nan_file])
                   (file_after Absent
                      (trace (main (H := demo_lib) demo_cfg (Some [demo_nan_file]) Absent)))))
  <> writes (trace (main (H := demo_lib) demo_cfg (Some [demo_nan_file]) Absent)).
Proof.
  vm_compute. split; [reflexivity|]. split; [reflexivity|]. discriminate.
Qed.

(** ** Further properties of the script *)

Section sort_stable.
Context {K V : Type} (lt : K -> K -> bool) (P : V -> bool).
Implicit Types (x : K * V) (l : list (K * V)).

Lemma filter_insert_sorted x l :
  (P x.2 = true -> forall y, In y l -> P y.2 = true -> lt y.1 x.1 = false) ->
  List.filter (fun z => P z.2) (insert_sorted lt x l) = List.filter (fun z => P z.2) (x :: l).
Proof.
  induction l as [|y l IH]; intros Hlt; [done|]. simpl insert_sorted.
  destruct (lt y.1 x.1) eqn:Hyx; [|done].
  cbn [List.filter]. rewrite IH by (intros Hx z Hz; apply Hlt; [done | by right]).
  cbn [List.filter].
  destruct (P y.2) eqn:Hy, (P x.2) eqn:Hx; try done.
  rewrite (Hlt eq_refl y) in Hyx; [done | by left | done].
Qed.

Lemma filter_stable_sort l :
  (forall x y, In x l -> In y l -> P x.2 = true -> P y.2 = true -> lt y.1 x.1 = false) ->
  List.filter (fun z => P z.2) (stable_sort lt l) = List.filter (fun z => P z.2) l.
Proof.
  induction l as [|x l IH]; intros Hlt; [done|].
  simpl stable_sort. rewrite filter_insert_sorted.
  - cbn [List.filter]. rewrite IH; [done|].
    intros a b Ha Hb. apply Hlt; by right.
  - intros Hx y Hy HPy. apply Hlt; [by left | | done..].
    right. apply list_elem_of_In. rewrite <- (stable_sort_perm lt l).
    by apply list_elem_of_In.
Qed.
End sort_stable.

Lemma filter_map_snd {K V} (P : V -> bool) (l : list (K * V)) :
  List.filter P (map snd l) = map snd (List.filter (fun x => P x.2) l).
Proof.
  induction l as [|x l IH]; [done|]. simpl. destruct (P x.2); simpl; by rewrite IH.
Qed.

Lemma same_sort_key_sym a b : same_sort_key a b = same_sort_key b a.
Proof. unfold same_sort_key. by rewrite (py_same_sym _.1), (py_same_sym _.2). Qed.

Lemma same_sort_key_trans a b c :
  same_sort_key a b = true -> same_sort_key b c = true -> same_sort_key a c = true.
Proof.
  unfold same_sort_key. rewrite !andb_true_iff. intros [? ?] [? ?].
  split; eapply py_same_trans; eauto.
Qed.

Lemma same_sort_key_not_lt a b :
  same_sort_key a b = true -> lt_total (sort_key_of a) (sort_key_of b) = false.
Proof.
  unfold same_sort_key, lt_total, tuple_lt. intros [-> ->]%andb_true_iff. done.
Qed.

(** The sort keeps the order of the entries that tie. *)
Lemma sorted_models_stable ms x :
  List.filter (same_sort_key x) (sorted_models ms) = List.filter (same_sort_key x) ms.
Proof.
  unfold sorted_models. rewrite filter_map_snd.
  rewrite (filter_stable_sort lt_total (same_sort_key x)).
  - rewrite <- filter_map_snd, map_map. simpl. by rewrite map_id.
  - intros a b [m [<- Hm]]%in_map_iff [m' [<- Hm']]%in_map_iff. simpl. intros Ha Hb.
    apply same_sort_key_not_lt. eapply same_sort_key_trans; [|exact Ha].
    by rewrite same_sort_key_sym.
Qed.

(** X2: when [save_registry] returns, on a catalog whose entries have no
    NaN in their names and versions, the one text it wrote is the dump of
    the catalog with, under ["models"], its entries sorted: the same
    entries, no entry with a smaller [(name, version)] than the entry
    before it, and the entries that tie on [(name, version)] in the
    order they had (the sort is stable). *)
Theorem save_registry_sorted `{PyLib} registry ms t :
  getitem registry "models" = Ok (JArr ms) ->
  forallb key_nan_free ms = true ->
  save_registry registry = Prog t (Ok tt) ->
  exists sorted,
    t = [WriteRegistry (json_dumps (with_models registry (JArr sorted)))] /\
    getitem (with_models registry (JArr sorted)) "models" = Ok (JArr sorted) /\
    sorted ≡ₚ ms /\
    ordered lt_total (map (fun m => (sort_key_of m, m)) sorted) = true /\
    forall x, List.filter (same_sort_key x) sorted = List.filter (same_sort_key x) ms.
Proof.
  intros Hget _ Hsave.
  destruct (save_registry_ok registry t Hsave) as (ms0 & Hget0 & Hms & Hcmp & ->).
  rewrite Hget in Hget0. injection Hget0 as <-.
  exists (sorted_models ms). split_and!; try done.
  - by eapply getitem_with_models.
  - apply sorted_models_perm.
  - rewrite decorate_sorted. apply stable_sort_ordered, lt_total_asym.
  - apply sorted_models_stable.
Qed.

Lemma save_registry_sorted_witness :
  exists sorted,
    trace (save_registry (H := demo_lib) demo_catalog)
    = [WriteRegistry (json_dumps (PyLib := demo_lib) (with_models demo_catalog (JArr sorted)))] /\
    getitem (with_models demo_catalog (JArr sorted)) "models" = Ok (JArr sorted) /\
    sorted ≡ₚ [demo_other_entry; demo_old_entry] /\
    ordered lt_total (map (fun m => (sort_key_of m, m)) sorted) = true /\
    forall x, List.filter (same_sort_key x) sorted
              = List.filter (same_sort_key x) [demo_other_entry; demo_old_entry].
Proof.
  apply (save_registry_sorted (H := demo_lib) demo_catalog [demo_other_entry; demo_old_entry]).
  - reflexivity.
  - reflexivity.
  - reflexivity.
Defined.

(** X3: in an archive where no later member has the name of the first
    member whose name ends with [metadata.json], the metadata that is
    read is the content of that first member. *)
Theorem first_metadata_member_read `{PyLib} content before name data after :
  zip_open content = Ok (before ++ (name, data) :: after) ->
  Forall (fun m => is_metadata_name m.1 = false) before ->
  is_metadata_name name = true ->
  Forall (fun m => m.1 <> name) after ->
  read_model_infos_from_magic content =
    (bytes ← data; text ← bytes_decode bytes; json_loads text).
Proof. intros. by eapply read_model_infos_first_match. Qed.

Lemma first_metadata_member_read_witness :
  read_model_infos_from_magic
    (H := ref_lib (fun _ => Ok [("README", Ok []);
                                ("pkg/Metadata.JSON",
                                 Ok (list_byte_of_string (ref_dumps demo_first_infos)));
                                ("metadata.json",
                                 Ok (list_byte_of_string (ref_dumps demo_second_infos)))]))
    []
  = Ok demo_first_infos.
Proof.
  etransitivity.
  - apply (first_metadata_member_read
             (H := ref_lib (fun _ => Ok [("README", Ok []);
                                         ("pkg/Metadata.JSON",
                                          Ok (list_byte_of_string (ref_dumps demo_first_infos)));
                                         ("metadata.json",
                                          Ok (list_byte_of_string (ref_dumps demo_second_infos)))]))
             [] [("README", Ok [])] "pkg/Metadata.JSON"
             (Ok (list_byte_of_string (ref_dumps demo_first_infos)))
             [("metadata.json", Ok (list_byte_of_string (ref_dumps demo_second_infos)))]).
    + reflexivity.
    + repeat constructor.
    + reflexivity.
    + repeat constructor. simpl. discriminate.
  - vm_compute. reflexivity.
Defined.

(** ** File names *)

#[local] Arguments String.append !_ _ / : simpl nomatch.

Lemma str_app_assoc (a b c : string) : (a +:+ b) +:+ c = a +:+ (b +:+ c).
Proof. induction a as [|x a IH]; simpl; [done | by rewrite IH]. Qed.

Lemma str_app_nil_r (s : string) : s +:+ "" = s.
Proof. induction s as [|x s IH]; simpl; [done | by rewrite IH]. Qed.

Lemma substring_skip p t k :
  substring (String.length p) k (p +:+ t) = substring 0 k t.
Proof. induction p as [|x p IH]; simpl; [done | by rewrite IH]. Qed.

Lemma substring_all t : substring 0 (String.length t) t = t.
Proof. induction t as [|x t IH]; simpl; [done | by rewrite IH]. Qed.

Lemma substring_split s : forall a b,
  (a + b = String.length s)%nat -> s = substring 0 a s +:+ substring a b s.
Proof.
  induction s as [|x s IH]; intros a b Hab; simpl in *.
  - destruct a; [|done]. by destruct b.
  - destruct a as [|a]; simpl.
    + simpl in Hab. subst b. simpl. by rewrite substring_all.
    + f_equal. apply IH. lia.
Qed.

(** [s.endswith(suffix)] holds exactly when [s] is some text followed by
    [suffix]. *)
Lemma str_endswith_spec s suffix :
  str_endswith s suffix = true <-> exists p, s = p +:+ suffix.
Proof.
  unfold str_endswith. rewrite andb_true_iff, Nat.leb_le, String.eqb_eq. split.
  - intros [Hle Hsub]. exists (substring 0 (String.length s - String.length suffix) s).
    pose proof (substring_split s (String.length s - String.length suffix)
                  (String.length suffix)) as Hs.
    rewrite Hsub in Hs. apply Hs. lia.
  - intros [p ->]. rewrite string_length_app. split; [lia|].
    replace (String.length p + String.length suffix - String.length suffix)%nat
      with (String.length p) by lia.
    by rewrite substring_skip, substring_all.
Qed.

Lemma str_span_spec p s : forall a r,
  str_span p s = (a, r) ->
  s = a +:+ r /\ str_forall p a = true /\
  match r with String c _ => p c = false | EmptyString => True end.
Proof.
  induction s as [|x s IH]; intros a r; simpl.
  - by intros [= <- <-].
  - destruct (p x) eqn:Hx.
    + destruct (str_span p s) as [a' r'] eqn:Hs. intros [= <- <-].
      destruct (IH a' r' eq_refl) as (-> & Ha & Hr).
      split_and!; [done| |done]. unfold str_forall in *. simpl. by rewrite Hx.
    + intros [= <- <-]. by split_and!.
Qed.

Lemma str_span_app p a r :
  str_forall p a = true ->
  match r with String c _ => p c = false | EmptyString => True end ->
  str_span p (a +:+ r) = (a, r).
Proof.
  unfold str_forall. induction a as [|x a IH]; simpl; intros Ha Hr.
  - destruct r as [|c r]; [done|]. simpl. by rewrite Hr.
  - apply andb_true_iff in Ha as [-> Ha]. by rewrite IH.
Qed.

Lemma string_eqb_false s t : String.eqb s t = false <-> s <> t.
Proof. by rewrite <- String.eqb_neq. Qed.

Lemma FILENAME_RE_match_sound file_name name buildid :
  FILENAME_RE_match file_name = Some (name, buildid) -> name_shape file_name name buildid.
Proof.
  unfold FILENAME_RE_match, name_shape.
  destruct (str_span _ file_name) as [n rest] eqn:Hn.
  apply str_span_spec in Hn as (-> & Hn & _).
  destruct rest as [|c rest]; [done|].
  destruct c as [[] [] [] [] [] [] [] []]; try done.
  destruct (str_span is_alnum rest) as [b tail] eqn:Hb.
  apply str_span_spec in Hb as (-> & Hb & _).
  destruct (String.eqb n "") eqn:En; [done|].
  destruct (String.eqb b "") eqn:Eb; [done|].
  apply string_eqb_false in En, Eb.
  destruct (String.eqb tail ".magic") eqn:E1.
  - apply String.eqb_eq in E1 as ->. intros [= <- <-]. split_and!; try done. by left.
  - destruct (String.eqb tail (".magic" +:+ newline)) eqn:E2; [|done].
    apply String.eqb_eq in E2 as ->. intros [= <- <-]. split_and!; try done. by right.
Qed.

Lemma FILENAME_RE_match_complete file_name name buildid :
  name_shape file_name name buildid -> FILENAME_RE_match file_name = Some (name, buildid).
Proof.
  unfold FILENAME_RE_match. intros (Hf & Hn & Hn' & Hb & Hb').
  apply string_eqb_false in Hn, Hb.
  assert (exists tail, file_name = name +:+ "_" +:+ buildid +:+ tail /\
            (String.eqb tail ".magic" || String.eqb tail (".magic" +:+ newline)) = true)
    as (tail & -> & Htail).
  { destruct Hf as [-> | ->]; [by exists ".magic" | by exists (".magic" +:+ newline)]. }
  rewrite str_span_app; [|done|done].
  change ("_" +:+ buildid +:+ tail) with (String "_" (buildid +:+ tail)). cbv iota beta.
  rewrite str_span_app, Hn, Hb, Htail; [done|done|].
  apply orb_true_iff in Htail as [->%String.eqb_eq | ->%String.eqb_eq]; done.
Qed.

Lemma str_count_app c (s t : string) :
  str_count c (s +:+ t) = (str_count c s + str_count c t)%nat.
Proof.
  unfold str_count. rewrite list_ascii_app, List.filter_app. apply length_app.
Qed.

Lemma str_count_none c p s :
  str_forall p s = true -> p c = false -> str_count c s = 0%nat.
Proof.
  unfold str_forall, str_count. induction (list_ascii_of_string s) as [|x l IH]; simpl; [done|].
  intros [Hx Hl]%andb_true_iff Hc. destruct (Ascii.eqb_spec c x) as [->|]; [congruence|].
  by apply IH.
Qed.

Lemma name_shape_one_underscore file_name name buildid :
  name_shape file_name name buildid -> str_count "_" file_name = 1%nat.
Proof.
  intros (Hf & _ & Hn & _ & Hb).
  apply (str_count_none "_") in Hn; [|done].
  apply (str_count_none "_") in Hb; [|done].
  destruct Hf as [-> | ->]; rewrite !str_count_app, Hn, Hb; done.
Qed.

Lemma str_last_app s t : t <> "" -> str_last (s +:+ t) = str_last t.
Proof.
  intros Ht. induction s as [|x s IH]; simpl; [done|].
  rewrite IH. destruct (s +:+ t) eqn:Hst; [|done].
  destruct s; simpl in Hst; [by subst | done].
Qed.

Lemma glob_magic_elem entries p :
  p ∈ glob_magic entries <->
  p ∈ entries /\ str_endswith (entry_name p) ".magic" = true /\ entry_is_file p = true.
Proof.
  unfold glob_magic. rewrite !list_elem_of_In, filter_In, andb_true_iff. tauto.
Qed.

(** X1: a file whose name does not hold exactly one underscore, such as
    [weird.name.magic] or [my_model_X7B.magic], is skipped: the loop
    prints one line for it and leaves the registry as it is, whatever the
    file holds. *)
Theorem unmatched_name_skipped `{PyLib} cfg registry magic_path :
  str_count "_" (entry_name magic_path) <> 1%nat ->
  process_file cfg registry magic_path
  = Prog [Print (MsgIgnore (entry_name magic_path))] (Ok registry).
Proof.
  intros Hcount. unfold process_file.
  destruct (FILENAME_RE_match _) as [[name build_id]|] eqn:Hm; [|done].
  apply FILENAME_RE_match_sound, name_shape_one_underscore in Hm. done.
Qed.

Lemma unmatched_name_skipped_witness :
  process_file (H := demo_lib) demo_cfg demo_catalog (DirEntry "my_model_X7B.magic" true [])
  = Prog [Print (MsgIgnore "my_model_X7B.magic")] (Ok demo_catalog).
Proof.
  apply (unmatched_name_skipped (H := demo_lib) demo_cfg demo_catalog
           (DirEntry "my_model_X7B.magic" true [])).
  vm_compute. discriminate.
Defined.

(** X4: [FILENAME_RE] matches a file name, with the groups [name] and
    [buildid], exactly when the file name is [name], one underscore,
    [buildid] and [.magic], with at most one newline after it, where
    [name] is not empty and has no underscore and [buildid] is not empty
    and made of ASCII letters and digits. *)
Theorem filename_pattern_exact file_name name buildid :
  FILENAME_RE_match file_name = Some (name, buildid) <-> name_shape file_name name buildid.
Proof.
  split; [apply FILENAME_RE_match_sound | apply FILENAME_RE_match_complete].
Qed.

(** X5: a file that the glob of [main] lists and whose name matches the
    pattern is named exactly [name], underscore, [buildid], [.magic]: the
    name with a final newline, which the pattern accepts, does not end
    with [.magic] and never reaches the pattern. *)
Theorem globbed_name_exact entries p name buildid :
  p ∈ glob_magic entries ->
  FILENAME_RE_match (entry_name p) = Some (name, buildid) ->
  entry_name p = name +:+ "_" +:+ buildid +:+ ".magic".
Proof.
  intros (_ & [q Hq]%str_endswith_spec & _)%glob_magic_elem
         ([Hf | Hf] & _)%FILENAME_RE_match_sound; [done|].
  exfalso. assert (str_last (entry_name p) = Some "c"%char) as Hc.
  { rewrite Hq. by rewrite str_last_app. }
  rewrite Hf in Hc. rewrite str_last_app in Hc; [|done].
  change ("_" +:+ buildid +:+ ".magic" +:+ newline)
    with (("_" +:+ buildid) +:+ ".magic" +:+ newline) in Hc.
  rewrite str_last_app in Hc; [|done]. by vm_compute in Hc.
Qed.

Lemma globbed_name_exact_witness :
  entry_name demo_file = "mymodel" +:+ "_" +:+ "X7B" +:+ ".magic".
Proof.
  apply (globbed_name_exact demo_dir demo_file "mymodel" "X7B").
  - vm_compute. by left.
  - reflexivity.
Defined.

(** ** Archives and their metadata *)

Lemma str_map_app f s t : str_map f (s +:+ t) = str_map f s +:+ str_map f t.
Proof. induction s as [|x s IH]; simpl; [done | by rewrite IH]. Qed.

Lemma str_map_split f n : forall a b,
  str_map f n = a +:+ b -> exists p s, n = p +:+ s /\ str_map f p = a /\ str_map f s = b.
Proof.
  induction n as [|x n IH]; intros a b; simpl.
  - destruct a; [|done]. simpl. intros <-. by exists "", "".
  - destruct a as [|y a]; simpl.
    + intros <-. by exists "", (String x n).
    + intros [= <- Hn]. destruct (IH a b Hn) as (p & s & -> & <- & <-).
      by exists (String x p), s.
Qed.

(** X6: the member that [read_model_infos_from_magic] looks for is one
    whose name ends with [metadata.json] in any mix of cases, whatever
    stands before: a directory, or more letters of a longer file name,
    as in [oldMetaData.JSON]. *)
Theorem metadata_name_suffix name :
  is_metadata_name name = true <->
  exists p s, name = p +:+ s /\ str_lower s = "metadata.json".
Proof.
  unfold is_metadata_name. rewrite str_endswith_spec. split.
  - intros [q Hq]. apply str_map_split in Hq as (p & s & -> & _ & Hs). by exists p, s.
  - intros (p & s & -> & Hs). exists (str_lower p). unfold str_lower in *.
    by rewrite str_map_app, Hs.
Qed.

(** X7: for a file whose name matches, every exception raised while its
    metadata is read is caught: the archive that cannot be opened, the
    archive without a metadata member ([FileNotFoundError]), and any
    failure to read, decode or parse the member.  The loop prints one
    line with the exception and goes on with the registry unchanged. *)
Theorem archive_error_skips_file `{PyLib} cfg registry p :
  is_Some (FILENAME_RE_match (entry_name p)) ->
  (forall e, zip_open (entry_bytes p) = Raise e ->
     process_file cfg registry p = Prog [Print (MsgError (entry_name p) e)] (Ok registry)) /\
  (forall members, zip_open (entry_bytes p) = Ok members ->
     Forall (fun m => is_metadata_name m.1 = false) members ->
     process_file cfg registry p
     = Prog [Print (MsgError (entry_name p) FileNotFoundError)] (Ok registry)) /\
  (forall e, read_model_infos_from_magic (entry_bytes p) = Raise e ->
     process_file cfg registry p = Prog [Print (MsgError (entry_name p) e)] (Ok registry)).
Proof.
  intros [[name build_id] Hname].
  assert (forall e, read_model_infos_from_magic (entry_bytes p) = Raise e ->
     process_file cfg registry p = Prog [Print (MsgError (entry_name p) e)] (Ok registry))
    as Hskip.
  { intros e He. unfold process_file. by rewrite Hname, He. }
  split_and!; [| |done].
  - intros e He. apply Hskip. unfold read_model_infos_from_magic. by rewrite He.
  - intros members Hopen Hnone. apply Hskip.
    unfold read_model_infos_from_magic. rewrite Hopen. simpl.
    replace (List.find is_metadata_name (map fst members)) with (@None string); [done|].
    symmetry. clear Hopen.
    induction Hnone as [|m members Hm _ IH]; simpl; [done|]. by rewrite Hm.
Qed.

Lemma archive_error_skips_file_witness :
  process_file (H := ref_lib (fun _ => Raise BadZipFile)) demo_cfg demo_catalog demo_file
  = Prog [Print (MsgError "mymodel_X7B.magic" BadZipFile)] (Ok demo_catalog).
Proof.
  apply (proj1 (archive_error_skips_file (H := ref_lib (fun _ => Raise BadZipFile))
                  demo_cfg demo_catalog demo_file (ex_intro _ ("mymodel", "X7B") eq_refl))
           BadZipFile).
  reflexivity.
Defined.

Lemma process_files_fails `{PyLib} cfg files registry p e :
  p ∈ files -> file_plan cfg p = Fails e ->
  exists e', outcome (process_files cfg registry files) = Raise e'.
Proof.
  intros Hp Hplan. revert registry.
  induction files as [|q files IH]; intros registry; [by apply elem_of_nil in Hp|].
  simpl. destruct (process_file cfg registry q) as [t [r|e0]] eqn:Hq; prog_cbn;
    [|by exists e0].
  apply elem_of_cons in Hp as [<-|Hp].
  - rewrite process_file_plan, Hplan in Hq. done.
  - destruct (IH Hp r) as [e' He']. exists e'.
    destruct (process_files cfg r files); by simplify_eq/=.
Qed.

(** A run that raises has written nothing. *)
Lemma main_no_write_on_raise `{PyLib} cfg dist_dir fs e :
  outcome (main cfg dist_dir fs) = Raise e ->
  writes (trace (main cfg dist_dir fs)) = [] /\
  file_after fs (trace (main cfg dist_dir fs)) = fs.
Proof.
  intros Hrun.
  assert (writes (trace (main cfg dist_dir fs)) = []) as Hw.
  { destruct dist_dir as [entries|]; [|done]. revert Hrun. unfold main.
    destruct (load_registry_outcome fs) as (t0 & registry & -> & Ht0). prog_cbn.
    destruct (glob_magic entries) as [|p rest]; [done|].
    pose proof (process_files_no_writes cfg (p :: rest) registry) as Ht1.
    destruct (process_files cfg registry (p :: rest)) as [t1 [r1|e1]]; prog_cbn;
      cbn [trace] in Ht1; [|by rewrite writes_app, Ht0, Ht1].
    destruct (save_registry_outcome r1) as [[text ->]|[e2 ->]]; prog_cbn; [done|].
    by rewrite !writes_app, Ht0, Ht1. }
  split; [done|]. unfold file_after. by rewrite Hw.
Qed.

(** X8: metadata that parses to a JSON value other than an object (a
    list, a string, a number, [null]) is not caught by the handler of
    the loop: [infos.get] raises outside the [try].  The run ends with
    that exception or with an earlier one, nothing is written, and the
    upserts of the files before are lost. *)
Theorem non_object_metadata_aborts `{PyLib} cfg entries fs p v :
  p ∈ glob_magic entries ->
  is_Some (FILENAME_RE_match (entry_name p)) ->
  read_model_infos_from_magic (entry_bytes p) = Ok v ->
  ~ is_dict v ->
  exists e, outcome (main cfg (Some entries) fs) = Raise e /\
            writes (trace (main cfg (Some entries) fs)) = [] /\
            file_after fs (trace (main cfg (Some entries) fs)) = fs.
Proof.
  intros Hp [[name build_id] Hname] Hread Hv.
  assert (file_plan cfg p = Fails AttributeError) as Hplan.
  { unfold file_plan. rewrite Hname, Hread. by destruct v. }
  assert (exists e, outcome (main cfg (Some entries) fs) = Raise e) as [e He].
  { unfold main. destruct (load_registry_outcome fs) as (t0 & registry & -> & Ht0). prog_cbn.
    destruct (glob_magic entries) as [|q rest] eqn:Hglob; [by apply elem_of_nil in Hp|].
    destruct (process_files_fails cfg (q :: rest) registry p _ Hp Hplan) as [e He].
    exists e. destruct (process_files cfg registry (q :: rest)) as [t1 r1].
    cbn [outcome] in He. subst r1. by prog_cbn. }
  exists e. split; [done|]. by apply (main_no_write_on_raise _ _ _ e).
Qed.

Lemma non_object_metadata_aborts_witness :
  exists e,
    outcome (main (H := demo_lib) demo_cfg (Some [demo_file; demo_list_file]) Absent)
    = Raise e /\
    writes (trace (main (H := demo_lib) demo_cfg (Some [demo_file; demo_list_file]) Absent))
    = [] /\
    file_after Absent
      (trace (main (H := demo_lib) demo_cfg (Some [demo_file; demo_list_file]) Absent))
    = Absent.
Proof.
  apply (non_object_metadata_aborts (H := demo_lib) demo_cfg [demo_file; demo_list_file]
           Absent demo_list_file (JArr [JStr "2.1"])).
  - vm_compute. right. left.
  - by eexists.
  - vm_compute. reflexivity.
  - intros [].
Defined.

(** ** A catalog entry that is not an object *)

Lemma mapM_sort_key_non_dict ms :
  Exists (fun m => ~ is_dict m) ms -> mapM sort_key ms = Raise AttributeError.
Proof.
  induction 1 as [m ms Hm|m ms _ IH]; simpl.
  - by destruct m as [| | | | | |kvs]; try done; destruct Hm.
  - destruct (sort_key m) as [k|e] eqn:Hk; simpl.
    + by rewrite IH.
    + destruct m; try done; cbv in Hk; congruence.
Qed.

(** The loop of [upsert_model] over a list with an item that is not a
    dict: it raises at that item, or it breaks before it. *)
Lemma upsert_scan_non_dict items e i :
  is_dict e -> Exists (fun m => ~ is_dict m) items ->
  upsert_scan items e i = Raise AttributeError \/
  exists j, upsert_scan items e i = Ok (Some j) /\
            Exists (fun m => ~ is_dict m) (<[(j - i)%nat := e]> items).
Proof.
  intros He Hex. revert i. induction Hex as [m items Hm|m items Hex IH]; intros i; simpl.
  - left. by destruct m as [| | | | | |kvs]; try done; destruct Hm.
  - destruct m as [| | | | | |kvs]; try (by left).
    rewrite (same_key_dict (JObj kvs) e) by done. simpl.
    destruct (key_eq (JObj kvs) e).
    + right. exists i. split; [done|]. rewrite Nat.sub_diag. simpl. by right.
    + destruct (IH (S i)) as [Hr | (j & Hj & Hex')]; [by left | right].
      exists j. split; [done|].
      assert (S i <= j)%nat as Hle.
      { clear -Hj. revert Hj. generalize (S i).
        induction items as [|x items IH]; intros n; simpl.
        - done.
        - destruct (same_key x e) as [[]|]; simpl; [intros [= <-]; lia | | done].
          intros Hj%IH. lia. }
      replace (j - i)%nat with (S (j - S i)) by lia. simpl. by right.
Qed.

Lemma upsert_model_non_dict registry ms e :
  is_dict e ->
  getitem registry "models" = Ok (JArr ms) ->
  Exists (fun m => ~ is_dict m) ms ->
  upsert_model registry e = Raise AttributeError \/
  exists registry' ms',
    upsert_model registry e = Ok registry' /\
    getitem registry' "models" = Ok (JArr ms') /\
    Exists (fun m => ~ is_dict m) ms'.
Proof.
  intros He Hget Hex. unfold upsert_model. rewrite Hget. simpl.
  destruct (upsert_scan_non_dict ms e 0%nat He Hex) as [-> | (j & -> & Hex')]; [by left|].
  rewrite Nat.sub_0_r in Hex'. right. simpl.
  exists (with_models registry (JArr (<[j := e]> ms))), (<[j := e]> ms).
  split_and!; [done | by eapply getitem_with_models | done].
Qed.

Lemma process_files_non_dict `{PyLib} cfg files registry ms :
  getitem registry "models" = Ok (JArr ms) ->
  Exists (fun m => ~ is_dict m) ms ->
  outcome (process_files cfg registry files) = Raise AttributeError \/
  exists registry' ms',
    outcome (process_files cfg registry files) = Ok registry' /\
    getitem registry' "models" = Ok (JArr ms') /\
    Exists (fun m => ~ is_dict m) ms'.
Proof.
  revert registry ms. induction files as [|p files IH]; intros registry ms Hget Hex; simpl.
  - right. by exists registry, ms.
  - rewrite process_file_plan.
    destruct (file_plan cfg p) as [line|e|entry line] eqn:Hplan.
    + prog_cbn. by eapply IH.
    + left. unfold file_plan in Hplan.
      destruct (FILENAME_RE_match _) as [[name build_id]|]; [|done].
      destruct (read_model_infos_from_magic _) as [[]|]; try done;
        injection Hplan as <-; by prog_cbn.
    + pose proof (file_plan_entry_dict cfg p entry line Hplan) as He.
      destruct (upsert_model_non_dict registry ms entry He Hget Hex)
        as [-> | (r1 & ms1 & -> & Hget1 & Hex1)]; [by left|].
      prog_cbn. by eapply IH.
Qed.

Lemma main_non_dict_raises `{PyLib} cfg entries fs t0 registry ms :
  load_registry fs = Prog t0 (Ok registry) ->
  getitem registry "models" = Ok (JArr ms) ->
  Exists (fun m => ~ is_dict m) ms ->
  glob_magic entries <> [] ->
  outcome (main cfg (Some entries) fs) = Raise AttributeError.
Proof.
  intros Hload Hget Hex Hne.
  destruct (glob_magic entries) as [|p rest] eqn:Hglob; [done|].
  rewrite (main_candidates cfg entries fs p rest Hglob), Hload. prog_cbn.
  destruct (process_files_non_dict cfg (p :: rest) registry ms Hget Hex)
    as [Hr | (r' & ms' & Hr & Hget' & Hex')].
  - destruct (process_files cfg registry (p :: rest)) as [t r]. cbn [outcome] in Hr.
    subst r. by prog_cbn.
  - destruct (process_files cfg registry (p :: rest)) as [t r]. cbn [outcome] in Hr.
    subst r. prog_cbn. unfold save_registry. rewrite Hget'. prog_cbn.
    unfold method_sort. by rewrite (mapM_sort_key_non_dict ms' Hex').
Qed.

(** X9: when the catalog that was loaded holds, in its list of models,
    an item that is not an object, every run over a directory with a
    candidate file ends with [AttributeError] and writes nothing: an
    upsert either raises at that item or leaves it in the list, and
    [save_registry] raises on it when it computes the sort keys. *)
Theorem non_dict_entry_blocks_run `{PyLib} cfg entries fs t0 registry ms :
  load_registry fs = Prog t0 (Ok registry) ->
  getitem registry "models" = Ok (JArr ms) ->
  Exists (fun m => ~ is_dict m) ms ->
  glob_magic entries <> [] ->
  outcome (main cfg (Some entries) fs) = Raise AttributeError /\
  writes (trace (main cfg (Some entries) fs)) = [] /\
  file_after fs (trace (main cfg (Some entries) fs)) = fs.
Proof.
  intros Hload Hget Hex Hne.
  pose proof (main_non_dict_raises cfg entries fs t0 registry ms Hload Hget Hex Hne) as Hrun.
  split; [done|]. by apply (main_no_write_on_raise _ _ _ AttributeError).
Qed.

Lemma non_dict_entry_blocks_run_witness :
  outcome (main (H := demo_lib) demo_cfg (Some [demo_file])
             (Present (Ok (ref_dumps demo_corrupt_catalog)))) = Raise AttributeError /\
  writes (trace (main (H := demo_lib) demo_cfg (Some [demo_file])
                   (Present (Ok (ref_dumps demo_corrupt_catalog))))) = [] /\
  file_after (Present (Ok (ref_dumps demo_corrupt_catalog)))
    (trace (main (H := demo_lib) demo_cfg (Some [demo_file])
              (Present (Ok (ref_dumps demo_corrupt_catalog)))))
  = Present (Ok (ref_dumps demo_corrupt_catalog)).
Proof.
  apply (non_dict_entry_blocks_run (H := demo_lib) demo_cfg [demo_file]
           (Present (Ok (ref_dumps demo_corrupt_catalog))) [] demo_corrupt_catalog
           [JStr "mymodel"]).
  - vm_compute. reflexivity.
  - reflexivity.
  - constructor. intros [].
  - vm_compute. discriminate.
Defined.

(** ** Upserts *)

Lemma upsert_list_length ms e :
  length (upsert_list ms e) =
    match first_with_key e ms with
    | Some _ => length ms
    | None => S (length ms)
    end.
Proof.
  unfold first_with_key. induction ms as [|m ms IH]; simpl; [done|].
  destruct (key_eq m e); simpl; [done|]. rewrite IH. by destruct (List.find _ ms).
Qed.

(** An entry whose name or version is NaN is appended, and no lookup
    by its key finds an entry. *)
Lemma upsert_list_nan ms e :
  key_eq e e = false ->
  upsert_list ms e = ms ++ [e] /\ first_with_key e (ms ++ [e]) = None.
Proof.
  intros He. unfold first_with_key.
  induction ms as [|m ms [IH1 IH2]]; simpl.
  - by rewrite He.
  - by rewrite (key_eq_nan m e He), IH1, IH2.
Qed.

(** X10: after [upsert_model] has returned, looking the entry up by its
    identity key finds the entry itself, unless the name or the version
    of the entry is NaN: such an entry has the key of no entry, itself
    included, so it is appended and no lookup finds it.  The lookup of
    every other key gives what it gave before; the list has kept its
    length when the key was there and has one more entry when it was
    not. *)
Theorem upsert_then_lookup registry e registry' :
  is_dict e -> upsert_model registry e = Ok registry' ->
  exists ms ms',
    getitem registry "models" = Ok (JArr ms) /\
    getitem registry' "models" = Ok (JArr ms') /\
    first_with_key e ms' = (if key_eq e e then Some e else None) /\
    (key_eq e e = false -> ms' = ms ++ [e]) /\
    (forall k, key_eq e k = false -> first_with_key k ms' = first_with_key k ms) /\
    length ms' = match first_with_key e ms with
                 | Some _ => length ms
                 | None => S (length ms)
                 end.
Proof.
  intros He Hup. destruct (upsert_model_ok registry e registry' He Hup) as (ms & Hget & ->).
  exists ms, (upsert_list ms e). split_and!; try done.
  - by eapply getitem_with_models.
  - destruct (key_eq e e) eqn:Hself.
    + by apply first_with_key_upsert_same.
    + destruct (upsert_list_nan ms e Hself) as [-> ->]. done.
  - intros Hself. by destruct (upsert_list_nan ms e Hself) as [-> _].
  - intros k Hk. by apply first_with_key_upsert_other.
  - apply upsert_list_length.
Qed.

Lemma upsert_then_lookup_witness :
  exists ms ms',
    getitem demo_catalog "models" = Ok (JArr ms) /\
    getitem (JObj [("models", JArr [demo_other_entry; demo_old_entry; demo_nan_entry])]) "models"
    = Ok (JArr ms') /\
    first_with_key demo_nan_entry ms'
    = (if key_eq demo_nan_entry demo_nan_entry then Some demo_nan_entry else None) /\
    (key_eq demo_nan_entry demo_nan_entry = false -> ms' = ms ++ [demo_nan_entry]) /\
    (forall k, key_eq demo_nan_entry k = false ->
               first_with_key k ms' = first_with_key k ms) /\
    length ms' = match first_with_key demo_nan_entry ms with
                 | Some _ => length ms
                 | None => S (length ms)
                 end.
Proof.
  apply (upsert_then_lookup demo_catalog demo_nan_entry).
  - exact I.
  - reflexivity.
Defined.

(** X11: of two upserts in a row with the same identity key, the second
    wins: the catalog is the one that the second upsert alone gives.  So
    two archives whose metadata agree on name and version leave one
    entry, that of the archive processed last. *)
Theorem upsert_last_wins registry ms e1 e2 :
  getitem registry "models" = Ok (JArr ms) -> Forall is_dict ms ->
  is_dict e1 -> is_dict e2 -> key_eq e2 e1 = true ->
  exists r1, upsert_model registry e1 = Ok r1 /\
             upsert_model r1 e2 = upsert_model registry e2.
Proof.
  intros Hget Hms He1 He2 Hkey. eexists. split; [by apply upsert_model_list|].
  rewrite (upsert_model_list _ (upsert_list ms e1) e2), (upsert_model_list registry ms e2);
    try done.
  - by rewrite with_models_twice, upsert_list_overwrite.
  - by eapply getitem_with_models.
  - by apply upsert_list_dicts.
Qed.

Lemma upsert_last_wins_witness :
  exists r1, upsert_model demo_catalog demo_old_entry = Ok r1 /\
             upsert_model r1 demo_new_entry = upsert_model demo_catalog demo_new_entry.
Proof.
  apply (upsert_last_wins demo_catalog [demo_other_entry; demo_old_entry]
           demo_old_entry demo_new_entry).
  - reflexivity.
  - repeat constructor.
  - exact I.
  - exact I.
  - reflexivity.
Defined.

Lemma unique_keys_upsert_list_inv ms e :
  unique_keys (upsert_list ms e) -> unique_keys ms.
Proof.
  rewrite upsert_list_find. intros Huniq i j m m' Hi Hj Hkey.
  destruct (list_find _ ms) as [[p mp]|] eqn:Hfind.
  - apply list_find_Some in Hfind as (Hp & Hpe & _).
    destruct (decide (i = p)) as [->|Hip], (decide (j = p)) as [->|Hjp]; try done.
    + assert (mp = m) as -> by congruence.
      apply (Huniq p j e m'); [apply list_lookup_insert_eq; by eapply lookup_lt_Some
                              | by rewrite list_lookup_insert_ne |].
      rewrite <- (key_eq_congr m m' e Hkey). by rewrite key_eq_sym.
    + assert (mp = m') as -> by congruence.
      apply (Huniq i p m e); [by rewrite list_lookup_insert_ne
                             | apply list_lookup_insert_eq; by eapply lookup_lt_Some |].
      by rewrite <- (key_eq_congr m' e m Hpe).
    + apply (Huniq i j m m'); by rewrite ?list_lookup_insert_ne.
  - apply (Huniq i j m m'); try done; by apply lookup_app_l_Some.
Qed.

(** X12: an upsert does not repair a catalog: when the list after the
    upsert has one entry per identity key, the list before had it too.
    A catalog with two entries of one key keeps two after every
    upsert, since only the first of them is ever replaced. *)
Theorem upsert_never_repairs registry e registry' ms ms' :
  is_dict e -> upsert_model registry e = Ok registry' ->
  getitem registry "models" = Ok (JArr ms) ->
  getitem registry' "models" = Ok (JArr ms') ->
  unique_keys ms' -> unique_keys ms.
Proof.
  intros He Hup Hget Hget'.
  destruct (upsert_model_ok registry e registry' He Hup) as (ms0 & Hget0 & ->).
  rewrite Hget in Hget0. injection Hget0 as <-.
  rewrite (getitem_with_models registry _ _ Hget) in Hget'. injection Hget' as <-.
  apply unique_keys_upsert_list_inv.
Qed.

Lemma upsert_never_repairs_witness : unique_keys [demo_other_entry; demo_old_entry].
Proof.
  apply (upsert_never_repairs demo_catalog demo_new_entry
           (JObj [("models", JArr [demo_other_entry; demo_new_entry])])
           [demo_other_entry; demo_old_entry] [demo_other_entry; demo_new_entry]).
  - exact I.
  - reflexivity.
  - reflexivity.
  - reflexivity.
  - intros i j m m' Hi Hj Hk.
    destruct i as [|[|i]]; destruct j as [|[|j]]; simpl in Hi, Hj;
      try discriminate; try reflexivity;
      injection Hi as ?; injection Hj as ?; subst; vm_compute in Hk; discriminate Hk.
Defined.

(** ** The catalog that a run writes *)

Lemma process_files_skips `{PyLib} cfg files registry t registry' :
  entries_of cfg files = [] ->
  process_files cfg registry files = Prog t (Ok registry') -> registry' = registry.
Proof.
  revert registry t. unfold entries_of.
  induction files as [|p files IH]; intros registry t; simpl.
  - by intros _ [= _ <-].
  - rewrite process_file_plan.
    destruct (file_plan cfg p) as [line|e|entry line]; try done.
    intros Hes. prog_cbn.
    destruct (process_files cfg registry files) as [t' [r'|]] eqn:Hrest; [|done].
    prog_cbn. intros [= _ <-]. by eapply IH.
Qed.

Lemma is_dict_dec (m : json) : {is_dict m} + {~ is_dict m}.
Proof. destruct m; [right|right|right|right|right|right|left]; simpl; tauto. Defined.

(** A run that completes over a directory with a candidate file has
    loaded a catalog with a list of models, all of them dicts; no file
    failed; and the run has written that catalog with the list upserted
    with the entries of the files, then sorted. *)
Lemma main_written `{PyLib} cfg entries fs code :
  glob_magic entries <> [] ->
  outcome (main cfg (Some entries) fs) = Ok code ->
  exists t0 registry ms,
    load_registry fs = Prog t0 (Ok registry) /\
    getitem registry "models" = Ok (JArr ms) /\
    Forall is_dict (fold_left upsert_list (entries_of cfg (glob_magic entries)) ms) /\
    writes (trace (main cfg (Some entries) fs)) =
      [json_dumps
         (with_models registry
            (JArr (sorted_models
                     (fold_left upsert_list (entries_of cfg (glob_magic entries)) ms))))] /\
    Forall is_dict ms /\
    Forall (fun p => forall e, file_plan cfg p <> Fails e) (glob_magic entries) /\
    comparable (map sort_key_of
                  (fold_left upsert_list (entries_of cfg (glob_magic entries)) ms)) = true.
Proof.
  intros Hne Hrun. pose proof Hrun as Hrun'. revert Hrun'.
  destruct (glob_magic entries) as [|p rest] eqn:Hglob; [done|].
  rewrite !(main_candidates cfg entries fs p rest Hglob).
  destruct (load_registry_outcome fs) as (t0 & registry0 & Hload & Ht0). rewrite Hload.
  prog_cbn.
  destruct (process_files cfg registry0 (p :: rest)) as [t1 [registry1|e]] eqn:Hloop;
    [|done].
  pose proof (process_files_no_writes cfg (p :: rest) registry0) as Ht1.
  rewrite Hloop in Ht1. prog_cbn. cbn [trace] in Ht1.
  destruct (save_registry registry1) as [t2 [[]|e]] eqn:Hsave; [|done]. prog_cbn.
  intros _.
  destruct (save_registry_ok registry1 t2 Hsave) as (ms1 & Hget1 & Hms1 & Hcmp1 & ->).
  destruct (process_files_ok cfg (p :: rest) registry0 t1 registry1 (JArr ms1) Hloop Hget1)
    as (Hfiles & models0 & Hget0 & Hreg & Hfold & Hsome).
  assert (exists ms, models0 = JArr ms) as [ms ->].
  { destruct (entries_of cfg (p :: rest)) as [|e es] eqn:Hes; [|by apply Hsome].
    apply (process_files_skips cfg _ _ _ _ Hes) in Hloop. subst registry1.
    exists ms1. congruence. }
  specialize (Hfold ms eq_refl). injection Hfold as ->.
  exists t0, registry0, ms. split_and!; try done.
  - rewrite !writes_app, Ht0, Ht1. simpl. rewrite Hreg at 1. by rewrite with_models_twice.
  - destruct (Forall_Exists_dec is_dict is_dict_dec ms) as [Hd|Hex]; [done|].
    assert (glob_magic entries <> []) as Hne' by (by rewrite Hglob).
    rewrite (main_non_dict_raises cfg entries fs t0 registry0 ms Hload Hget0 Hex Hne') in Hrun.
    done.
Qed.

Lemma first_with_key_untouched es ms k :
  latest es k = None ->
  first_with_key k (fold_left upsert_list es ms) = first_with_key k ms.
Proof.
  rewrite latest_none. intros Hes. revert ms.
  induction Hes as [|e es He _ IH]; intros ms; simpl; [done|].
  by rewrite IH, first_with_key_upsert_other.
Qed.

(** X13: in the catalog that a run writes, when no name or version in
    play is NaN or holds one, the lookup of an identity key gives the
    entry of the last file of the run that has this key; for a key that
    no file of the run has, it gives what it gave in the catalog that
    was loaded. *)
Theorem main_catalog_contents `{PyLib} cfg entries fs code :
  glob_magic entries <> [] ->
  outcome (main cfg (Some entries) fs) = Ok code ->
  forallb key_nan_free (loaded_models fs ++ run_entries cfg (Some entries)) = true ->
  exists t0 registry ms written final,
    load_registry fs = Prog t0 (Ok registry) /\
    getitem registry "models" = Ok (JArr ms) /\
    writes (trace (main cfg (Some entries) fs)) = [json_dumps written] /\
    getitem written "models" = Ok (JArr final) /\
    forall k, first_with_key k final =
      match latest (entries_of cfg (glob_magic entries)) k with
      | Some e => Some e
      | None => first_with_key k ms
      end.
Proof.
  intros Hne Hrun _.
  destruct (main_written cfg entries fs code Hne Hrun)
    as (t0 & registry & ms & Hload & Hget & Hdicts & Hw & _).
  exists t0, registry, ms. eexists _, _. split_and!; try done.
  { by eapply getitem_with_models. }
  intros k. rewrite first_with_key_sorted by done.
  destruct (latest _ k) as [e|] eqn:Hk.
  - by apply first_with_key_after_upserts.
  - by apply first_with_key_untouched.
Qed.

Lemma main_catalog_contents_witness :
  exists t0 registry ms written final,
    load_registry (H := demo_lib) Absent = Prog t0 (Ok registry) /\
    getitem registry "models" = Ok (JArr ms) /\
    writes (trace (main (H := demo_lib) demo_cfg (Some demo_dir) Absent))
    = [json_dumps (PyLib := demo_lib) written] /\
    getitem written "models" = Ok (JArr final) /\
    forall k, first_with_key k final =
      match latest (entries_of (H := demo_lib) demo_cfg (glob_magic demo_dir)) k with
      | Some e => Some e
      | None => first_with_key k ms
      end.
Proof.
  apply (main_catalog_contents (H := demo_lib) demo_cfg demo_dir Absent 0).
  - discriminate.
  - reflexivity.
  - reflexivity.
Defined.

Lemma unique_keys_cons m ms :
  unique_keys (m :: ms) <-> Forall (fun x => key_eq m x = false) ms /\ unique_keys ms.
Proof.
  split.
  - intros Huniq. split.
    + apply list.Forall_forall. intros x [j Hj]%list_elem_of_lookup.
      destruct (key_eq m x) eqn:Hk; [|done].
      by specialize (Huniq 0%nat (S j) m x eq_refl Hj Hk).
    + intros i j x y Hi Hj Hk.
      by specialize (Huniq (S i) (S j) x y Hi Hj Hk) as [= ->].
  - intros [Hm Huniq] i j x y Hi Hj Hk.
    rewrite list.Forall_forall in Hm.
    destruct i as [|i], j as [|j]; simpl in *; try done.
    + injection Hi as <-.
      rewrite Hm in Hk; [done|]. by eapply list_elem_of_lookup_2.
    + injection Hj as <-. rewrite key_eq_sym in Hk.
      rewrite Hm in Hk; [done|]. by eapply list_elem_of_lookup_2.
    + f_equal. by eapply Huniq.
Qed.

Lemma unique_keys_distinct ms : unique_keys ms <-> distinct_keys ms.
Proof.
  induction ms as [|m ms IH]; simpl.
  - split; [done|]. by intros _ i j x y Hi.
  - by rewrite unique_keys_cons, IH.
Qed.

Lemma distinct_keys_perm ms ms' : ms ≡ₚ ms' -> distinct_keys ms -> distinct_keys ms'.
Proof.
  induction 1 as [|x l l' Hl IH|x y l|l1 l2 l3 _ IH1 _ IH2]; simpl.
  - done.
  - intros [Hx Hd]. split; [by rewrite <- Hl | by apply IH].
  - intros [Hy [Hx Hd]]. inversion_clear Hy as [|? ? Hyx Hy'].
    split_and!; try done. constructor; [by rewrite key_eq_sym | done].
  - intros Hd. by apply IH2, IH1.
Qed.

Lemma unique_keys_upsert_list ms e : unique_keys ms -> unique_keys (upsert_list ms e).
Proof.
  intros Huniq. rewrite upsert_list_find.
  destruct (list_find _ ms) as [[i m]|] eqn:Hfind.
  - apply list_find_Some in Hfind as (Hi & He & _). by eapply unique_keys_insert.
  - apply unique_keys_snoc; [done|]. intros m Hm.
    rewrite list_find_None, list.Forall_forall in Hfind.
    specialize (Hfind m Hm). by destruct (key_eq m e).
Qed.




Lemma upsert_list_keeps ms e m :
  m ∈ ms -> key_eq m e = false -> m ∈ upsert_list ms e.
Proof.
  induction ms as [|x ms IH]; simpl; [by intros ?%elem_of_nil|].
  intros [->|Hm]%elem_of_cons Hk.
  - rewrite Hk. by left.
  - destruct (key_eq x e); right; [done | by apply IH].
Qed.

Lemma upserts_keep es ms m :
  m ∈ ms -> Forall (fun e => key_eq m e = false) es -> m ∈ fold_left upsert_list es ms.
Proof.
  intros Hm Hes. revert ms Hm. induction Hes as [|e es He _ IH]; intros ms Hm; simpl; [done|].
  by apply IH, upsert_list_keeps.
Qed.

Lemma upserts_length es ms : (length ms <= length (fold_left upsert_list es ms))%nat.
Proof.
  revert ms. induction es as [|e es IH]; intros ms; simpl; [done|].
  etransitivity; [|apply IH]. rewrite upsert_list_length.
  destruct (first_with_key e ms); lia.
Qed.

(** X15: a run never prunes the catalog: the catalog that is written
    has at least as many entries as the one that was loaded, and an
    entry whose identity key no file of the run has is still in it, for
    instance the entry of an archive that was removed from the
    directory. *)
Theorem main_never_prunes `{PyLib} cfg entries fs code :
  glob_magic entries <> [] ->
  outcome (main cfg (Some entries) fs) = Ok code ->
  exists t0 registry ms final,
    load_registry fs = Prog t0 (Ok registry) /\
    getitem registry "models" = Ok (JArr ms) /\
    writes (trace (main cfg (Some entries) fs))
    = [json_dumps (with_models registry (JArr final))] /\
    (length ms <= length final)%nat /\
    forall m, m ∈ ms ->
      Forall (fun e => key_eq m e = false) (entries_of cfg (glob_magic entries)) ->
      m ∈ final.
Proof.
  intros Hne Hrun.
  destruct (main_written cfg entries fs code Hne Hrun)
    as (t0 & registry & ms & Hload & Hget & Hdicts & Hw & _).
  exists t0, registry, ms. eexists. split_and!; try done.
  - rewrite sorted_models_perm. apply upserts_length.
  - intros m Hm Hes. rewrite sorted_models_perm. by apply upserts_keep.
Qed.

Lemma main_never_prunes_witness :
  exists t0 registry ms final,
    load_registry (H := demo_lib) (Present (Ok (ref_dumps demo_catalog)))
    = Prog t0 (Ok registry) /\
    getitem registry "models" = Ok (JArr ms) /\
    writes (trace (main (H := demo_lib) demo_cfg (Some [demo_file])
                     (Present (Ok (ref_dumps demo_catalog)))))
    = [json_dumps (PyLib := demo_lib) (with_models registry (JArr final))] /\
    (length ms <= length final)%nat /\
    forall m, m ∈ ms ->
      Forall (fun e => key_eq m e = false)
             (entries_of (H := demo_lib) demo_cfg (glob_magic [demo_file])) ->
      m ∈ final.
Proof.
  apply (main_never_prunes (H := demo_lib) demo_cfg [demo_file]
           (Present (Ok (ref_dumps demo_catalog))) 0).
  - discriminate.
  - reflexivity.
Defined.

(** X16: a run changes nothing of the catalog but the list of models:
    the catalog that is written has the top-level keys of the one that
    was loaded, in the same order, and the same value under every key
    other than ["models"]. *)
Theorem top_level_keys_kept `{PyLib} cfg entries fs code :
  glob_magic entries <> [] ->
  outcome (main cfg (Some entries) fs) = Ok code ->
  exists t0 registry written,
    load_registry fs = Prog t0 (Ok registry) /\
    writes (trace (main cfg (Some entries) fs)) = [json_dumps written] /\
    same_but_models registry written.
Proof.
  intros Hne Hrun.
  destruct (main_written cfg entries fs code Hne Hrun)
    as (t0 & registry & ms & Hload & Hget & Hdicts & Hw & _).
  exists t0, registry. eexists. split_and!; try done. by eapply with_models_frame.
Qed.

Lemma top_level_keys_kept_witness :
  exists t0 registry written,
    load_registry (H := demo_lib) (Present (Ok (ref_dumps demo_tagged_catalog)))
    = Prog t0 (Ok registry) /\
    writes (trace (main (H := demo_lib) demo_cfg (Some [demo_file])
                     (Present (Ok (ref_dumps demo_tagged_catalog)))))
    = [json_dumps (PyLib := demo_lib) written] /\
    same_but_models registry written.
Proof.
  apply (top_level_keys_kept (H := demo_lib) demo_cfg [demo_file]
           (Present (Ok (ref_dumps demo_tagged_catalog))) 0).
  - discriminate.
  - reflexivity.
Defined.

(** ** The lines of a run *)

(** A file that is upserted has no version warning or one, and it has
    one when its version is NaN. *)
Lemma file_warning_length `{PyLib} cfg p entry line :
  file_plan cfg p = Upsert entry line ->
  (length (file_warning cfg p) <= 1)%nat /\
  (length (file_warning cfg p) = 1%nat -> field entry "version" = JFloat FNan).
Proof.
  unfold file_plan, file_warning.
  destruct (FILENAME_RE_match _) as [[name build_id]|]; [|done].
  destruct (read_model_infos_from_magic _) as [[| | | | | |kvs]|]; try done.
  intros [= <- _]. rewrite version_warning_nan. simpl.
  destruct (dict_get "version" kvs) as [v|]; simpl; [|split; [lia | done]].
  destruct (is_nan v) eqn:Hnan; simpl; [|split; [lia | done]].
  apply is_nan_spec in Hnan as ->. split; [lia | done].
Qed.

Lemma process_files_lines `{PyLib} cfg files registry t registry' :
  process_files cfg registry files = Prog t (Ok registry') ->
  exists chunks, t = concat chunks /\ Forall2 (lines_of_file cfg) files chunks.
Proof.
  revert registry t. induction files as [|p files IH]; intros registry t; simpl.
  - intros [= <- _]. exists []. split; [done | constructor].
  - rewrite process_file_plan.
    destruct (file_plan cfg p) as [line|e|entry line] eqn:Hplan; [|by prog_cbn|].
    + prog_cbn.
      destruct (process_files cfg registry files) as [t' [r'|]] eqn:Hrest; prog_cbn; [|done].
      intros [= <- <-]. destruct (IH _ _ Hrest) as (chunks & -> & Hchunks).
      exists ([Print line] :: chunks). split; [done|]. constructor; [|done].
      left. by exists line.
    + destruct (upsert_model registry entry) as [r1|]; prog_cbn; [|done].
      destruct (process_files cfg r1 files) as [t' [r'|]] eqn:Hrest; prog_cbn; [|done].
      intros [= <- <-]. destruct (IH _ _ Hrest) as (chunks & -> & Hchunks).
      exists ((file_warning cfg p ++ [Print line]) :: chunks). split; [done|].
      constructor; [|done]. right. by exists entry, line.
Qed.

(** X17: the effects of a run that completes over a directory with a
    candidate file, in order: the warnings of [load_registry], then the
    lines of each candidate file, in the order of the listing (one line
    for a file that is ignored or whose archive could not be read; for a
    file whose entry was upserted, the version warning when its version
    is NaN, then the line of the upsert), then the one write of the
    registry file, then the line that reports it.  Nothing is written
    before every file was processed. *)
Theorem main_trace_shape `{PyLib} cfg entries fs code :
  glob_magic entries <> [] ->
  outcome (main cfg (Some entries) fs) = Ok code ->
  exists t0 registry chunks text,
    load_registry fs = Prog t0 (Ok registry) /\
    trace (main cfg (Some entries) fs)
    = t0 ++ concat chunks ++ [WriteRegistry text; Print MsgSaved] /\
    Forall2 (lines_of_file cfg) (glob_magic entries) chunks /\
    Forall2 (fun p chunk => (1 <= length chunk <= 2)%nat /\
                            (length chunk = 2%nat -> exists entry line,
                               file_plan cfg p = Upsert entry line /\
                               field entry "version" = JFloat FNan))
            (glob_magic entries) chunks.
Proof.
  intros Hne. destruct (glob_magic entries) as [|p rest] eqn:Hglob; [done|].
  rewrite !(main_candidates cfg entries fs p rest Hglob).
  destruct (load_registry_outcome fs) as (t0 & registry0 & Hload & Ht0). rewrite Hload.
  prog_cbn.
  destruct (process_files cfg registry0 (p :: rest)) as [t1 [registry1|e]] eqn:Hloop;
    [|done].
  prog_cbn.
  destruct (save_registry_outcome registry1) as [[text ->]|[e ->]]; prog_cbn; [|done].
  intros _. destruct (process_files_lines _ _ _ _ _ Hloop) as (chunks & -> & Hchunks).
  exists t0, registry0, chunks, text. split_and!; try done.
  eapply list.Forall2_impl; [exact Hchunks|]. intros q chunk [(line & Hq & ->)|(entry & line & Hq & ->)].
  - split; [simpl; lia|]. done.
  - pose proof (file_warning_length cfg q entry line Hq) as Hlen.
    rewrite length_app. simpl. split; [lia|]. intros Hl. exists entry, line. split; [done|].
    apply Hlen. lia.
Qed.

Lemma main_trace_shape_witness :
  exists t0 registry chunks text,
    load_registry (H := demo_lib) (Present (Ok "")) = Prog t0 (Ok registry) /\
    trace (main (H := demo_lib) demo_cfg (Some demo_dir) (Present (Ok "")))
    = t0 ++ concat chunks ++ [WriteRegistry text; Print MsgSaved] /\
    Forall2 (lines_of_file (H := demo_lib) demo_cfg) (glob_magic demo_dir) chunks /\
    Forall2 (fun p chunk => (1 <= length chunk <= 2)%nat /\
                            (length chunk = 2%nat -> exists entry line,
                               file_plan (H := demo_lib) demo_cfg p = Upsert entry line /\
                               field entry "version" = JFloat FNan))
            (glob_magic demo_dir) chunks.
Proof.
  apply (main_trace_shape (H := demo_lib) demo_cfg demo_dir (Present (Ok "")) 0).
  - discriminate.
  - reflexivity.
Defined.

(** X18: the files that the loop skips, for their name or for an
    archive that cannot be read, have no effect on the catalog: the loop
    ends with the same catalog, or the same exception, as over the
    listing without these files. *)
Theorem skipped_files_no_effect `{PyLib} cfg files registry :
  outcome (process_files cfg registry files)
  = outcome (process_files cfg registry
               (List.filter (fun p => negb (is_skipped cfg p)) files)).
Proof.
  revert registry. induction files as [|p files IH]; intros registry; simpl; [done|].
  unfold is_skipped at 1. rewrite process_file_plan.
  destruct (file_plan cfg p) as [line|e|entry line] eqn:Hplan; simpl.
  - prog_cbn. apply IH.
  - rewrite process_file_plan, Hplan. by prog_cbn.
  - rewrite process_file_plan, Hplan.
    destruct (upsert_model registry entry) as [r1|]; prog_cbn; [apply IH | done].
Qed.

(** ** Saving and loading again *)

(** X19: what [save_registry] wrote, [load_registry] reads back without
    a warning, provided [json.loads] reads back what [json.dump] writes;
    and saving the catalog that was read writes the same text again. *)
Theorem save_then_load `{L : PyLib} `{!JsonRoundTrip L} registry t :
  save_registry registry = Prog t (Ok tt) ->
  exists written,
    t = [WriteRegistry (json_dumps written)] /\
    load_registry (file_after Absent t) = Prog [] (Ok written) /\
    save_registry written = Prog t (Ok tt).
Proof.
  intros Hsave.
  destruct (save_registry_ok registry t Hsave) as (ms & Hget & Hms & Hcmp & ->).
  assert (getitem (with_models registry (JArr (sorted_models ms))) "models"
          = Ok (JArr (sorted_models ms))) as Hgetw
    by (by eapply getitem_with_models).
  exists (with_models registry (JArr (sorted_models ms))). split_and!; [done | |].
  - unfold file_after. simpl. apply load_registry_written.
  - rewrite (save_registry_dicts _ (sorted_models ms) Hgetw).
    + by rewrite sorted_models_fixed, (with_models_same _ _ Hgetw).
    + by apply sorted_models_dicts.
    + by apply sorted_models_comparable.
Qed.

Lemma save_then_load_witness :
  exists written,
    trace (save_registry (H := demo_lib) demo_catalog)
    = [WriteRegistry (json_dumps (PyLib := demo_lib) written)] /\
    load_registry (H := demo_lib)
      (file_after Absent (trace (save_registry (H := demo_lib) demo_catalog)))
    = Prog [] (Ok written) /\
    save_registry (H := demo_lib) written
    = Prog (trace (save_registry (H := demo_lib) demo_catalog)) (Ok tt).
Proof.
  apply (save_then_load (L := demo_lib) (JsonRoundTrip0 := ref_lib_round_trip bare_archive)
           demo_catalog (trace (save_registry (H := demo_lib) demo_catalog))).
  reflexivity.
Defined.

(** ** The download address *)

(** X20: the download address of a file ends with [/magic/upload/] and
    the name of the file as it is, in both modes.  With
    [DEV_SERVER_IP] unset or empty it is the address of the file on the
    default branch of the repository; with [DEV_SERVER_IP] set it is an
    [http] address on that host, on the port [8000] unless
    [DEV_SERVER_PORT] is set. *)
Theorem download_url_target cfg file_name :
  str_endswith (download_url cfg file_name) ("/magic/upload/" +:+ file_name) = true /\
  (DEV_SERVER_IP cfg = None \/ DEV_SERVER_IP cfg = Some "" ->
   download_url cfg file_name =
     "https://raw.githubusercontent.com/" +:+ REPO_OWNER cfg +:+ "/" +:+ REPO_NAME cfg
     +:+ "/" +:+ DEFAULT_BRANCH cfg +:+ "/magic/upload/" +:+ file_name) /\
  (forall ip, DEV_SERVER_IP cfg = Some ip -> ip <> "" ->
   download_url cfg file_name =
     "http://" +:+ ip +:+ ":" +:+ default "8000" (DEV_SERVER_PORT cfg)
     +:+ "/magic/upload/" +:+ file_name).
Proof.
  split_and!.
  - apply str_endswith_spec. unfold download_url.
    destruct (DEV_SERVER_IP cfg) as [ip|]; [destruct (negb _)|].
    + exists ("http://" +:+ ip +:+ ":" +:+ default "8000" (DEV_SERVER_PORT cfg)).
      by rewrite !str_app_assoc.
    + exists ("https://raw.githubusercontent.com/" +:+ REPO_OWNER cfg +:+ "/"
              +:+ REPO_NAME cfg +:+ "/" +:+ DEFAULT_BRANCH cfg).
      by rewrite !str_app_assoc.
    + exists ("https://raw.githubusercontent.com/" +:+ REPO_OWNER cfg +:+ "/"
              +:+ REPO_NAME cfg +:+ "/" +:+ DEFAULT_BRANCH cfg).
      by rewrite !str_app_assoc.
  - unfold download_url. by intros [-> | ->].
  - unfold download_url. intros ip -> Hip%string_eqb_false. by rewrite Hip.
Qed.

(** ** The module constants *)

Lemma str_count_cons c x s :
  str_count c (String x s) = ((if Ascii.eqb c x then 1 else 0) + str_count c s)%nat.
Proof. unfold str_count. simpl. by destruct (Ascii.eqb c x). Qed.

Lemma str_split_plain sep s : str_count sep s = 0%nat -> str_split sep s = [s].
Proof.
  induction s as [|x s IH]; [done|]. rewrite str_count_cons. simpl.
  rewrite (Ascii.eqb_sym x sep). destruct (Ascii.eqb sep x); [done|]. simpl.
  intros Hs. by rewrite IH.
Qed.

Lemma str_split_app sep a r :
  str_count sep a = 0%nat ->
  str_split sep (a +:+ String sep r) = a :: str_split sep r.
Proof.
  induction a as [|x a IH]; simpl.
  - intros _. by rewrite Ascii.eqb_refl.
  - rewrite str_count_cons, (Ascii.eqb_sym x sep). destruct (Ascii.eqb sep x); [done|]. simpl.
    intros Ha. by rewrite IH.
Qed.

(** X21: the constants [REPO_OWNER] and [REPO_NAME].  Without
    [GITHUB_REPOSITORY] they are [owner] and [repo].  With
    [GITHUB_REPOSITORY] set to an owner, a slash and a name, they are
    that owner and that name; what follows a second slash is dropped. *)
Theorem repository_split env today :
  (dict_get "GITHUB_REPOSITORY" env = None ->
   exists cfg, module_constants env today = Ok cfg /\
               REPO_OWNER cfg = "owner" /\ REPO_NAME cfg = "repo") /\
  (forall owner name tail,
     dict_get "GITHUB_REPOSITORY" env = Some (owner +:+ "/" +:+ name +:+ tail) ->
     str_count "/" owner = 0%nat -> str_count "/" name = 0%nat ->
     tail = "" \/ (exists t, tail = "/" +:+ t) ->
     exists cfg, module_constants env today = Ok cfg /\
                 REPO_OWNER cfg = owner /\ REPO_NAME cfg = name).
Proof.
  unfold module_constants, environ_get. split.
  - intros ->. simpl. by eexists.
  - intros owner name tail -> Ho Hn Htail. simpl.
    change ("/" +:+ name +:+ tail) with (String "/" (name +:+ tail)).
    rewrite str_split_app by done.
    assert (exists rest, str_split "/" (name +:+ tail) = name :: rest) as [rest ->].
    { destruct Htail as [-> | [t ->]].
      - rewrite str_app_nil_r, str_split_plain by done. by eexists.
      - change ("/" +:+ t) with (String "/" t). rewrite str_split_app by done. by eexists. }
    simpl. by eexists.
Qed.

Lemma repository_split_witness :
  exists cfg, module_constants demo_env "2024-05-01" = Ok cfg /\
              REPO_OWNER cfg = "game2822" /\ REPO_NAME cfg = "PapiAPI".
Proof.
  apply (proj2 (repository_split demo_env "2024-05-01") "game2822" "PapiAPI" "").
  - reflexivity.
  - reflexivity.
  - reflexivity.
  - by left.
Defined.

(** X22: with [GITHUB_REPOSITORY] set to a value without a slash, also
    the empty value, the module body raises [IndexError] when it takes
    the second part: the script stops before [main], prints nothing and
    writes nothing, whatever the directory holds. *)
Theorem repository_without_slash_aborts `{PyLib} env today dist_dir fs value :
  dict_get "GITHUB_REPOSITORY" env = Some value -> str_count "/" value = 0%nat ->
  script env today dist_dir fs = Prog [] (Raise (OtherError "IndexError")).
Proof.
  intros Hv Hc. unfold script, module_constants, environ_get. rewrite Hv. simpl.
  by rewrite str_split_plain.
Qed.

Lemma repository_without_slash_aborts_witness :
  script (H := demo_lib) [("GITHUB_REPOSITORY", "PapiAPI")] "2024-05-01" (Some demo_dir) Absent
  = Prog [] (Raise (OtherError "IndexError")).
Proof.
  apply (repository_without_slash_aborts (H := demo_lib) [("GITHUB_REPOSITORY", "PapiAPI")]
           "2024-05-01" (Some demo_dir) Absent "PapiAPI").
  - reflexivity.
  - reflexivity.
Defined.

(** ** The entry of a file *)

(** X23: the entry that the loop upserts for a file has the same eleven
    keys, in the same order, whatever the metadata holds: no other key
    of the metadata is copied.  Its size, download address and build
    identifier come from the file and its name alone, and the line that
    reports the upsert names the name and version stored in the
    entry. *)
Theorem entry_keys_fixed `{PyLib} cfg registry p name build_id kvs :
  FILENAME_RE_match (entry_name p) = Some (name, build_id) ->
  read_model_infos_from_magic (entry_bytes p) = Ok (JObj kvs) ->
  exists fields line,
    process_file cfg registry p =
      match upsert_model registry (JObj fields) with
      | Ok registry' => Prog (version_warning kvs ++ [Print line]) (Ok registry')
      | Raise e => Prog (version_warning kvs) (Raise e)
      end /\
    map fst fields = ["name"; "version"; "author"; "date_created"; "parameters";
                      "compatible_versions"; "size_bytes"; "sha256"; "download_url";
                      "build_id"; "build_type"] /\
    dict_get "size_bytes" fields = Some (JInt (Z.of_nat (length (entry_bytes p)))) /\
    dict_get "download_url" fields = Some (JStr (download_url cfg (entry_name p))) /\
    dict_get "build_id" fields = Some (JStr build_id) /\
    line = MsgUpsert (field (JObj fields) "name") (field (JObj fields) "version")
                     (parse_build_type build_id).
Proof.
  intros Hname Hread. rewrite process_file_plan. unfold file_plan, file_warning.
  rewrite Hname, Hread. unfold entry_of. eexists _, _. split; [reflexivity|].
  by split_and!.
Qed.

Lemma entry_keys_fixed_witness :
  exists fields line,
    process_file (H := demo_lib) demo_cfg empty_catalog demo_file =
      match upsert_model empty_catalog (JObj fields) with
      | Ok registry' =>
          Prog (version_warning [("version", JStr "2.1")] ++ [Print line]) (Ok registry')
      | Raise e => Prog (version_warning [("version", JStr "2.1")]) (Raise e)
      end /\
    map fst fields = ["name"; "version"; "author"; "date_created"; "parameters";
                      "compatible_versions"; "size_bytes"; "sha256"; "download_url";
                      "build_id"; "build_type"] /\
    dict_get "size_bytes" fields = Some (JInt (Z.of_nat (length (entry_bytes demo_file)))) /\
    dict_get "download_url" fields
    = Some (JStr (download_url demo_cfg (entry_name demo_file))) /\
    dict_get "build_id" fields = Some (JStr "X7B") /\
    line = MsgUpsert (field (JObj fields) "name") (field (JObj fields) "version")
                     (parse_build_type "X7B").
Proof.
  apply (entry_keys_fixed (H := demo_lib) demo_cfg empty_catalog demo_file "mymodel" "X7B"
           [("version", JStr "2.1")]).
  - reflexivity.
  - vm_compute. reflexivity.
Defined.

(** X24: the fields of the entry that come from the metadata.  The
    name, version, author and parameters are those of the metadata
    whenever the key is there, also with the value [null]; without the
    key they are the name group of the file name, ["unknown"],
    ["unknown"] and the empty object.  The creation date is that of the
    metadata when it is truthy, of any type; a date that is missing,
    [null], empty or zero gives the current UTC date. *)
Theorem entry_metadata_fields `{PyLib} cfg registry p name build_id kvs :
  FILENAME_RE_match (entry_name p) = Some (name, build_id) ->
  read_model_infos_from_magic (entry_bytes p) = Ok (JObj kvs) ->
  exists entry line,
    process_file cfg registry p =
      match upsert_model registry entry with
      | Ok registry' => Prog (version_warning kvs ++ [Print line]) (Ok registry')
      | Raise e => Prog (version_warning kvs) (Raise e)
      end /\
    field entry "name" = default (JStr name) (dict_get "name" kvs) /\
    field entry "version" = default (JStr "unknown") (dict_get "version" kvs) /\
    field entry "author" = default (JStr "unknown") (dict_get "author" kvs) /\
    field entry "parameters" = default (JObj []) (dict_get "parameters" kvs) /\
    field entry "date_created" =
      match dict_get "date_created" kvs with
      | Some d => if truthy d then d else JStr (utc_today cfg)
      | None => JStr (utc_today cfg)
      end.
Proof.
  intros Hname Hread. rewrite process_file_plan. unfold file_plan, file_warning.
  rewrite Hname, Hread. eexists _, _. split; [reflexivity|].
  split_and!; try done. simpl. unfold py_or.
  by destruct (dict_get "date_created" kvs).
Qed.

Lemma entry_metadata_fields_witness :
  exists entry line,
    process_file (H := demo_lib) demo_cfg empty_catalog demo_file =
      match upsert_model empty_catalog entry with
      | Ok registry' =>
          Prog (version_warning [("version", JStr "2.1")] ++ [Print line]) (Ok registry')
      | Raise e => Prog (version_warning [("version", JStr "2.1")]) (Raise e)
      end /\
    field entry "name" = default (JStr "mymodel") (dict_get "name" [("version", JStr "2.1")]) /\
    field entry "version"
    = default (JStr "unknown") (dict_get "version" [("version", JStr "2.1")]) /\
    field entry "author"
    = default (JStr "unknown") (dict_get "author" [("version", JStr "2.1")]) /\
    field entry "parameters"
    = default (JObj []) (dict_get "parameters" [("version", JStr "2.1")]) /\
    field entry "date_created" =
      match dict_get "date_created" [("version", JStr "2.1")] with
      | Some d => if truthy d then d else JStr (utc_today demo_cfg)
      | None => JStr (utc_today demo_cfg)
      end.
Proof.
  apply (entry_metadata_fields (H := demo_lib) demo_cfg empty_catalog demo_file
           "mymodel" "X7B" [("version", JStr "2.1")]).
  - reflexivity.
  - vm_compute. reflexivity.
Defined.

(** ** The order of Python values

    On the values that compare, [<] is asymmetric and transitive, and
    the equality of items is a congruence for it; on values without NaN
    it is total as well: of two values that are not equal, one is below
    the other.  This makes the result of a sort independent of the
    order of its input when no two keys tie. *)

Lemma ascii_compare_lt_trans a b c :
  Ascii.compare a b = Lt -> Ascii.compare b c = Lt -> Ascii.compare a c = Lt.
Proof. unfold Ascii.compare. rewrite !N.compare_lt_iff. lia. Qed.

Lemma string_compare_lt_trans s : forall t u,
  String.compare s t = Lt -> String.compare t u = Lt -> String.compare s u = Lt.
Proof.
  induction s as [|a s IH]; intros [|b t] [|c u]; simpl; try done.
  destruct (Ascii.compare a b) eqn:Hab; try done;
    destruct (Ascii.compare b c) eqn:Hbc; try done.
  - apply Ascii.compare_eq_iff in Hab as ->. apply Ascii.compare_eq_iff in Hbc as ->.
    rewrite (proj2 (N.compare_eq_iff _ _) eq_refl : Ascii.compare c c = Eq). apply IH.
  - apply Ascii.compare_eq_iff in Hab as ->. by rewrite Hbc.
  - apply Ascii.compare_eq_iff in Hbc as ->. by rewrite Hab.
  - by rewrite (ascii_compare_lt_trans a b c).
Qed.

Lemma string_ltb_trans s t u :
  String.ltb s t = true -> String.ltb t u = true -> String.ltb s u = true.
Proof.
  unfold String.ltb.
  destruct (String.compare s t) eqn:Hst; try done.
  destruct (String.compare t u) eqn:Htu; try done.
  by rewrite (string_compare_lt_trans s t u).
Qed.

Lemma string_ltb_total s t :
  String.eqb s t = false -> String.ltb s t = false -> String.ltb t s = true.
Proof.
  unfold String.ltb. rewrite (String.compare_antisym t s).
  destruct (String.compare s t) eqn:Hst; try done.
  apply String.compare_eq_iff in Hst as ->. by rewrite String.eqb_refl.
Qed.

(** The equality of items is a congruence for itself and for [<]. *)
Lemma py_same_congr_l x y z : py_same x y = true -> py_same x z = py_same y z.
Proof.
  intros Hxy. destruct (py_same y z) eqn:Hyz.
  - by apply (py_same_trans x y z).
  - destruct (py_same x z) eqn:Hxz; [|done].
    rewrite <- Hyz. symmetry. apply (py_same_trans y x z); [by rewrite py_same_sym | done].
Qed.

Lemma py_same_congr_r x y z : py_same y z = true -> py_same x y = py_same x z.
Proof. intros Hyz. rewrite !(py_same_sym x). by apply py_same_congr_l. Qed.

Lemma py_eq_numbers a b x y :
  as_number a = Some x -> as_number b = Some y -> py_eq a b = num_eqb x y.
Proof.
  intros Ha Hb.
  destruct a as [| | | [] | | |]; try done; destruct b as [| | | [] | | |]; try done;
    by simplify_eq/=.
Qed.

Lemma py_eq_number_other a c x :
  as_number a = Some x -> as_number c = None -> py_eq a c = false /\ py_eq c a = false.
Proof.
  intros Ha Hc.
  destruct a as [| | | [] | | |]; try done; by destruct c as [| | | [] | | |].
Qed.

Lemma py_lt_number_other a c x :
  as_number a = Some x -> as_number c = None ->
  py_lt a c = Raise TypeError /\ py_lt c a = Raise TypeError.
Proof.
  intros Ha Hc.
  destruct a as [| | | [] | | |]; try done; by destruct c as [| | | [] | | |].
Qed.

Lemma lex_lt_congr xs :
  Forall lt_congr xs ->
  forall ys zs, list_eqb py_same xs ys = true ->
    lex_lt py_same py_lt xs zs = lex_lt py_same py_lt ys zs /\
    lex_lt py_same py_lt zs xs = lex_lt py_same py_lt zs ys.
Proof.
  induction 1 as [|x xs Hx _ IH]; intros [|y ys] zs; simpl; try done.
  intros [Hxy Hrest]%andb_true_iff. destruct zs as [|z zs]; simpl; [done|].
  destruct (IH ys zs Hrest) as [IH1 IH2]. destruct (Hx y Hxy z) as [H1 H2].
  rewrite (py_same_congr_l x y z Hxy), (py_same_congr_r z x y Hxy), H1, H2, IH1, IH2. done.
Qed.

Lemma py_lt_congr_number a x :
  as_number a = Some x ->
  forall b, py_eq a b = true -> forall c, py_lt a c = py_lt b c /\ py_lt c a = py_lt c b.
Proof.
  intros Ha b Hab c.
  destruct (as_number b) as [y|] eqn:Hb;
    [|by rewrite (proj1 (py_eq_number_other a b x Ha Hb)) in Hab].
  rewrite (py_eq_numbers a b x y Ha Hb) in Hab.
  destruct (as_number c) as [z|] eqn:Hc.
  - rewrite (py_lt_numbers a c x z Ha Hc), (py_lt_numbers b c y z Hb Hc),
      (py_lt_numbers c a z x Hc Ha), (py_lt_numbers c b z y Hc Hb).
    by destruct (num_ltb_congr x y z Hab) as [-> ->].
  - destruct (py_lt_number_other a c x Ha Hc) as [-> ->].
    by destruct (py_lt_number_other b c y Hb Hc) as [-> ->].
Qed.

Lemma py_lt_congr a : lt_congr a.
Proof.
  induction a as [|x|n|f|s|xs IH|kvs _] using json_ind; intros b Hab c;
    apply py_same_spec in Hab as [[-> ->]|Hab]; try done.
  - apply py_eq_null in Hab as ->. done.
  - by apply (py_lt_congr_number (JBool x) _ eq_refl).
  - by apply (py_lt_congr_number (JInt n) _ eq_refl).
  - destruct f as [|negative|negative m e].
    + by rewrite py_eq_nan_l in Hab.
    + by apply (py_lt_congr_number (JFloat (FInf negative)) _ eq_refl).
    + by apply (py_lt_congr_number (JFloat (FFin negative m e)) _ eq_refl).
  - destruct b as [| | | | t | |]; try done. simpl in Hab.
    apply String.eqb_eq in Hab as ->. done.
  - destruct b as [| | | | |ys|]; try done. rewrite py_eq_arr in Hab.
    destruct c as [| | | [] | |zs|]; try done. simpl. by apply lex_lt_congr.
  - destruct b as [| | | | | |kvs']; try done. by destruct c as [| | | [] | | |].
Qed.

(** [<] is transitive. *)
Lemma lex_lt_trans xs :
  Forall lt_trans_at xs ->
  forall ys zs,
    lex_lt py_same py_lt xs ys = Ok true -> lex_lt py_same py_lt ys zs = Ok true ->
    lex_lt py_same py_lt xs zs = Ok true.
Proof.
  induction 1 as [|x xs Hx _ IH]; intros [|y ys] [|z zs]; simpl; try done.
  destruct (py_same x y) eqn:Hxy, (py_same y z) eqn:Hyz.
  - rewrite (py_same_trans x y z Hxy Hyz). apply IH.
  - intros _ Hlt. rewrite (py_same_congr_l x y z Hxy), Hyz.
    by rewrite (proj1 (py_lt_congr x y Hxy z)).
  - intros Hlt _. rewrite <- (py_same_congr_r x y z Hyz), Hxy.
    by rewrite <- (proj2 (py_lt_congr y z Hyz x)).
  - intros Hlt1 Hlt2. destruct (py_same x z) eqn:Hxz; [|by apply (Hx y z)].
    rewrite (proj1 (py_lt_congr x z Hxz y)) in Hlt1.
    apply py_lt_asym in Hlt2. congruence.
Qed.

Lemma py_lt_trans_number a x :
  as_number a = Some x ->
  forall b c, py_lt a b = Ok true -> py_lt b c = Ok true -> py_lt a c = Ok true.
Proof.
  intros Ha b c.
  destruct (as_number b) as [y|] eqn:Hb;
    [|by rewrite (proj1 (py_lt_number_other a b x Ha Hb))].
  destruct (as_number c) as [z|] eqn:Hc;
    [|by rewrite (proj1 (py_lt_number_other b c y Hb Hc))].
  rewrite (py_lt_numbers a b x y Ha Hb), (py_lt_numbers b c y z Hb Hc),
    (py_lt_numbers a c x z Ha Hc).
  intros [= H1] [= H2]. f_equal. by apply (num_ltb_trans x y z).
Qed.

Lemma py_lt_trans a : lt_trans_at a.
Proof.
  induction a as [|x|n|f|s|xs IH|kvs _] using json_ind; intros b c.
  - by destruct b as [| | | [] | | |].
  - by apply (py_lt_trans_number (JBool x) _ eq_refl).
  - by apply (py_lt_trans_number (JInt n) _ eq_refl).
  - destruct f as [|negative|negative m e].
    + by apply (py_lt_trans_number (JFloat FNan) _ eq_refl).
    + by apply (py_lt_trans_number (JFloat (FInf negative)) _ eq_refl).
    + by apply (py_lt_trans_number (JFloat (FFin negative m e)) _ eq_refl).
  - destruct b as [| | | [] |t| |]; try done; destruct c as [| | | [] |u| |]; try done; simpl.
    intros [= H1] [= H2]. f_equal. by apply (string_ltb_trans s t u).
  - destruct b as [| | | [] | |ys|]; try done; destruct c as [| | | [] | |zs|]; try done; simpl.
    by apply lex_lt_trans.
  - by destruct b as [| | | [] | | |].
Qed.

(** Of two values without NaN that compare and are not equal, one is
    below the other. *)
Lemma lex_lt_total xs :
  Forall lt_total_at xs ->
  forallb nan_free xs = true ->
  forall ys, forallb nan_free ys = true -> list_eqb py_same xs ys = false ->
    lex_lt py_same py_lt xs ys = Ok false -> lex_lt py_same py_lt ys xs = Ok true.
Proof.
  induction 1 as [|x xs Hx _ IH]; intros Hxs [|y ys] Hys; simpl in *; try done.
  apply andb_true_iff in Hxs as [Hnx Hxs]. apply andb_true_iff in Hys as [Hny Hys].
  rewrite (py_same_sym y x). destruct (py_same x y) eqn:Hxy; simpl.
  - by apply IH.
  - intros _. by apply Hx.
Qed.

Lemma nan_free_number a x : nan_free a = true -> as_number a = Some x -> x <> Nan.
Proof. destruct a as [| | | [] | | |]; try done; by intros _ [= <-]. Qed.

Lemma py_lt_total_number a x :
  as_number a = Some x -> lt_total_at a.
Proof.
  intros Ha Hna b Hnb Hsame Hlt.
  destruct (as_number b) as [y|] eqn:Hb;
    [|by rewrite (proj1 (py_lt_number_other a b x Ha Hb)) in Hlt].
  rewrite (py_lt_numbers a b x y Ha Hb) in Hlt. rewrite (py_lt_numbers b a y x Hb Ha).
  injection Hlt as Hlt. f_equal.
  apply num_ltb_total.
  - by apply (nan_free_number a).
  - by apply (nan_free_number b).
  - rewrite <- (py_eq_numbers a b x y Ha Hb).
    unfold py_same in Hsame. by apply orb_false_iff in Hsame as [_ ?].
  - done.
Qed.

Lemma py_lt_total a : lt_total_at a.
Proof.
  induction a as [|x|n|f|s|xs IH|kvs _] using json_ind.
  - intros _ b _ _. by destruct b as [| | | [] | | |].
  - by apply (py_lt_total_number (JBool x) _ eq_refl).
  - by apply (py_lt_total_number (JInt n) _ eq_refl).
  - destruct f as [|negative|negative m e].
    + done.
    + by apply (py_lt_total_number (JFloat (FInf negative)) _ eq_refl).
    + by apply (py_lt_total_number (JFloat (FFin negative m e)) _ eq_refl).
  - intros _ b _. destruct b as [| | | [] |t| |]; try done; simpl.
    unfold py_same. simpl. intros H0 [= H1]. f_equal. by apply string_ltb_total.
  - intros Hxs b Hb. destruct b as [| | | [] | |ys|]; try done.
    unfold py_same. simpl is_nan. rewrite py_eq_arr. simpl. by apply lex_lt_total.
  - intros _ b _ _. by destruct b as [| | | [] | | |].
Qed.

(** The pairs that [save_registry] sorts by compare as lists of two
    items. *)
Lemma tuple_lt_arr a b : tuple_lt a b = py_lt (JArr [a.1; a.2]) (JArr [b.1; b.2]).
Proof.
  unfold tuple_lt. simpl. by destruct (py_same a.1 b.1), (py_same a.2 b.2).
Qed.

Lemma lt_total_true a b : lt_total a b = true <-> tuple_lt a b = Ok true.
Proof.
  unfold lt_total. destruct (tuple_lt a b) as [[]|]; split; try done; by intros [=].
Qed.

Lemma lt_total_trans a b c :
  lt_total a b = true -> lt_total b c = true -> lt_total a c = true.
Proof.
  rewrite !lt_total_true, !tuple_lt_arr. apply py_lt_trans.
Qed.

Lemma lt_total_strict a b :
  nan_free a.1 && nan_free a.2 = true -> nan_free b.1 && nan_free b.2 = true ->
  py_same a.1 b.1 && py_same a.2 b.2 = false ->
  is_ok (tuple_lt a b) = true ->
  lt_total a b = true \/ lt_total b a = true.
Proof.
  intros Ha Hb Hne Hok. rewrite !lt_total_true.
  destruct (tuple_lt a b) as [[]|] eqn:Hab; try done; [by left|right].
  rewrite tuple_lt_arr in *. apply py_lt_total; try done.
  - simpl. by rewrite andb_true_r.
  - simpl. by rewrite andb_true_r.
  - unfold py_same. simpl is_nan. rewrite py_eq_arr. simpl. by rewrite andb_true_r.
Qed.

(** ** Sorting keys that do not tie

    For an order that is asymmetric and transitive, a list without ties
    has one increasing arrangement, and the stable sort computes it from
    every permutation of the list. *)

Section sort_unique.
Context {K V : Type} (lt : K -> K -> bool).
Hypothesis lt_asym : forall a b, lt a b = true -> lt b a = false.
Hypothesis lt_trans : forall a b c, lt a b = true -> lt b c = true -> lt a c = true.

Lemma strictly_ordered_perm (l l' : list (K * V)) :
  l ≡ₚ l' -> strictly_ordered lt l -> strictly_ordered lt l'.
Proof.
  induction 1 as [|x l l' Hl IH|x y l|l1 l2 l3 _ IH1 _ IH2]; simpl.
  - done.
  - intros [Hx Hs]. split; [by rewrite <- Hl | by apply IH].
  - intros [Hy [Hx Hs]]. inversion_clear Hy as [|? ? Hyx Hy'].
    split_and!; try done. constructor; [tauto | done].
  - intros Hs. by apply IH2, IH1.
Qed.

Lemma insert_sorted_increasing (x : K * V) l :
  increasing lt l ->
  Forall (fun y => lt x.1 y.1 = true \/ lt y.1 x.1 = true) l ->
  increasing lt (insert_sorted lt x l).
Proof.
  induction l as [|y l IH]; simpl; [done|].
  intros [Hy Hl] Hx. inversion_clear Hx as [|? ? Hxy Hxl].
  destruct (lt y.1 x.1) eqn:Hyx; simpl.
  - split; [|by apply IH]. rewrite insert_sorted_perm. by constructor.
  - destruct Hxy as [Hxy|Hxy]; [|congruence]. split_and!; try done.
    constructor; [done|]. eapply list.Forall_impl; [exact Hy|].
    intros z Hz. simpl in Hz. by apply (lt_trans _ y.1).
Qed.

Lemma stable_sort_increasing (l : list (K * V)) :
  strictly_ordered lt l -> increasing lt (stable_sort lt l).
Proof.
  induction l as [|x l IH]; simpl; [done|]. intros [Hx Hl].
  apply insert_sorted_increasing; [by apply IH|]. by rewrite stable_sort_perm.
Qed.

Lemma increasing_unique (l : list (K * V)) : forall l',
  increasing lt l -> increasing lt l' -> l ≡ₚ l' -> l = l'.
Proof.
  induction l as [|x l IH]; intros l' Hl Hl' Hperm.
  - by apply Permutation_nil_l in Hperm.
  - destruct l' as [|x' l']; [by apply Permutation_nil_r in Hperm|].
    destruct Hl as [Hx Hl], Hl' as [Hx' Hl'].
    assert (x = x') as <-.
    { assert (x ∈ x' :: l') as Hin by (rewrite <- Hperm; by left).
      assert (x' ∈ x :: l) as Hin' by (rewrite Hperm; by left).
      apply elem_of_cons in Hin as [?|Hin]; [done|].
      apply elem_of_cons in Hin' as [?|Hin']; [done|].
      rewrite list.Forall_forall in Hx, Hx'.
      specialize (Hx x' Hin'). specialize (Hx' x Hin).
      apply lt_asym in Hx. congruence. }
    f_equal. apply IH; try done. by apply (Permutation_cons_inv (a := x)).
Qed.

Lemma stable_sort_strict_perm (l l' : list (K * V)) :
  strictly_ordered lt l -> l ≡ₚ l' -> stable_sort lt l = stable_sort lt l'.
Proof.
  intros Hs Hperm. apply increasing_unique.
  - by apply stable_sort_increasing.
  - apply stable_sort_increasing. by eapply strictly_ordered_perm.
  - by rewrite !stable_sort_perm.
Qed.

Lemma stable_sort_app (l1 l2 : list (K * V)) :
  stable_sort lt (l1 ++ l2) = foldr (insert_sorted lt) (stable_sort lt l2) l1.
Proof. unfold stable_sort. by rewrite foldr_app. Qed.
End sort_unique.

(** ** Upserts of entries with distinct keys

    On a list with one entry per key, the upserts of entries with
    distinct keys replace the entries that have their keys, each in its
    place, and append the others in the order of the upserts. *)

Lemma existsb_false {A} (f : A -> bool) l :
  existsb f l = false <-> Forall (fun x => f x = false) l.
Proof.
  induction l as [|x l IH]; simpl; [by split; [constructor|]|].
  rewrite orb_false_iff, IH, Forall_cons_iff. done.
Qed.

Lemma upsert_list_distinct ms e :
  distinct_keys ms ->
  upsert_list ms e =
    if existsb (fun m => key_eq m e) ms
    then map (fun m => if key_eq m e then e else m) ms
    else ms ++ [e].
Proof.
  induction ms as [|m ms IH]; simpl; [done|]. intros [Hm Hd].
  destruct (key_eq m e) eqn:Hme; simpl.
  - f_equal. symmetry. rewrite <- (map_id ms) at 2. apply map_ext_Forall.
    eapply list.Forall_impl; [exact Hm|]. intros x Hx. simpl in Hx.
    rewrite <- (key_eq_congr m e x Hme), key_eq_sym. by rewrite Hx.
  - rewrite IH by done. by destruct (existsb _ ms).
Qed.

Lemma find_none_Forall {A} (f : A -> bool) l :
  Forall (fun x => f x = false) l -> List.find f l = None.
Proof. induction 1 as [|x l Hx _ IH]; simpl; [done|]. by rewrite Hx. Qed.

Lemma existsb_replaced ms e x :
  existsb (fun m => key_eq m x) (map (fun m => if key_eq m e then e else m) ms)
  = existsb (fun m => key_eq m x) ms.
Proof.
  induction ms as [|m ms IH]; simpl; [done|]. rewrite IH. f_equal.
  destruct (key_eq m e) eqn:Hme; [|done].
  by rewrite (key_eq_sym e x), <- (key_eq_congr m e x Hme), key_eq_sym.
Qed.

Lemma upserts_split es : forall ms,
  distinct_keys ms -> distinct_keys es ->
  fold_left upsert_list es ms = updated ms es ++ appended ms es.
Proof.
  induction es as [|e es IH]; intros ms Hms Hes; simpl.
  - unfold updated, appended. simpl. by rewrite map_id, app_nil_r.
  - destruct Hes as [He Hes].
    rewrite IH; [|by apply unique_keys_distinct, unique_keys_upsert_list, unique_keys_distinct
                 |done].
    rewrite upsert_list_distinct by done. unfold updated, appended. simpl.
    destruct (existsb (fun m => key_eq m e) ms) eqn:Hex; simpl.
    + f_equal.
      * rewrite map_map. apply map_ext. intros m.
        destruct (key_eq m e) eqn:Hme; [|done]. by rewrite (find_none_Forall _ es).
      * apply filter_ext. intros x. by rewrite existsb_replaced.
    + apply existsb_false in Hex.
      rewrite map_app,
        filter_ext_in with (g := fun e0 => negb (existsb (fun m => key_eq m e0) ms)).
      * simpl. rewrite (find_none_Forall _ es) by done. simpl. rewrite <- app_assoc. f_equal.
        apply map_ext_Forall. eapply list.Forall_impl; [exact Hex|].
        intros m Hm. simpl in Hm. by rewrite Hm.
      * intros x Hx. rewrite existsb_app. simpl. rewrite orb_false_r.
        rewrite list.Forall_forall in He. rewrite (He x); [by rewrite orb_false_r|].
        by apply list_elem_of_In.
Qed.

(** ** The order of the upserts

    Permuting the upserts permutes the entries that are appended, and
    nothing else; the sort then gives the same list. *)

Lemma find_key_perm m es es' :
  es ≡ₚ es' -> distinct_keys es ->
  List.find (fun e => key_eq m e) es = List.find (fun e => key_eq m e) es'.
Proof.
  induction 1 as [|x l l' Hl IH|x y l|l1 l2 l3 Hl1 IH1 _ IH2]; simpl.
  - done.
  - intros [_ Hd]. destruct (key_eq m x); [done | by apply IH].
  - intros [Hy _]. inversion_clear Hy as [|? ? Hyx _].
    destruct (key_eq m y) eqn:Hmy, (key_eq m x) eqn:Hmx; try done.
    rewrite (key_eq_sym m y) in Hmy. rewrite (key_eq_congr m x y Hmx) in Hmy. congruence.
  - intros Hd. rewrite IH1 by done. apply IH2. by apply (distinct_keys_perm l1).
Qed.

Lemma filter_perm {A} (f : A -> bool) l l' : l ≡ₚ l' -> List.filter f l ≡ₚ List.filter f l'.
Proof.
  induction 1 as [|x l l' _ IH|x y l|l1 l2 l3 _ IH1 _ IH2]; simpl.
  - done.
  - destruct (f x); by rewrite IH.
  - destruct (f x), (f y); try done. apply perm_swap.
  - by rewrite IH1.
Qed.

Lemma distinct_keys_filter f es : distinct_keys es -> distinct_keys (List.filter f es).
Proof.
  induction es as [|e es IH]; simpl; [done|]. intros [He Hes].
  destruct (f e); simpl; [|by apply IH]. split; [|by apply IH].
  apply list.Forall_forall. intros x [Hx _]%list_elem_of_In%filter_In.
  rewrite list.Forall_forall in He. apply He. by apply list_elem_of_In.
Qed.

Lemma py_same_not_nan a b : is_nan a = false -> py_same a b = py_eq a b.
Proof. intros H. unfold py_same. by rewrite H. Qed.

Lemma key_fields_sort_key a b :
  has_key_fields a -> has_key_fields b -> key_nan_free a = true ->
  py_same (sort_key_of a).1 (sort_key_of b).1 && py_same (sort_key_of a).2 (sort_key_of b).2
  = key_eq a b.
Proof.
  destruct a as [| | | | | |kvs], b as [| | | | | |kvs']; try done.
  intros [[n Hn] [v Hv]] [[n' Hn'] [v' Hv']]. unfold key_eq, key_nan_free. simpl.
  rewrite Hn, Hv, Hn', Hv'. simpl. intros [Hfn Hfv]%andb_true_iff.
  by rewrite !py_same_not_nan by (by apply nan_free_not_nan).
Qed.

Lemma key_fields_nan_free a :
  has_key_fields a -> key_nan_free a = true ->
  nan_free (sort_key_of a).1 && nan_free (sort_key_of a).2 = true.
Proof.
  destruct a as [| | | | | |kvs]; try done.
  intros [[n Hn] [v Hv]]. unfold key_nan_free. simpl. by rewrite Hn, Hv.
Qed.

Lemma strictly_ordered_entries es :
  distinct_keys es -> Forall has_key_fields es ->
  Forall (fun e => key_nan_free e = true) es ->
  (forall a b, a ∈ es -> b ∈ es -> is_ok (tuple_lt (sort_key_of a) (sort_key_of b)) = true) ->
  strictly_ordered lt_total (map (fun m => (sort_key_of m, m)) es).
Proof.
  induction es as [|e es IH]; simpl; [done|].
  intros [He Hd] Hf Hn Hcmp. inversion_clear Hf as [|? ? Hfe Hfes].
  inversion_clear Hn as [|? ? Hne Hnes]. split.
  - apply Forall_map. rewrite list.Forall_forall in He, Hfes, Hnes. apply list.Forall_forall.
    intros x Hx. simpl. apply lt_total_strict.
    + by apply key_fields_nan_free.
    + apply key_fields_nan_free; auto.
    + rewrite key_fields_sort_key by auto. by apply He.
    + apply Hcmp; [by left | by right].
  - apply IH; try done. intros a b Ha Hb. apply Hcmp; by right.
Qed.

Lemma sorted_upserts_perm ms es es' :
  distinct_keys ms -> distinct_keys es -> es ≡ₚ es' ->
  Forall has_key_fields es ->
  Forall (fun e => key_nan_free e = true) es ->
  comparable (map sort_key_of (fold_left upsert_list es ms)) = true ->
  sorted_models (fold_left upsert_list es ms) = sorted_models (fold_left upsert_list es' ms).
Proof.
  intros Hms Hes Hperm Hf Hn Hcmp.
  assert (distinct_keys es') as Hes' by (by apply (distinct_keys_perm es)).
  rewrite upserts_split in Hcmp by done. rewrite !upserts_split by done.
  assert (updated ms es' = updated ms es) as ->.
  { unfold updated. apply map_ext. intros m. by rewrite (find_key_perm m es es'). }
  unfold sorted_models. rewrite !map_app, !stable_sort_app. do 2 f_equal.
  apply stable_sort_strict_perm.
  - apply lt_total_asym.
  - apply lt_total_trans.
  - apply strictly_ordered_entries.
    + by apply distinct_keys_filter.
    + unfold appended. apply list.Forall_forall. intros x [Hx _]%list_elem_of_In%filter_In.
      rewrite list.Forall_forall in Hf. apply Hf. by apply list_elem_of_In.
    + unfold appended. apply list.Forall_forall. intros x [Hx _]%list_elem_of_In%filter_In.
      rewrite list.Forall_forall in Hn. apply Hn. by apply list_elem_of_In.
    + rewrite comparable_spec in Hcmp. intros a b Ha Hb.
      apply Hcmp; apply in_map, in_or_app; right; by apply list_elem_of_In.
  - apply Permutation_map. by apply filter_perm.
Qed.

Lemma file_plan_key_fields `{PyLib} cfg p entry line :
  file_plan cfg p = Upsert entry line -> has_key_fields entry.
Proof.
  unfold file_plan. destruct (FILENAME_RE_match _) as [[name build_id]|]; [|done].
  destruct (read_model_infos_from_magic _) as [[| ? | ? | ? | ? | ? | kvs]|e]; try done.
  intros [= <- _]. simpl. split; by eexists.
Qed.

Lemma entries_of_key_fields `{PyLib} cfg files : Forall has_key_fields (entries_of cfg files).
Proof.
  unfold entries_of. induction files as [|p files IH]; simpl; [by constructor|].
  destruct (file_plan cfg p) eqn:Hp; try done.
  constructor; [by eapply file_plan_key_fields | done].
Qed.

Lemma comparable_perm ks ks' : ks ≡ₚ ks' -> comparable ks = true -> comparable ks' = true.
Proof.
  intros Hperm. rewrite !comparable_spec. intros Hcmp a b Ha Hb.
  apply Hcmp; by eapply Permutation_in; [symmetry|].
Qed.

Lemma upserts_perm ms es es' :
  distinct_keys ms -> distinct_keys es -> es ≡ₚ es' ->
  fold_left upsert_list es ms ≡ₚ fold_left upsert_list es' ms.
Proof.
  intros Hms Hes Hperm.
  rewrite !upserts_split by (done || by apply (distinct_keys_perm es)).
  assert (updated ms es' = updated ms es) as ->.
  { unfold updated. apply map_ext. intros m. by rewrite (find_key_perm m es es'). }
  apply Permutation_app_head. by apply filter_perm.
Qed.

(** X25: the registry file does not depend on the order in which the
    directory lists the candidate files, as long as no two of them give
    entries with the same identity key, the catalog that was loaded has
    one entry per identity key, and no name or version in play is NaN or
    holds one: when a run completes, a run over the same files listed
    in another order completes and writes the same text. *)
Theorem listing_order_irrelevant `{PyLib} cfg entries entries' fs t0 registry :
  glob_magic entries ≡ₚ glob_magic entries' ->
  load_registry fs = Prog t0 (Ok registry) ->
  (forall ms, getitem registry "models" = Ok (JArr ms) -> unique_keys ms) ->
  unique_keys (entries_of cfg (glob_magic entries)) ->
  forallb key_nan_free (loaded_models fs ++ run_entries cfg (Some entries)) = true ->
  outcome (main cfg (Some entries) fs) = Ok 0 ->
  outcome (main cfg (Some entries') fs) = Ok 0 /\
  writes (trace (main cfg (Some entries') fs)) = writes (trace (main cfg (Some entries) fs)).
Proof.
  intros Hperm Hload Huniq Hes Hkeys Hrun.
  assert (Forall (fun e => key_nan_free e = true) (entries_of cfg (glob_magic entries)))
    as Hplain.
  { rewrite forallb_app in Hkeys. apply andb_true_iff in Hkeys as [_ Hkeys].
    rewrite forallb_forall in Hkeys. apply Forall_forall. intros e He. by apply Hkeys. }
  clear Hkeys.
  destruct (glob_magic entries) as [|p rest] eqn:Hglob.
  { apply Permutation_nil in Hperm. unfold main. rewrite Hglob, Hperm, Hload. by prog_cbn. }
  assert (glob_magic entries <> []) as Hne by (by rewrite Hglob).
  rewrite <- Hglob in *. clear p rest Hglob.
  destruct (main_written cfg entries fs 0 Hne Hrun)
    as (t0' & registry' & ms & Hload' & Hget & _ & Hw & Hms & Hfiles & Hcmp).
  rewrite Hload in Hload'. injection Hload' as <- <-.
  apply unique_keys_distinct in Hes. specialize (Huniq ms Hget).
  apply unique_keys_distinct in Huniq.
  set (es := entries_of cfg (glob_magic entries)) in *.
  set (es' := entries_of cfg (glob_magic entries')).
  assert (es ≡ₚ es') as Hes'.
  { unfold es, es', entries_of. by rewrite Hperm. }
  destruct (process_files_dicts cfg (glob_magic entries') registry ms Hget Hms)
    as (t1 & Hloop & Ht1); [by rewrite <- Hperm|]. fold es' in Hloop.
  assert (Hgetw : getitem (with_models registry (JArr (fold_left upsert_list es' ms))) "models"
                  = Ok (JArr (fold_left upsert_list es' ms)))
    by (by eapply getitem_with_models).
  pose proof (save_registry_dicts _ _ Hgetw) as Hsave.
  rewrite with_models_twice in Hsave.
  assert (main cfg (Some entries') fs =
          Prog (t0 ++ t1 ++ [WriteRegistry (json_dumps (with_models registry
                  (JArr (sorted_models (fold_left upsert_list es' ms))))); Print MsgSaved])
               (Ok 0)) as Hmain.
  { destruct (glob_magic entries') as [|q rest'] eqn:Hglob'.
    { symmetry in Hperm. by apply Permutation_nil in Hperm. }
    rewrite (main_candidates cfg entries' fs q rest' Hglob'), Hload. prog_cbn.
    rewrite Hloop. prog_cbn. rewrite Hsave; [by prog_cbn | |].
    - apply upserts_dicts; [apply entries_of_dicts | done].
    - apply (comparable_perm (map sort_key_of (fold_left upsert_list es ms))); [|done].
      apply Permutation_map. by apply upserts_perm. }
  rewrite Hmain, Hw. cbn [outcome trace]. split; [done|].
  pose proof (load_registry_outcome fs) as (t0' & r' & Hload' & Ht0).
  rewrite Hload in Hload'. injection Hload' as <- <-.
  rewrite !writes_app, Ht0, Ht1. simpl.
  rewrite (sorted_upserts_perm ms es es'); try done. apply entries_of_key_fields.
Qed.

Lemma listing_order_irrelevant_witness :
  outcome (main (H := demo_lib) demo_cfg (Some [demo_beta; demo_alpha]) Absent) = Ok 0 /\
  writes (trace (main (H := demo_lib) demo_cfg (Some [demo_beta; demo_alpha]) Absent))
  = writes (trace (main (H := demo_lib) demo_cfg (Some [demo_alpha; demo_beta]) Absent)).
Proof.
  apply (listing_order_irrelevant (H := demo_lib) demo_cfg [demo_alpha; demo_beta]
           [demo_beta; demo_alpha] Absent [] empty_catalog).
  - apply (perm_swap demo_beta demo_alpha []).
  - reflexivity.
  - intros ms [= <-] i j m m' Hi. discriminate Hi.
  - apply unique_keys_distinct.
    change (distinct_keys [entry_of demo_cfg demo_alpha "alpha" "1A" [];
                           entry_of demo_cfg demo_beta "beta" "2B" []]).
    split; [constructor; [reflexivity | constructor] | split; [constructor | exact I]].
  - reflexivity.
  - reflexivity.
Defined.

(** X26: [save_registry] writes a canonical text: when no two entries
    tie on the sort key [(name, version)], the text that is written does
    not depend on the order that the entries have in memory. *)
Theorem save_registry_canonical `{PyLib} registry ms ms' t :
  getitem registry "models" = Ok (JArr ms) ->
  ms ≡ₚ ms' ->
  strictly_ordered lt_total (map (fun m => (sort_key_of m, m)) ms) ->
  save_registry registry = Prog t (Ok tt) ->
  save_registry (with_models registry (JArr ms')) = Prog t (Ok tt).
Proof.
  intros Hget Hperm Hstrict Hsave.
  destruct (save_registry_ok registry t Hsave) as (ms0 & Hget0 & Hms & Hcmp & ->).
  rewrite Hget in Hget0. injection Hget0 as <-.
  assert (sorted_models ms = sorted_models ms') as Hsorted.
  { unfold sorted_models. f_equal. apply stable_sort_strict_perm; try done.
    - apply lt_total_asym.
    - apply lt_total_trans.
    - by apply Permutation_map. }
  rewrite (save_registry_dicts _ ms').
  - by rewrite with_models_twice, Hsorted.
  - by eapply getitem_with_models.
  - by rewrite <- Hperm.
  - apply (comparable_perm (map sort_key_of ms)); [by apply Permutation_map | done].
Qed.

Lemma save_registry_canonical_witness :
  save_registry (H := demo_lib)
    (with_models demo_catalog (JArr [demo_old_entry; demo_other_entry]))
  = Prog (trace (save_registry (H := demo_lib) demo_catalog)) (Ok tt).
Proof.
  apply (save_registry_canonical (H := demo_lib) demo_catalog
           [demo_other_entry; demo_old_entry] [demo_old_entry; demo_other_entry]).
  - reflexivity.
  - apply perm_swap.
  - split; [constructor; [by right | constructor] | split; [constructor | exact I]].
  - reflexivity.
Defined.
